(** * GDALRasterConverter: the conversion worker of [main.cpp]

    A shallow embedding of [Worker::process], [Worker::processWithCreateMethod],
    [Worker::processWithCreateCopyMethod], [Worker::processData],
    [Worker::progressCallback] and of the ETA computation of
    [MainWindow::updateProgress].

    The worker talks to three things outside itself: the GDAL library, the
    atomic flag [isConverting] that another thread may clear, and the Qt
    signals it emits.  GDAL and the flag are an environment [Env] the worker
    reads; the signals emitted, the GDAL calls made and the number of loads
    of the flag performed so far are the state [Run] the worker threads
    through its code. *)

From Stdlib Require Import ZArith List String Bool Lia QArith Qround Lqa.
From Stdlib Require Import DecimalString Ascii Sorted.
Import ListNotations.

Local Open Scope string_scope.
Local Open Scope Z_scope.

(** ** Machine integers

    [int] is a 32-bit two's complement integer.  Signed overflow has no
    defined behaviour in C++; the embedding takes the result the hardware
    gives, the wrapped one. *)

Module Int32.

Definition INT_MAX : Z := 2147483647.
Definition INT_MIN : Z := -2147483648.

Definition wrap (z : Z) : Z := (z + 2147483648) mod 4294967296 - 2147483648.

Definition add (a b : Z) : Z := wrap (a + b).
Definition sub (a b : Z) : Z := wrap (a - b).
Definition mul (a b : Z) : Z := wrap (a * b).
(** C++ division truncates towards zero. *)
Definition div (a b : Z) : Z := wrap (Z.quot a b).

Definition in_range (z : Z) : Prop := INT_MIN <= z <= INT_MAX.

End Int32.

(** ** Signals, GDAL calls and the run state *)

(** [float] values that the worker hands to [progressUpdated].  A finite
    [float] is a rational number; the quotient of line 363 is kept exact
    (the rounding of the binary32 division is monotone and maps [0,1] into
    itself, so order and range of the emitted values are those of the exact
    quotients).  A division by a zero block count gives an infinity or a
    NaN. *)
Inductive Float : Type :=
| Finite (q : Q)
| Infinite (negative : bool)
| NaN.

Inductive Signal : Type :=
| logMessage (message : string)
| progressUpdated (progress : Float)
| finished (success : bool) (message : string).

(** A block of the raster: offset and size, as passed to [RasterIO]. *)
Record Tile : Type := mkTile { tx : Z; ty : Z; tw : Z; th : Z }.

Inductive Handle : Type := SourceDataset | OutputDataset.

(** The calls into GDAL that the worker makes. *)
Inductive Call : Type :=
| GDALOpenEx (path : string)
| GetDriverByName (name : string)
| Create (path : string) (nXSize nYSize nBands : Z)
| CreateCopy (path : string)
| SetProjection
| SetGeoTransform
| RasterRead (band : Z) (t : Tile)
| RasterWrite (band : Z) (t : Tile)
| GDALClose (h : Handle).

Record Run : Type := mkRun {
  emitted : list Signal;   (* signals, oldest first *)
  calls : list Call;       (* GDAL calls, oldest first *)
  loads : nat              (* loads of [isConverting] done so far *)
}.

Definition start : Run := mkRun [] [] 0.

Definition emit (s : Signal) (r : Run) : Run :=
  mkRun (emitted r ++ [s]) (calls r) (loads r).

Definition call (c : Call) (r : Run) : Run :=
  mkRun (emitted r) (calls r ++ [c]) (loads r).

(** ** The environment *)

Record Dataset : Type := mkDataset {
  RasterXSize : Z;
  RasterYSize : Z;
  RasterCount : Z;
  hasProjection : bool;      (* GetProjectionRef() is not null *)
  hasGeoTransform : bool     (* GetGeoTransform() = CE_None *)
}.

Record Driver : Type := mkDriver {
  DCAP_CREATE : bool;        (* GetMetadataItem(GDAL_DCAP_CREATE) != nullptr *)
  DCAP_CREATECOPY : bool
}.

Inductive ProcessingMode : Type := CPU | GPU | OtherMode.

Record Env : Type := mkEnv {
  (* the job, as given to the constructor of Worker *)
  inputFile : string;
  outputFile : string;
  outputDriverName : string;
  gdalOptions : list (string * string);   (* QMap, in key order *)
  processingMode : ProcessingMode;
  numCores : Z;
  (* [requestInterruption] is the only writer of [isConverting] and stores
     false: the flag is true up to some load and false from then on.
     [Some c]: the load number c (counting from 0) and all later ones see
     false.  [None]: nobody cancels. *)
  interruptedAt : option nat;
  (* GDAL *)
  openResult : option Dataset;
  driverResult : option Driver;
  createResult : bool;
  readOk : Z -> Tile -> bool;     (* RasterIO(GF_Read) = CE_None *)
  writeOk : Z -> Tile -> bool;    (* RasterIO(GF_Write) = CE_None *)
  (* the completion fractions the driver's copy loop reports, and whether
     the copy gives a dataset when it is not aborted *)
  copyProgress : list Q;
  copyResult : bool;
  (* CPLGetLastErrorMsg(), after the calls made so far *)
  lastErrorMsg : list Call -> string
}.

Definition CPLGetLastErrorMsg (e : Env) (r : Run) : string :=
  lastErrorMsg e (calls r).

(** [isConverting.load()] *)
Definition flagAt (e : Env) (n : nat) : bool :=
  match interruptedAt e with
  | None => true
  | Some c => Nat.ltb n c
  end.

Definition load (e : Env) (r : Run) : bool * Run :=
  (flagAt e (loads r), mkRun (emitted r) (calls r) (S (loads r))).

Definition number (z : Z) : string :=
  NilZero.string_of_int (Z.to_int z).

Definition newline : string := String (Ascii.ascii_of_nat 10) EmptyString.

Definition cancelledMsg : string := "Conversion cancelled by user.".

(** ** [Worker::processData] (lines 249-379) *)

Definition blockSizeX : Z := 256.
Definition blockSizeY : Z := 256.

(** Band indices 1 .. nBands, the range of both band loops. *)
Definition bandIndices (nBands : Z) : list Z :=
  map Z.of_nat (seq 1 (Z.to_nat nBands)).

(** [static_cast<float>(blocksCompleted.load()) / totalBlocks] *)
Definition progressOf (blocksCompleted totalBlocks : Z) : Float :=
  if totalBlocks =? 0 then
    if blocksCompleted =? 0 then NaN else Infinite (blocksCompleted <? 0)
  else Finite (inject_Z blocksCompleted / inject_Z totalBlocks).

(** What a piece of the body of [processData] does with the control flow:
    it goes on with the block counter it has reached, or it leaves the
    function with [return b]. *)
Inductive Flow : Type :=
| Next (blocksCompleted : Z)
| Return (b : bool).

(** The read loop of lines 283-301. *)
Fixpoint readBands (e : Env) (t : Tile) (bs : list Z) (r : Run) : bool * Run :=
  match bs with
  | [] => (true, r)
  | bandIndex :: rest =>
      let r1 := call (RasterRead bandIndex t) r in
      if readOk e bandIndex t then readBands e t rest r1
      else
        let errorMsg := "Failed to read data from input dataset." ++ newline
                        ++ "GDAL Error: " ++ CPLGetLastErrorMsg e r1 in
        (false, emit (finished false errorMsg) r1)
  end.

(** The write loop of lines 346-359. *)
Fixpoint writeBands (e : Env) (t : Tile) (bs : list Z) (r : Run) : bool * Run :=
  match bs with
  | [] => (true, r)
  | bandIndex :: rest =>
      let r1 := call (RasterWrite bandIndex t) r in
      if writeOk e bandIndex t then writeBands e t rest r1
      else
        let errorMsg := "Failed to write data to output dataset." ++ newline
                        ++ "GDAL Error: " ++ CPLGetLastErrorMsg e r1 in
        (false, emit (finished false errorMsg) r1)
  end.

(** The body of the inner loop, lines 277-364, for the block at (x, y).
    The [BlockProcessor] task started on the pool only loads the flag and
    returns; it touches neither the buffers nor the signals, and the
    worker waits for it on both branches, so it leaves no trace here. *)
Definition processBlock (e : Env) (nXSize nBands totalBlocks : Z)
    (y nYBlockSize x blocksCompleted : Z) (r : Run) : Flow * Run :=
  let nXBlockSize := Z.min blockSizeX (Int32.sub nXSize x) in
  let t := mkTile x y nXBlockSize nYBlockSize in
  match readBands e t (bandIndices nBands) r with
  | (false, r1) => (Return false, r1)
  | (true, r1) =>
      let (converting, r2) := load e r1 in
      if negb converting then
        (Return false, emit (finished false cancelledMsg) r2)
      else
        match writeBands e t (bandIndices nBands) r2 with
        | (false, r3) => (Return false, r3)
        | (true, r3) =>
            let blocksCompleted' := Int32.add blocksCompleted 1 in
            (Next blocksCompleted',
             emit (progressUpdated (progressOf blocksCompleted' totalBlocks)) r3)
        end
  end.

(** The inner loop, line 275:
    [for (x; x < nXSize && isConverting.load(); x += blockSizeX)].
    The flag is loaded only when [x < nXSize] holds. *)
Fixpoint columnLoop (fuel : nat) (e : Env) (nXSize nBands totalBlocks : Z)
    (y nYBlockSize x blocksCompleted : Z) (r : Run) : option (Flow * Run) :=
  match fuel with
  | O => None
  | S fuel' =>
      if x <? nXSize then
        let (converting, r1) := load e r in
        if converting then
          match processBlock e nXSize nBands totalBlocks
                  y nYBlockSize x blocksCompleted r1 with
          | (Return b, r2) => Some (Return b, r2)
          | (Next blocksCompleted', r2) =>
              columnLoop fuel' e nXSize nBands totalBlocks y nYBlockSize
                (Int32.add x blockSizeX) blocksCompleted' r2
          end
        else Some (Next blocksCompleted, r1)
      else Some (Next blocksCompleted, r)
  end.

(** The outer loop, line 272. *)
Fixpoint rowLoop (fuel fuelX : nat) (e : Env) (nXSize nYSize nBands totalBlocks : Z)
    (y blocksCompleted : Z) (r : Run) : option (Flow * Run) :=
  match fuel with
  | O => None
  | S fuel' =>
      if y <? nYSize then
        let (converting, r1) := load e r in
        if converting then
          let nYBlockSize := Z.min blockSizeY (Int32.sub nYSize y) in
          match columnLoop fuelX e nXSize nBands totalBlocks
                  y nYBlockSize 0 blocksCompleted r1 with
          | None => None
          | Some (Return b, r2) => Some (Return b, r2)
          | Some (Next blocksCompleted', r2) =>
              rowLoop fuel' fuelX e nXSize nYSize nBands totalBlocks
                (Int32.add y blockSizeY) blocksCompleted' r2
          end
        else Some (Next blocksCompleted, r1)
      else Some (Next blocksCompleted, r)
  end.

Definition blocksAlong (size blockSize : Z) : Z :=
  Int32.div (Int32.sub (Int32.add size blockSize) 1) blockSize.

(** [processData]; [None] when the loops have not ended within [fuel]
    iterations each. *)
Definition processData (fuel : nat) (e : Env) (poDataset : Dataset) (r : Run)
    : option (bool * Run) :=
  let nXSize := RasterXSize poDataset in
  let nYSize := RasterYSize poDataset in
  let nBands := RasterCount poDataset in
  let nXBlocks := blocksAlong nXSize blockSizeX in
  let nYBlocks := blocksAlong nYSize blockSizeY in
  let totalBlocks := Int32.mul nXBlocks nYBlocks in
  let r0 := emit (logMessage ("Starting block processing using "
                              ++ number (numCores e) ++ " core(s)...")) r in
  match rowLoop fuel fuel e nXSize nYSize nBands totalBlocks 0 0 r0 with
  | None => None
  | Some (Return b, r1) => Some (b, r1)
  | Some (Next _, r1) =>
      let (converting, r2) := load e r1 in
      if negb converting then
        Some (false, emit (finished false cancelledMsg) r2)
      else
        Some (true, emit (progressUpdated (Finite 1)) r2)
  end.

(** [progressCallback], lines 381-393: forwards the fraction while the flag
    is set, and tells the driver to stop otherwise. *)
Definition progressCallback (e : Env) (dfComplete : Q) (r : Run) : bool * Run :=
  let (converting, r1) := load e r in
  if converting then (true, emit (progressUpdated (Finite dfComplete)) r1)
  else (false, r1).

(** The copy loop of the driver behind [CreateCopy]: it reports the
    fractions of [copyProgress] in turn through the callback and gives up,
    returning no dataset, as soon as the callback answers FALSE (the
    contract of GDALProgressFunc). *)
Fixpoint driverCopy (e : Env) (reports : list Q) (r : Run) : bool * Run :=
  match reports with
  | [] => (copyResult e, r)
  | dfComplete :: rest =>
      match progressCallback e dfComplete r with
      | (true, r1) => driverCopy e rest r1
      | (false, r1) => (false, r1)
      end
  end.

(** [processWithCreateCopyMethod], lines 223-247. *)
Definition processWithCreateCopyMethod (e : Env) (r : Run) : bool * Run :=
  let r0 := emit (logMessage "Using CreateCopy method.") r in
  let r1 := call (CreateCopy (outputFile e)) r0 in
  match driverCopy e (copyProgress e) r1 with
  | (false, r2) =>
      let errorMsg := "Failed to create output dataset using CreateCopy: "
                      ++ outputFile e ++ newline
                      ++ "GDAL Error: " ++ CPLGetLastErrorMsg e r2 in
      (false, emit (finished false errorMsg) r2)
  | (true, r2) => (true, call (GDALClose OutputDataset) r2)
  end.

(** [processWithCreateMethod], lines 166-221. *)
Definition processWithCreateMethod (fuel : nat) (e : Env) (poDataset : Dataset)
    (r : Run) : option (bool * Run) :=
  let r0 := emit (logMessage "Using Create method.") r in
  let nBands := RasterCount poDataset in
  if nBands =? 0 then
    Some (false, emit (finished false "Input dataset has no raster bands.") r0)
  else
    let nXSize := RasterXSize poDataset in
    let nYSize := RasterYSize poDataset in
    let r1 := call (Create (outputFile e) nXSize nYSize nBands) r0 in
    if negb (createResult e) then
      let errorMsg := "Failed to create output dataset: " ++ outputFile e
                      ++ newline ++ "GDAL Error: " ++ CPLGetLastErrorMsg e r1 in
      Some (false, emit (finished false errorMsg) r1)
    else
      let r2 := if hasProjection poDataset then call SetProjection r1 else r1 in
      let r3 := if hasGeoTransform poDataset then call SetGeoTransform r2 else r2 in
      match processData fuel e poDataset r3 with
      | None => None
      | Some (ok, r4) => Some (ok, call (GDALClose OutputDataset) r4)
      end.

(** The option loop of lines 85-89: one log line per creation option. *)
Fixpoint setOptions (opts : list (string * string)) (r : Run) : Run :=
  match opts with
  | [] => r
  | (key, value) :: rest =>
      setOptions rest
        (emit (logMessage ("Setting GDAL option: " ++ key ++ " = " ++ value)) r)
  end.

(** The run up to the point where [process] looks at the processing mode
    (lines 69-92), for a source that opened and a driver that was found. *)
Definition prepared (e : Env) : Run :=
  let r0 := emit (logMessage "Starting GDAL conversion...") start in
  let r1 := call (GDALOpenEx (inputFile e)) r0 in
  let r2 := emit (logMessage "Input file opened successfully.") r1 in
  let r3 := call (GetDriverByName (outputDriverName e)) r2 in
  let r4 := emit (logMessage ("Output driver found: " ++ outputDriverName e)) r3 in
  setOptions (gdalOptions e) r4.

(** What [process] does with the answer of either method (lines 101-106 and
    111-116, then 127-131): a method that failed has emitted [finished]
    itself and the slot only closes the source; otherwise the slot closes
    the source and reports success. *)
Definition conclude (e : Env) (res : bool * Run) : Run :=
  let (ok, r) := res in
  let r1 := call (GDALClose SourceDataset) r in
  if ok then
    let r2 := emit (logMessage "Conversion process completed successfully.") r1 in
    emit (finished true ("Conversion completed successfully: " ++ outputFile e)) r2
  else r1.

(** [Worker::process], lines 54-153.  The result is the run at the return
    of the slot. *)
Definition process (fuel : nat) (e : Env) : option Run :=
  let r0 := emit (logMessage "Starting GDAL conversion...") start in
  let r1 := call (GDALOpenEx (inputFile e)) r0 in
  match openResult e with
  | None =>
      let errorMsg := "Failed to open input file: " ++ inputFile e ++ newline
                      ++ "GDAL Error: " ++ CPLGetLastErrorMsg e r1 in
      Some (emit (finished false errorMsg) r1)
  | Some poDataset =>
      let r2 := emit (logMessage "Input file opened successfully.") r1 in
      let r3 := call (GetDriverByName (outputDriverName e)) r2 in
      match driverResult e with
      | None =>
          let errorMsg := "Output driver not available: " ++ outputDriverName e in
          Some (emit (finished false errorMsg) (call (GDALClose SourceDataset) r3))
      | Some poOutDriver =>
          let r4 := emit (logMessage ("Output driver found: " ++ outputDriverName e)) r3 in
          let r5 := setOptions (gdalOptions e) r4 in
          let bCreateSupported := DCAP_CREATE poOutDriver in
          match processingMode e with
          | CPU =>
              let r6 := emit (logMessage "Processing mode: CPU") r5 in
              if bCreateSupported then
                option_map (conclude e) (processWithCreateMethod fuel e poDataset r6)
              else if DCAP_CREATECOPY poOutDriver then
                Some (conclude e (processWithCreateCopyMethod e r6))
              else
                let errorMsg := "Output driver does not support Create or CreateCopy methods." in
                Some (emit (finished false errorMsg) (call (GDALClose SourceDataset) r6))
          | GPU =>
              let r6 := emit (logMessage "Processing mode: GPU") r5 in
              let r7 := call (GDALClose SourceDataset) r6 in
              let r8 := emit (logMessage "GPU processing is not yet implemented.") r7 in
              Some (emit (finished false "GPU processing is not yet implemented.") r8)
          | OtherMode =>
              Some (emit (finished false "Unknown processing mode selected.")
                      (call (GDALClose SourceDataset) r5))
          end
      end
  end.

(** ** [float] arithmetic

    [elapsed / progress] in [MainWindow::updateProgress] divides a [qint64]
    by a [float]: the integer is converted to [float] and the division is
    done in binary32, both rounded to nearest, ties to even. *)

Module Binary32.

(** num / den rounded to the nearest integer, ties to the even one, for
    den > 0. *)
Definition roundHalfEven (num den : Z) : Z :=
  let q := num / den in
  let r := num mod den in
  if 2 * r <? den then q
  else if den <? 2 * r then q + 1
  else if Z.even q then q else q + 1.

(** floor (log2 (a / b)), for a, b > 0. *)
Definition floorLog2 (a b : Z) : Z :=
  let k := Z.log2 a - Z.log2 b in
  if (if 0 <=? k then b * 2 ^ k <=? a else b <=? a * 2 ^ (- k)) then k else k - 1.

(** The binary32 value nearest to a / b, for a, b > 0: a significand of 24
    bits at the exponent of a / b, or at the smallest exponent, -149, for
    subnormal values; [None] when the rounded value is beyond the largest
    finite [float]. *)
Definition roundPositive (a b : Z) : option Q :=
  let e := Z.max (floorLog2 a b - 23) (-149) in
  if 0 <=? e then
    let m := roundHalfEven a (b * 2 ^ e) in
    if 2 ^ 128 <=? m * 2 ^ e then None else Some (inject_Z (m * 2 ^ e))
  else
    let m := roundHalfEven (a * 2 ^ (- e)) b in
    Some (Qmake m (Z.to_pos (2 ^ (- e)))).

(** The [float] nearest to the rational [x]. *)
Definition round (x : Q) : Float :=
  match Qnum x with
  | Z0 => Finite 0
  | Zpos a =>
      match roundPositive (Zpos a) (Zpos (Qden x)) with
      | Some v => Finite v
      | None => Infinite false
      end
  | Zneg a =>
      match roundPositive (Zpos a) (Zpos (Qden x)) with
      | Some v => Finite (- v)
      | None => Infinite true
      end
  end.

(** [static_cast<float>] of an integer. *)
Definition ofInt (n : Z) : Float := round (inject_Z n).

Definition isNegative (q : Q) : bool := Qnum q <? 0.

(** Division of two [float]s. *)
Definition div (x y : Float) : Float :=
  match x, y with
  | NaN, _ | _, NaN => NaN
  | Infinite _, Infinite _ => NaN
  | Infinite s, Finite b => Infinite (xorb s (isNegative b))
  | Finite _, Infinite _ => Finite 0
  | Finite a, Finite b =>
      if Qeq_bool b 0 then
        if Qeq_bool a 0 then NaN else Infinite (isNegative a)
      else round (a / b)
  end.

(** [x > 0.0f && x <= 1.0f]: false for NaN and for the infinities. *)
Definition inUnitRange (x : Float) : bool :=
  match x with
  | Finite q => negb (Qle_bool q 0) && Qle_bool q 1
  | _ => false
  end.

(** [static_cast<qint64>] of a [float]: the value truncated towards zero;
    the conversion has no defined result when that is not a [qint64]. *)
Definition toInt64 (x : Float) : option Z :=
  match x with
  | Finite q =>
      let t := if Qle_bool 0 q then Qfloor q else Qceiling q in
      if (- 2 ^ 63 <=? t) && (t <? 2 ^ 63) then Some t else None
  | _ => None
  end.

End Binary32.

(** ** [MainWindow::updateProgress], the ETA of lines 717-738 *)

Definition wrap64 (z : Z) : Z :=
  (z + 2 ^ 63) mod 2 ^ 64 - 2 ^ 63.

(** [estimatedRemaining] of line 722, for the elapsed milliseconds read
    from the timer; [None] when the cast of line 721 has no defined
    result. *)
Definition estimatedRemaining (progress : Float) (elapsed : Z) : option Z :=
  match Binary32.toInt64 (Binary32.div (Binary32.ofInt elapsed) progress) with
  | Some estimatedTotal => Some (wrap64 (estimatedTotal - elapsed))
  | None => None
  end.

(** [.arg(n, 2, 10, QChar('0'))]: decimal, padded to two characters. *)
Definition twoDigits (n : Z) : string :=
  let s := number n in
  if (String.length s <? 2)%nat then "0" ++ s else s.

Definition calculating : string := "ETA: Calculating...".

(** The label text for an estimate in milliseconds, lines 724-731. *)
Definition formatEta (estimatedRemaining : Z) : string :=
  let hours := Int32.wrap (Z.quot estimatedRemaining 3600000) in
  let minutes := Int32.wrap (Z.quot (Z.rem estimatedRemaining 3600000) 60000) in
  let seconds := Int32.wrap (Z.quot (Z.rem estimatedRemaining 60000) 1000) in
  "ETA: " ++ twoDigits hours ++ ":" ++ twoDigits minutes ++ ":" ++ twoDigits seconds.

(** The text of the ETA label after an update. *)
Definition etaText (progress : Float) (elapsed : Z) : option string :=
  if Binary32.inUnitRange progress then
    match estimatedRemaining progress elapsed with
    | Some remaining => Some (formatEta remaining)
    | None => None
    end
  else Some calculating.

(** The part of the window the ETA depends on: the clock value at which
    the timer was restarted, and the text of the label. *)
Record Window : Type := mkWindow { timerStart : Z; etaLabel : string }.

(** [updateProgress] at clock value [now]: [timer->elapsed()] is read and
    the label is set from it (the progress bar is left out). *)
Definition updateProgress (w : Window) (now : Z) (progress : Float) : option Window :=
  let elapsed := now - timerStart w in
  match etaText progress elapsed with
  | Some text => Some (mkWindow (timerStart w) text)
  | None => None
  end.

(** ** The progress bar, line 715 of [MainWindow::updateProgress] *)

(** The product of two [float]s. *)
Definition floatMul (x y : Float) : Float :=
  match x, y with
  | NaN, _ | _, NaN => NaN
  | Infinite s, Infinite t => Infinite (xorb s t)
  | Infinite s, Finite b =>
      if Qeq_bool b 0 then NaN else Infinite (xorb s (Binary32.isNegative b))
  | Finite a, Infinite t =>
      if Qeq_bool a 0 then NaN else Infinite (xorb (Binary32.isNegative a) t)
  | Finite a, Finite b => Binary32.round (a * b)
  end.

(** [static_cast<int>] of a [float]: the value truncated towards zero; the
    conversion has no defined result when that is not an [int]. *)
Definition toInt (x : Float) : option Z :=
  match x with
  | Finite q =>
      let t := if Qle_bool 0 q then Qfloor q else Qceiling q in
      if (Int32.INT_MIN <=? t) && (t <=? Int32.INT_MAX) then Some t else None
  | _ => None
  end.

(** [QProgressBar::setValue] on the bar of range 0..100 (line 507): a value
    outside the range leaves the bar as it is. *)
Definition setValue (value current : Z) : Z :=
  if (0 <=? value) && (value <=? 100) then value else current.

(** The value of the bar after [updateProgress(progress)], when it showed
    [current] before. *)
Definition progressBarAfter (progress : Float) (current : Z) : option Z :=
  match toInt (floatMul progress (Binary32.ofInt 100)) with
  | Some value => Some (setValue value current)
  | None => None
  end.

(** ** The main window: [startConversion], [cancelConversion],
       [conversionFinished] (lines 588-711 and 741-786) *)

(** [QMap<QString, QString>]: the entries in ascending order of their
    keys, one entry per key.  Keys are compared character by character, by
    character code. *)
Module QMap.

Definition t : Type := list (string * string).

(** [insert]: a new entry, or a new value for the key when the map has
    it. *)
Fixpoint insert (key value : string) (m : t) : t :=
  match m with
  | [] => [(key, value)]
  | (k, v) :: rest =>
      match String.compare key k with
      | Lt => (key, value) :: m
      | Eq => (key, value) :: rest
      | Gt => (k, v) :: insert key value rest
      end
  end.

Fixpoint find (key : string) (m : t) : option string :=
  match m with
  | [] => None
  | (k, v) :: rest => if String.eqb key k then Some v else find key rest
  end.

End QMap.

(** The children of the options group, as [startConversion] tells them
    apart with [qobject_cast]. *)
Inductive OptionWidget : Type :=
| QLineEdit (text : string)
| QCheckBox (isChecked : bool)
| QComboBox (currentText : string)
| QSpinBox (value : Z)
| QDoubleSpinBox (value : Q)
| OtherWidget.

(** A child widget with its property "optionKey" as a string, empty when
    the property is not set. *)
Record Child : Type := mkChild { optionKey : string; widget : OptionWidget }.

(** The arguments of the constructor of [Worker]. *)
Record Job : Type := mkJob {
  inputPath : string;
  outputPath : string;
  inputDriverName : string;
  jobDriverName : string;
  options : QMap.t;
  mode : ProcessingMode;
  cores : Z
}.

Inductive Dialog : Type :=
| warning (title text : string)
| information (title text : string)
| critical (title text : string).

(** Which controls are enabled. *)
Record Controls : Type := mkControls {
  startButton : bool;
  cancelButton : bool;
  inputLineEditEnabled : bool;
  outputLineEditEnabled : bool;
  inputDriverComboBox : bool;
  outputDriverComboBox : bool;
  otherButtons : list bool;       (* the push buttons besides Start and Cancel *)
  optionsGroup : bool;
  useOptionsCheckBoxEnabled : bool;
  cpuRadioButtonEnabled : bool;
  gpuRadioButtonEnabled : bool;
  cpuCoresSpinBoxEnabled : bool
}.

Record MainWindow : Type := mkMainWindow {
  (* what the user has entered *)
  inputLineEdit : string;
  outputLineEdit : string;
  inputDriverData : string;        (* inputDriverComboBox->currentData() *)
  outputDriverData : string;
  useOptionsCheckBox : bool;
  optionChildren : list Child;     (* optionsGroup->findChildren<QWidget*>() *)
  cpuRadioButton : bool;
  cpuCoresSpinBox : Z;
  (* the state of the controls and of the display *)
  controls : Controls;
  progressBar : Z;
  etaLabelText : string;
  logWindow : list string;
  dialogs : list Dialog;           (* message boxes shown, oldest first *)
  timerRestart : option Z;         (* clock value of the last timer->restart() *)
  (* the worker, and whether its interruption has been requested *)
  worker : option Job;
  interruptionRequested : bool
}.

Section StartConversion.

(** [QString::number] of a [double]. *)
Variable numberOfDouble : Q -> string.

(** The value that the loop of lines 616-648 reads from a child, as a
    string; a child of another class gives an invalid [QVariant], whose
    string is empty. *)
Definition optionValue (w : OptionWidget) : string :=
  match w with
  | QLineEdit text => text
  | QCheckBox isChecked => if isChecked then "YES" else "NO"
  | QComboBox currentText => currentText
  | QSpinBox value => number value
  | QDoubleSpinBox value => numberOfDouble value
  | OtherWidget => ""
  end.

(** The loop of lines 616-648. *)
Definition collectOptions (children : list Child) : QMap.t :=
  fold_left
    (fun options child =>
       let key := optionKey child in
       if String.eqb key "" then options
       else
         let value := optionValue (widget child) in
         if String.eqb value "" then options
         else QMap.insert key value options)
    children [].

Definition setOthers (b : bool) (c : Controls) : list bool :=
  map (fun _ => b) (otherButtons c).

(** [startConversion], when the clock shows [now] and the input file
    exists or not. *)
Definition startConversion (inputExists : bool) (now : Z) (w : MainWindow)
    : MainWindow :=
  let showWarning d :=
    mkMainWindow (inputLineEdit w) (outputLineEdit w) (inputDriverData w)
      (outputDriverData w) (useOptionsCheckBox w) (optionChildren w)
      (cpuRadioButton w) (cpuCoresSpinBox w) (controls w) (progressBar w)
      (etaLabelText w) (logWindow w) (dialogs w ++ [d]) (timerRestart w)
      (worker w) (interruptionRequested w) in
  if String.eqb (inputLineEdit w) "" || String.eqb (outputLineEdit w) "" then
    showWarning (warning "Input Required"
                   "Please specify both input and output file paths.")
  else if negb inputExists then
    showWarning (warning "Invalid Input File" "Please select a valid input file.")
  else
    let options :=
      if useOptionsCheckBox w then collectOptions (optionChildren w) else [] in
    let mode := if cpuRadioButton w then CPU else GPU in
    let numCores := cpuCoresSpinBox w in
    let disabled :=
      mkControls false true false false false false
        (setOthers false (controls w)) false false false false false in
    mkMainWindow (inputLineEdit w) (outputLineEdit w) (inputDriverData w)
      (outputDriverData w) (useOptionsCheckBox w) (optionChildren w)
      (cpuRadioButton w) (cpuCoresSpinBox w) disabled 0
      "ETA: Calculating..." [] (dialogs w) (Some now)
      (Some (mkJob (inputLineEdit w) (outputLineEdit w) (inputDriverData w)
               (outputDriverData w) options mode numCores))
      false.

End StartConversion.

(** [appendLog] *)
Definition appendLog (message : string) (w : MainWindow) : MainWindow :=
  mkMainWindow (inputLineEdit w) (outputLineEdit w) (inputDriverData w)
    (outputDriverData w) (useOptionsCheckBox w) (optionChildren w)
    (cpuRadioButton w) (cpuCoresSpinBox w) (controls w) (progressBar w)
    (etaLabelText w) (logWindow w ++ [message]) (dialogs w) (timerRestart w)
    (worker w) (interruptionRequested w).

(** [cancelConversion] *)
Definition cancelConversion (w : MainWindow) : MainWindow :=
  let w1 :=
    match worker w with
    | Some _ =>
        appendLog "Cancellation requested..."
          (mkMainWindow (inputLineEdit w) (outputLineEdit w) (inputDriverData w)
             (outputDriverData w) (useOptionsCheckBox w) (optionChildren w)
             (cpuRadioButton w) (cpuCoresSpinBox w) (controls w) (progressBar w)
             (etaLabelText w) (logWindow w) (dialogs w) (timerRestart w)
             (worker w) true)
    | None => w
    end in
  let c := controls w1 in
  mkMainWindow (inputLineEdit w1) (outputLineEdit w1) (inputDriverData w1)
    (outputDriverData w1) (useOptionsCheckBox w1) (optionChildren w1)
    (cpuRadioButton w1) (cpuCoresSpinBox w1)
    (mkControls (startButton c) false (inputLineEditEnabled c)
       (outputLineEditEnabled c) (inputDriverComboBox c) (outputDriverComboBox c)
       (otherButtons c) (optionsGroup c) (useOptionsCheckBoxEnabled c)
       (cpuRadioButtonEnabled c) (gpuRadioButtonEnabled c)
       (cpuCoresSpinBoxEnabled c))
    (progressBar w1) (etaLabelText w1) (logWindow w1) (dialogs w1)
    (timerRestart w1) (worker w1) (interruptionRequested w1).

(** [conversionFinished] *)
Definition conversionFinished (success : bool) (message : string)
    (w : MainWindow) : MainWindow :=
  let enabled :=
    mkControls true false true true true true (setOthers true (controls w))
      (useOptionsCheckBox w) true true true (cpuRadioButton w) in
  let d := if success then information "Success" message
           else critical "Conversion Failed" message in
  mkMainWindow (inputLineEdit w) (outputLineEdit w) (inputDriverData w)
    (outputDriverData w) (useOptionsCheckBox w) (optionChildren w)
    (cpuRadioButton w) (cpuCoresSpinBox w) enabled (progressBar w)
    "ETA: N/A" (logWindow w ++ [message]) (dialogs w ++ [d]) (timerRestart w)
    None (interruptionRequested w).

(** The worker that [startConversion] starts, in a world that decides what
    GDAL answers and when the flag is seen cleared. *)
Definition workerEnv (j : Job) (world : Env) : Env :=
  mkEnv (inputPath j) (outputPath j) (jobDriverName j) (options j) (mode j) (cores j)
        (interruptedAt world) (openResult world) (driverResult world)
        (createResult world) (readOk world) (writeOk world)
        (copyProgress world) (copyResult world) (lastErrorMsg world).

(** The window as the constructor leaves it (lines 411-551): [inputDriver]
    and [outputDriver] are the first entries of the two driver lists and
    [maxCores] is [QThread::idealThreadCount()]. *)
Definition initialWindow (inputDriver outputDriver : string) (maxCores : Z)
    : MainWindow :=
  mkMainWindow "" "" inputDriver outputDriver false [] true maxCores
    (mkControls true false true true true true [true; true] false true true true true)
    0 "ETA: N/A" [] [] None None false.

(** What happens to the window: clicks on Start and Cancel, the [finished]
    signal of the worker, the two [toggled] connections of lines 535 and
    547-549, and edits of the fields. *)
Inductive Event : Type :=
| clickStart (inputExists : bool) (now : Z)
| clickCancel
| workerFinished (success : bool) (message : string)
| toggleUseOptions (checked : bool)
| toggleCpu (checked : bool)
| editFields (input output inputDriver outputDriver : string)
    (children : list Child) (numCores : Z).

Definition setUseOptions (checked : bool) (w : MainWindow) : MainWindow :=
  let c := controls w in
  mkMainWindow (inputLineEdit w) (outputLineEdit w) (inputDriverData w)
    (outputDriverData w) checked (optionChildren w)
    (cpuRadioButton w) (cpuCoresSpinBox w)
    (mkControls (startButton c) (cancelButton c) (inputLineEditEnabled c)
       (outputLineEditEnabled c) (inputDriverComboBox c) (outputDriverComboBox c)
       (otherButtons c) checked (useOptionsCheckBoxEnabled c)
       (cpuRadioButtonEnabled c) (gpuRadioButtonEnabled c)
       (cpuCoresSpinBoxEnabled c))
    (progressBar w) (etaLabelText w) (logWindow w) (dialogs w)
    (timerRestart w) (worker w) (interruptionRequested w).

Definition setCpu (checked : bool) (w : MainWindow) : MainWindow :=
  let c := controls w in
  mkMainWindow (inputLineEdit w) (outputLineEdit w) (inputDriverData w)
    (outputDriverData w) (useOptionsCheckBox w) (optionChildren w)
    checked (cpuCoresSpinBox w)
    (mkControls (startButton c) (cancelButton c) (inputLineEditEnabled c)
       (outputLineEditEnabled c) (inputDriverComboBox c) (outputDriverComboBox c)
       (otherButtons c) (optionsGroup c) (useOptionsCheckBoxEnabled c)
       (cpuRadioButtonEnabled c) (gpuRadioButtonEnabled c) checked)
    (progressBar w) (etaLabelText w) (logWindow w) (dialogs w)
    (timerRestart w) (worker w) (interruptionRequested w).

Definition setFields (input output inputDriver outputDriver : string)
    (children : list Child) (numCores : Z) (w : MainWindow) : MainWindow :=
  mkMainWindow input output inputDriver outputDriver (useOptionsCheckBox w) children
    (cpuRadioButton w) numCores (controls w)
    (progressBar w) (etaLabelText w) (logWindow w) (dialogs w)
    (timerRestart w) (worker w) (interruptionRequested w).

Section Events.

Variable numberOfDouble : Q -> string.

(** One event; [None] when it cannot happen: a disabled control gives no
    signal, and only a worker that exists emits [finished]. *)
Definition step (ev : Event) (w : MainWindow) : option MainWindow :=
  let c := controls w in
  match ev with
  | clickStart inputExists now =>
      if startButton c then Some (startConversion numberOfDouble inputExists now w)
      else None
  | clickCancel => if cancelButton c then Some (cancelConversion w) else None
  | workerFinished success message =>
      match worker w with
      | Some _ => Some (conversionFinished success message w)
      | None => None
      end
  | toggleUseOptions checked =>
      if useOptionsCheckBoxEnabled c then Some (setUseOptions checked w) else None
  | toggleCpu checked =>
      if cpuRadioButtonEnabled c && gpuRadioButtonEnabled c
      then Some (setCpu checked w) else None
  | editFields input output inputDriver outputDriver children numCores =>
      if inputLineEditEnabled c && outputLineEditEnabled c
         && inputDriverComboBox c && outputDriverComboBox c
      then Some (setFields input output inputDriver outputDriver children numCores w)
      else None
  end.

Fixpoint happen (evs : list Event) (w : MainWindow) : option MainWindow :=
  match evs with
  | [] => Some w
  | ev :: rest =>
      match step ev w with
      | Some w1 => happen rest w1
      | None => None
      end
  end.

End Events.

(** ** The driver lists: [initializeGDAL] and [buildFileFilter]
       (lines 788-876) *)

(** What the window reads from a driver of the GDAL driver manager. *)
Record DriverEntry : Type := mkDriverEntry {
  Description : string;          (* GetDescription(), the short name *)
  LONGNAME : option string;      (* GetMetadataItem(GDAL_DMD_LONGNAME) *)
  DCAP_RASTER : bool;            (* GetMetadataItem(GDAL_DCAP_RASTER) != nullptr *)
  capabilities : Driver;         (* GDAL_DCAP_CREATE and GDAL_DCAP_CREATECOPY *)
  EXTENSIONS : option string     (* GetMetadataItem(GDAL_DMD_EXTENSIONS) *)
}.

(** The driver manager: [GetDriver(i)] for i = 0 .. GetDriverCount() - 1,
    which may be null. *)
Definition DriverManager : Type := list (option DriverEntry).

(** A [QString] made from a C string: a null pointer gives an empty
    string. *)
Definition fromCString (s : option string) : string :=
  match s with Some text => text | None => "" end.

(** [QString::split(' ', Qt::SkipEmptyParts)]; [piece] is the part read
    since the last space. *)
Fixpoint splitFrom (piece : string) (s : string) : list string :=
  match s with
  | EmptyString => if String.eqb piece "" then [] else [piece]
  | String c rest =>
      if Ascii.eqb c " "%char then
        if String.eqb piece "" then splitFrom "" rest
        else piece :: splitFrom "" rest
      else splitFrom (piece ++ String c "") rest
  end.

Definition split (s : string) : list string := splitFrom "" s.

(** [QStringList::join] *)
Fixpoint join (separator : string) (l : list string) : string :=
  match l with
  | [] => ""
  | [x] => x
  | x :: rest => x ++ separator ++ join separator rest
  end.

(** Whether a driver can make a dataset, lines 816-817 and 851-852. *)
Definition canWrite (d : DriverEntry) : bool :=
  DCAP_CREATE (capabilities d) || DCAP_CREATECOPY (capabilities d).

Section DriverLists.

(** [QString::arg] with one string argument. *)
Variable arg : string -> string -> string.

(** An entry of a combo box: the text shown and the data attached. *)
Definition driverItem (d : DriverEntry) : string * string :=
  (arg (arg "%1 (%2)" (fromCString (LONGNAME d))) (Description d), Description d).

(** The loop of lines 798-823: the items added to the input and to the
    output combo box. *)
Fixpoint comboItems (m : DriverManager) : list (string * string) * list (string * string) :=
  match m with
  | [] => ([], [])
  | driver :: rest =>
      let (inputs, outputs) := comboItems rest in
      match driver with
      | Some d =>
          if DCAP_RASTER d then
            (driverItem d :: inputs,
             if canWrite d then driverItem d :: outputs else outputs)
          else (inputs, outputs)
      | None => (inputs, outputs)
      end
  end.

(** The filter of one driver, lines 858-869. *)
Definition driverFilter (d : DriverEntry) : string :=
  match EXTENSIONS d with
  | Some extensions =>
      let extList := split extensions in
      let pattern := match extList with
                     | [] => "*"
                     | _ => "*." ++ join " *." extList
                     end in
      arg (arg "%1 (%2)" (fromCString (LONGNAME d))) pattern
  | None => arg "%1 (*)" (fromCString (LONGNAME d))
  end.

(** The list [filters] at the end of the loop of lines 838-872. *)
Fixpoint driverFilters (forInput : bool) (m : DriverManager) : list string :=
  match m with
  | [] => []
  | driver :: rest =>
      match driver with
      | Some d =>
          if DCAP_RASTER d then
            if negb forInput && negb (canWrite d) then driverFilters forInput rest
            else driverFilter d :: driverFilters forInput rest
          else driverFilters forInput rest
      | None => driverFilters forInput rest
      end
  end.

(** [buildFileFilter] *)
Definition buildFileFilter (forInput : bool) (m : DriverManager) : string :=
  join ";;" ("All Files (*)" :: driverFilters forInput m).

End DriverLists.

(** [EQUAL], the comparison of GDAL that ignores the case of the letters
    a-z. *)
Definition toupper (c : ascii) : ascii :=
  let n := nat_of_ascii c in
  if (97 <=? n)%nat && (n <=? 122)%nat then ascii_of_nat (n - 32) else c.

Fixpoint upper (s : string) : string :=
  match s with
  | EmptyString => EmptyString
  | String c rest => String (toupper c) (upper rest)
  end.

Definition EQUAL (a b : string) : bool := String.eqb (upper a) (upper b).

(** [GDALDriverManager::GetDriverByName]: the first driver registered
    under that name. *)
Fixpoint driverByName (m : DriverManager) (name : string) : option DriverEntry :=
  match m with
  | [] => None
  | Some d :: rest => if EQUAL (Description d) name then Some d else driverByName rest name
  | None :: rest => driverByName rest name
  end.

(** A job for trying the definitions: a 600 x 400 raster of three bands,
    a driver with both capabilities, nothing fails, nobody cancels. *)
Definition sampleDataset : Dataset := mkDataset 600 400 3 true true.

Definition sampleEnv : Env :=
  mkEnv "in.tif" "out.tif" "GTiff" [("COMPRESS", "LZW")] CPU 4
        None (Some sampleDataset) (Some (mkDriver true true)) true
        (fun _ _ => true) (fun _ _ => true)
        [(1 # 4)%Q; (1 # 2)%Q; 1%Q] true (fun _ => "no error").

(** The sample job, cancelled: the load number [c] of the flag and all
    later ones see it cleared. *)
Definition interruptedJob (c : nat) : Env :=
  mkEnv "in.tif" "out.tif" "GTiff" [("COMPRESS", "LZW")] CPU 4
        (Some c) (Some sampleDataset) (Some (mkDriver true true)) true
        (fun _ _ => true) (fun _ _ => true)
        [(1 # 4)%Q; (1 # 2)%Q; 1%Q] true (fun _ => "no error").




(** A job whose source cannot be opened. *)
Definition unreadableJob : Env :=
  mkEnv "missing.tif" "out.tif" "GTiff" [] CPU 4
        None None (Some (mkDriver true true)) true
        (fun _ _ => true) (fun _ _ => true) [] true
        (fun _ => "missing.tif: No such file or directory").

(** A job whose source opens and has no raster band. *)
Definition bandlessJob : Env :=
  mkEnv "empty.tif" "out.tif" "GTiff" [] CPU 4
        None (Some (mkDataset 600 400 0 false false)) (Some (mkDriver true true)) true
        (fun _ _ => true) (fun _ _ => true) [] true (fun _ => "no error").


(** A job in GPU mode. *)
Definition gpuJob : Env :=
  mkEnv "in.tif" "out.tif" "GTiff" [("COMPRESS", "LZW")] GPU 4
        None (Some sampleDataset) (Some (mkDriver true true)) true
        (fun _ _ => true) (fun _ _ => true) [] true (fun _ => "no error").


(** Children of the options group as [updateOptions] makes them for three
    options: labels without a key, a combo box, a line edit left empty
    and a spin box. *)
Definition sampleChildren : list Child :=
  [mkChild "" OtherWidget; mkChild "COMPRESS" (QComboBox "LZW");
   mkChild "" OtherWidget; mkChild "PROFILE" (QLineEdit "");
   mkChild "" OtherWidget; mkChild "BLOCKXSIZE" (QSpinBox 256)].

(** The window after the paths have been entered and "Use GDAL Options"
    has been checked. *)
Definition sampleWindow : MainWindow :=
  setUseOptions true
    (setFields "in.tif" "out.tif" "GTiff" "GTiff" sampleChildren 4
       (initialWindow "GTiff" "GTiff" 4)).

(** Drivers as GDAL registers them: one that creates, a vector driver, one
    that only copies, one that only reads, and an empty slot. *)
Definition sampleDrivers : DriverManager :=
  [Some (mkDriverEntry "GTiff" (Some "GeoTIFF") true (mkDriver true true)
           (Some "tif tiff"));
   Some (mkDriverEntry "ESRI Shapefile" (Some "ESRI Shapefile") false
           (mkDriver false false) (Some "shp dbf shx"));
   None;
   Some (mkDriverEntry "PNG" (Some "Portable Network Graphics") true
           (mkDriver false true) (Some "png"));
   Some (mkDriverEntry "WMS" (Some "OGC Web Map Service") true
           (mkDriver false false) None)].

(** ** Observations on a run *)

Definition isFinished (s : Signal) : bool :=
  match s with finished _ _ => true | _ => false end.

(** The number of [finished] signals in a list of signals. *)
Definition finishedCount (l : list Signal) : nat :=
  List.length (filter isFinished l).

(** The values carried by the [progressUpdated] signals, in order. *)
Fixpoint progressValues (l : list Signal) : list Float :=
  match l with
  | [] => []
  | progressUpdated p :: rest => p :: progressValues rest
  | _ :: rest => progressValues rest
  end.

(** The blocks written to the output: a block is in the output once its
    last band has been written (the write loop goes from band 1 to band
    [nBands], and stops at the first failure). *)
Fixpoint tilesWritten (nBands : Z) (cs : list Call) : list Tile :=
  match cs with
  | [] => []
  | RasterWrite band t :: rest =>
      if band =? nBands then t :: tilesWritten nBands rest
      else tilesWritten nBands rest
  | _ :: rest => tilesWritten nBands rest
  end.

(** The blocks the loop has visited: a block is visited when its first
    band is read. *)
Fixpoint tilesRead (cs : list Call) : list Tile :=
  match cs with
  | [] => []
  | RasterRead band t :: rest =>
      if band =? 1 then t :: tilesRead rest else tilesRead rest
  | _ :: rest => tilesRead rest
  end.

(** Calls that touch the destination path. *)
Definition touchesOutput (c : Call) : bool :=
  match c with
  | Create _ _ _ _ | CreateCopy _ | SetProjection | SetGeoTransform
  | RasterWrite _ _ | GDALClose OutputDataset => true
  | _ => false
  end.

Definition isDriverLookup (c : Call) : bool :=
  match c with GetDriverByName _ => true | _ => false end.

Definition lastSignal (r : Run) : option Signal := last (map Some (emitted r)) None.

(** * Properties *)

Local Open Scope list_scope.

(** ** Signals of a run: the shape of what each function emits *)

Definition quiet (l : list Signal) : Prop := filter isFinished l = [].

(** [r'] continues [r] without a [finished] signal. *)
Definition continuesQuietly (r r' : Run) : Prop :=
  exists l, emitted r' = emitted r ++ l /\ quiet l.

(** [r'] continues [r] and its last signal, and only that one, is a
    [finished] signal, with success flag [b]. *)
Definition endsWith (b : bool) (r r' : Run) : Prop :=
  exists l m, emitted r' = emitted r ++ l ++ [finished b m] /\ quiet l.

Definition endsFinished (r r' : Run) : Prop := exists b, endsWith b r r'.

Lemma quiet_nil : quiet [].
Proof. reflexivity. Qed.

Lemma quiet_app l1 l2 : quiet l1 -> quiet l2 -> quiet (l1 ++ l2).
Proof.
  unfold quiet. intros H1 H2. rewrite filter_app, H1, H2. reflexivity.
Qed.

Lemma quiet_log m : quiet [logMessage m].
Proof. reflexivity. Qed.

Lemma quiet_progress p : quiet [progressUpdated p].
Proof. reflexivity. Qed.

Create HintDb signals.

#[local] Hint Resolve quiet_nil quiet_app quiet_log quiet_progress : signals.

Lemma continuesQuietly_refl r : continuesQuietly r r.
Proof. exists []. rewrite app_nil_r. auto with signals. Qed.

Lemma continuesQuietly_trans r1 r2 r3 :
  continuesQuietly r1 r2 -> continuesQuietly r2 r3 -> continuesQuietly r1 r3.
Proof.
  intros [l1 [E1 Q1]] [l2 [E2 Q2]]. exists (l1 ++ l2).
  rewrite E2, E1, app_assoc. auto with signals.
Qed.

Lemma continuesQuietly_ends b r1 r2 r3 :
  continuesQuietly r1 r2 -> endsWith b r2 r3 -> endsWith b r1 r3.
Proof.
  intros [l1 [E1 Q1]] [l2 [m [E2 Q2]]]. exists (l1 ++ l2), m.
  rewrite E2, E1, <- !app_assoc. auto with signals.
Qed.

Lemma continuesQuietly_call c r : continuesQuietly r (call c r).
Proof. exists []. simpl. rewrite app_nil_r. auto with signals. Qed.

Lemma continuesQuietly_load e r : continuesQuietly r (snd (load e r)).
Proof. exists []. simpl. rewrite app_nil_r. auto with signals. Qed.

Lemma continuesQuietly_log m r : continuesQuietly r (emit (logMessage m) r).
Proof. exists [logMessage m]. simpl. auto with signals. Qed.

Lemma continuesQuietly_progress p r : continuesQuietly r (emit (progressUpdated p) r).
Proof. exists [progressUpdated p]. simpl. auto with signals. Qed.

Lemma endsFinished_emit b m r : endsWith b r (emit (finished b m) r).
Proof. exists [], m. simpl. auto with signals. Qed.

Lemma endsFinished_call b c r r' : endsWith b r r' -> endsWith b r (call c r').
Proof. intros [l [m [E Q]]]. exists l, m. simpl. auto. Qed.

#[local] Hint Resolve continuesQuietly_refl continuesQuietly_call
  continuesQuietly_log continuesQuietly_progress endsFinished_emit
  endsFinished_call : signals.

(** The outcome of a piece of code that answers with a boolean: it has
    emitted [finished] exactly when it answers false. *)
Definition answered (r : Run) (res : bool * Run) : Prop :=
  if fst res then continuesQuietly r (snd res) else endsWith false r (snd res).

Definition flowed (r : Run) (res : Flow * Run) : Prop :=
  match fst res with
  | Next _ => continuesQuietly r (snd res)
  | Return b => b = false /\ endsWith false r (snd res)
  end.

Lemma readBands_answered e t bs : forall r, answered r (readBands e t bs r).
Proof.
  induction bs as [|b bs IH]; intros r; simpl.
  - unfold answered; simpl. auto with signals.
  - destruct (readOk e b t).
    + specialize (IH (call (RasterRead b t) r)).
      unfold answered in *. destruct (fst _).
      * eapply continuesQuietly_trans; [apply continuesQuietly_call | exact IH].
      * eapply continuesQuietly_ends; [apply continuesQuietly_call | exact IH].
    + unfold answered; simpl.
      eapply continuesQuietly_ends; [apply continuesQuietly_call | auto with signals].
Qed.

Lemma writeBands_answered e t bs : forall r, answered r (writeBands e t bs r).
Proof.
  induction bs as [|b bs IH]; intros r; simpl.
  - unfold answered; simpl. auto with signals.
  - destruct (writeOk e b t).
    + specialize (IH (call (RasterWrite b t) r)).
      unfold answered in *. destruct (fst _).
      * eapply continuesQuietly_trans; [apply continuesQuietly_call | exact IH].
      * eapply continuesQuietly_ends; [apply continuesQuietly_call | exact IH].
    + unfold answered; simpl.
      eapply continuesQuietly_ends; [apply continuesQuietly_call | auto with signals].
Qed.

Lemma processBlock_flowed e nXSize nBands totalBlocks y nYBlockSize x c r :
  flowed r (processBlock e nXSize nBands totalBlocks y nYBlockSize x c r).
Proof.
  unfold processBlock.
  set (t := mkTile _ _ _ _).
  pose proof (readBands_answered e t (bandIndices nBands) r) as HR.
  destruct (readBands e t (bandIndices nBands) r) as [[|] r1];
    unfold answered in HR; simpl in HR; [|split; auto].
  pose proof (continuesQuietly_load e r1) as HL.
  destruct (load e r1) as [cv r2]; simpl in HL.
  destruct cv; simpl.
  - pose proof (writeBands_answered e t (bandIndices nBands) r2) as HW.
    destruct (writeBands e t (bandIndices nBands) r2) as [[|] r3];
      unfold answered in HW; simpl in HW; unfold flowed; simpl.
    + eapply continuesQuietly_trans; [exact HR|].
      eapply continuesQuietly_trans; [exact HL|].
      eapply continuesQuietly_trans; [exact HW|auto with signals].
    + split; auto.
      eapply continuesQuietly_ends; [exact HR|].
      eapply continuesQuietly_ends; [exact HL|exact HW].
  - unfold flowed; simpl. split; auto.
    eapply continuesQuietly_ends; [exact HR|].
    eapply continuesQuietly_ends; [exact HL|auto with signals].
Qed.

Lemma columnLoop_flowed e nXSize nBands totalBlocks y nYBlockSize :
  forall fuel x c r res,
    columnLoop fuel e nXSize nBands totalBlocks y nYBlockSize x c r = Some res ->
    flowed r res.
Proof.
  induction fuel as [|fuel IH]; intros x c r res H; cbn [columnLoop] in H; [discriminate|].
  destruct (x <? nXSize).
  - pose proof (continuesQuietly_load e r) as HL.
    destruct (load e r) as [cv r1]; simpl in HL. destruct cv.
    + pose proof (processBlock_flowed e nXSize nBands totalBlocks y nYBlockSize x c r1) as HB.
      destruct (processBlock e nXSize nBands totalBlocks y nYBlockSize x c r1)
        as [[c'|b] r2]; unfold flowed in HB; simpl in HB.
      * apply IH in H. unfold flowed in *. destruct (fst res).
        -- eapply continuesQuietly_trans; [exact HL|].
           eapply continuesQuietly_trans; [exact HB|exact H].
        -- destruct H as [Hb H]. split; auto.
           eapply continuesQuietly_ends; [exact HL|].
           eapply continuesQuietly_ends; [exact HB|exact H].
      * inversion H; subst; clear H. unfold flowed; simpl.
        destruct HB as [Hb HB]. split; auto.
        eapply continuesQuietly_ends; [exact HL|exact HB].
    + inversion H; subst. exact HL.
  - inversion H; subst. unfold flowed; simpl. auto with signals.
Qed.

Lemma rowLoop_flowed e nXSize nYSize nBands totalBlocks fuelX :
  forall fuel y c r res,
    rowLoop fuel fuelX e nXSize nYSize nBands totalBlocks y c r = Some res ->
    flowed r res.
Proof.
  induction fuel as [|fuel IH]; intros y c r res H; cbn [rowLoop] in H; [discriminate|].
  destruct (y <? nYSize).
  - pose proof (continuesQuietly_load e r) as HL.
    destruct (load e r) as [cv r1]; simpl in HL. destruct cv.
    + destruct (columnLoop _ _ _ _ _ _ _ _ _ _) as [[fl r2]|] eqn:HC; [|discriminate].
      apply columnLoop_flowed in HC. unfold flowed in HC; simpl in HC.
      destruct fl as [c'|b].
      * apply IH in H. unfold flowed in *. destruct (fst res).
        -- eapply continuesQuietly_trans; [exact HL|].
           eapply continuesQuietly_trans; [exact HC|exact H].
        -- destruct H as [Hb H]. split; auto.
           eapply continuesQuietly_ends; [exact HL|].
           eapply continuesQuietly_ends; [exact HC|exact H].
      * inversion H; subst; clear H. unfold flowed; simpl.
        destruct HC as [Hb HC]. split; auto.
        eapply continuesQuietly_ends; [exact HL|exact HC].
    + inversion H; subst. exact HL.
  - inversion H; subst. unfold flowed; simpl. auto with signals.
Qed.

Lemma processData_answered fuel e ds r res :
  processData fuel e ds r = Some res -> answered r res.
Proof.
  unfold processData. intros H.
  destruct (rowLoop _ _ _ _ _ _ _ _ _ _) as [[fl r1]|] eqn:HR; [|discriminate].
  apply rowLoop_flowed in HR. unfold flowed in HR; simpl in HR.
  destruct fl as [c|b].
  - pose proof (continuesQuietly_load e r1) as HL.
    destruct (load e r1) as [cv r2]; simpl in HL.
    destruct cv; simpl in H; inversion H; subst; clear H; unfold answered; simpl.
    + eapply continuesQuietly_trans; [apply continuesQuietly_log|].
      eapply continuesQuietly_trans; [exact HR|].
      eapply continuesQuietly_trans; [exact HL|auto with signals].
    + eapply continuesQuietly_ends; [apply continuesQuietly_log|].
      eapply continuesQuietly_ends; [exact HR|].
      eapply continuesQuietly_ends; [exact HL|auto with signals].
  - inversion H; subst; clear H. destruct HR as [Hb HR]. subst b.
    unfold answered; simpl.
    eapply continuesQuietly_ends; [apply continuesQuietly_log|exact HR].
Qed.

(** Chains the steps of a run backwards from its last signal or call. *)
Ltac chain :=
  lazymatch goal with
  | |- continuesQuietly ?r ?r => apply continuesQuietly_refl
  | H : continuesQuietly ?r ?x |- continuesQuietly ?r ?x => exact H
  | H : endsWith ?b ?r ?x |- endsWith ?b ?r ?x => exact H
  | H : continuesQuietly _ ?x |- continuesQuietly _ ?x =>
      eapply continuesQuietly_trans; [|exact H]; chain
  | H : endsWith ?b _ ?x |- endsWith ?b _ ?x =>
      eapply continuesQuietly_ends; [|exact H]; chain
  | |- continuesQuietly _ (emit (logMessage _) _) =>
      eapply continuesQuietly_trans; [|apply continuesQuietly_log]; chain
  | |- continuesQuietly _ (emit (progressUpdated _) _) =>
      eapply continuesQuietly_trans; [|apply continuesQuietly_progress]; chain
  | |- continuesQuietly _ (call _ _) =>
      eapply continuesQuietly_trans; [|apply continuesQuietly_call]; chain
  | |- endsWith _ _ (call _ _) => apply endsFinished_call; chain
  | |- endsWith _ _ (emit (finished _ _) _) =>
      eapply continuesQuietly_ends; [|apply endsFinished_emit]; chain
  end.

Lemma processWithCreateMethod_answered fuel e ds r res :
  processWithCreateMethod fuel e ds r = Some res -> answered r res.
Proof.
  unfold processWithCreateMethod. intros H.
  destruct (RasterCount ds =? 0).
  { inversion H; subst. unfold answered; simpl. chain. }
  destruct (createResult e); simpl in H.
  - set (r1 := call _ (emit _ r)) in H.
    set (r2 := if hasProjection ds then _ else r1) in H.
    set (r3 := if hasGeoTransform ds then _ else r2) in H.
    assert (H1 : continuesQuietly r r1) by (subst r1; chain).
    assert (H2 : continuesQuietly r r2)
      by (subst r2; destruct (hasProjection ds); chain).
    assert (H3 : continuesQuietly r r3)
      by (subst r3; destruct (hasGeoTransform ds); chain).
    clearbody r3. clear H1 H2.
    destruct (processData fuel e ds r3) as [[ok r4]|] eqn:HP; [|discriminate].
    apply processData_answered in HP. inversion H; subst; clear H.
    unfold answered in *; simpl in *. destruct ok; chain.
  - inversion H; subst. unfold answered; simpl. chain.
Qed.

Lemma driverCopy_quiet e reports :
  forall r, continuesQuietly r (snd (driverCopy e reports r)).
Proof.
  induction reports as [|q reports IH]; intros r; simpl; [chain|].
  unfold progressCallback.
  pose proof (continuesQuietly_load e r) as HL.
  destruct (load e r) as [cv r1]; simpl in HL. destruct cv; simpl; auto.
  eapply continuesQuietly_trans; [|apply IH]. chain.
Qed.

Lemma processWithCreateCopyMethod_answered e r :
  answered r (processWithCreateCopyMethod e r).
Proof.
  unfold processWithCreateCopyMethod.
  set (r1 := call _ (emit _ r)).
  assert (H1 : continuesQuietly r r1) by (subst r1; chain).
  clearbody r1.
  pose proof (driverCopy_quiet e (copyProgress e) r1) as HD.
  destruct (driverCopy e (copyProgress e) r1) as [[|] r2]; simpl in HD;
    unfold answered; simpl.
  - assert (continuesQuietly r r2) by chain. chain.
  - assert (continuesQuietly r r2) by chain. chain.
Qed.

Lemma setOptions_quiet opts : forall r, continuesQuietly r (setOptions opts r).
Proof.
  induction opts as [|[k v] opts IH]; intros r; simpl; [chain|].
  eapply continuesQuietly_trans; [|apply IH]. chain.
Qed.

Lemma prepared_quiet e : continuesQuietly start (prepared e).
Proof.
  unfold prepared.
  eapply continuesQuietly_trans; [|apply setOptions_quiet]. chain.
Qed.

Lemma conclude_ends e r res :
  answered r res -> endsWith (fst res) r (conclude e res).
Proof.
  destruct res as [[|] r1]; unfold answered, conclude; simpl; intros H; chain.
Qed.

(** Every return of [process] leaves a run whose last signal is its only
    [finished] signal. *)
Lemma process_endsFinished fuel e r :
  process fuel e = Some r -> endsFinished start r.
Proof.
  unfold process, endsFinished. intros H.
  destruct (openResult e) as [ds|]; [|inversion H; subst; eexists; chain].
  destruct (driverResult e) as [d|]; [|inversion H; subst; eexists; chain].
  fold (prepared e) in H.
  pose proof (prepared_quiet e) as HP.
  set (p := prepared e) in *. clearbody p.
  destruct (processingMode e).
  - assert (H6 : continuesQuietly start (emit (logMessage "Processing mode: CPU") p))
      by chain.
    set (r6 := emit _ p) in *. clearbody r6.
    destruct (DCAP_CREATE d).
    + destruct (processWithCreateMethod _ _ _ _) as [res|] eqn:HC; [|discriminate].
      simpl in H; inversion H; subst; clear H.
      apply processWithCreateMethod_answered in HC.
      exists (fst res). eapply continuesQuietly_ends; [exact H6|].
      apply conclude_ends. exact HC.
    + destruct (DCAP_CREATECOPY d); inversion H; subst; clear H.
      * eexists. eapply continuesQuietly_ends; [exact H6|].
        apply conclude_ends. apply processWithCreateCopyMethod_answered.
      * eexists. chain.
  - inversion H; subst; clear H. eexists. chain.
  - inversion H; subst; clear H. eexists. chain.
Qed.

(** ** Arithmetic on [int] *)

Lemma wrap_small z :
  Int32.INT_MIN <= z <= Int32.INT_MAX -> Int32.wrap z = z.
Proof.
  unfold Int32.wrap, Int32.INT_MIN, Int32.INT_MAX. intros H.
  rewrite Z.mod_small; lia.
Qed.


Lemma wrap_add_l a b : Int32.wrap (Int32.wrap a + b) = Int32.wrap (a + b).
Proof.
  unfold Int32.wrap.
  replace ((a + 2147483648) mod 4294967296 - 2147483648 + b + 2147483648)
    with ((a + 2147483648) mod 4294967296 + b) by lia.
  rewrite Zplus_mod_idemp_l. f_equal. f_equal. lia.
Qed.

(** The largest raster size for which no operation of the block loops
    overflows: [size + blockSize] must still be an [int]. *)
Definition maxRasterSize : Z := 2147483391.

Definition sizeOk (size : Z) : Prop := 0 <= size <= maxRasterSize.

Lemma add_block x size :
  Int32.INT_MIN <= x -> x < size -> size <= maxRasterSize ->
  Int32.add x 256 = x + 256.
Proof.
  unfold Int32.add, maxRasterSize, Int32.INT_MIN. intros.
  apply wrap_small. unfold Int32.INT_MIN, Int32.INT_MAX. lia.
Qed.

Lemma sub_block x size :
  0 <= x -> x < size -> size <= maxRasterSize ->
  Int32.sub size x = size - x.
Proof.
  unfold Int32.sub, maxRasterSize. intros.
  apply wrap_small. unfold Int32.INT_MIN, Int32.INT_MAX. lia.
Qed.


(** ** The loops end *)

Lemma columnLoop_S fuel e nXSize nBands totalBlocks y nYBlockSize x c r :
  columnLoop (S fuel) e nXSize nBands totalBlocks y nYBlockSize x c r =
  if x <? nXSize then
    let (converting, r1) := load e r in
    if converting then
      match processBlock e nXSize nBands totalBlocks y nYBlockSize x c r1 with
      | (Return b, r2) => Some (Return b, r2)
      | (Next c', r2) =>
          columnLoop fuel e nXSize nBands totalBlocks y nYBlockSize
            (Int32.add x blockSizeX) c' r2
      end
    else Some (Next c, r1)
  else Some (Next c, r).
Proof. reflexivity. Qed.

Lemma rowLoop_S fuel fuelX e nXSize nYSize nBands totalBlocks y c r :
  rowLoop (S fuel) fuelX e nXSize nYSize nBands totalBlocks y c r =
  if y <? nYSize then
    let (converting, r1) := load e r in
    if converting then
      match columnLoop fuelX e nXSize nBands totalBlocks
              y (Z.min blockSizeY (Int32.sub nYSize y)) 0 c r1 with
      | None => None
      | Some (Return b, r2) => Some (Return b, r2)
      | Some (Next c', r2) =>
          rowLoop fuel fuelX e nXSize nYSize nBands totalBlocks
            (Int32.add y blockSizeY) c' r2
      end
    else Some (Next c, r1)
  else Some (Next c, r).
Proof. reflexivity. Qed.



(** Fuel that is enough for a raster of the given size. *)
Definition enoughFuel (nXSize nYSize : Z) : nat :=
  S (Z.to_nat (Z.max nXSize nYSize)).




(** ** What the loops do while nothing fails and nobody cancels *)

(** Every [RasterIO] call of the job succeeds. *)
Definition ioOk (e : Env) : Prop :=
  forall band t, readOk e band t = true /\ writeOk e band t = true.

Definition readCalls (nBands : Z) (t : Tile) : list Call :=
  map (fun band => RasterRead band t) (bandIndices nBands).

Definition writeCalls (nBands : Z) (t : Tile) : list Call :=
  map (fun band => RasterWrite band t) (bandIndices nBands).

(** The GDAL calls of one block that goes through the whole body. *)
Definition blockCalls (nBands : Z) (t : Tile) : list Call :=
  readCalls nBands t ++ writeCalls nBands t.

(** The block counter after [n] increments (line 362). *)
Definition countUp (n : nat) (c : Z) : Z :=
  Nat.iter n (fun c => Int32.add c 1) c.

(** The progress signals of [n] blocks completed after the first [c]. *)
Definition progressSignals (totalBlocks c : Z) (n : nat) : list Signal :=
  map (fun k => progressUpdated (progressOf (countUp k c) totalBlocks)) (seq 1 n).

(** The block in column [i] of the row at offset [y] with height [h]. *)
Definition rowTile (nXSize y h : Z) (i : nat) : Tile :=
  mkTile (256 * Z.of_nat i) y (Z.min 256 (nXSize - 256 * Z.of_nat i)) h.

Lemma readBands_ok e t (Hio : ioOk e) bs :
  forall r, readBands e t bs r =
            (true, mkRun (emitted r) (calls r ++ map (fun b => RasterRead b t) bs) (loads r)).
Proof.
  induction bs as [|b bs IH]; intros r; simpl.
  - rewrite app_nil_r. destruct r; reflexivity.
  - destruct (Hio b t) as [-> _]. rewrite IH. simpl.
    rewrite <- app_assoc. reflexivity.
Qed.

Lemma writeBands_ok e t (Hio : ioOk e) bs :
  forall r, writeBands e t bs r =
            (true, mkRun (emitted r) (calls r ++ map (fun b => RasterWrite b t) bs) (loads r)).
Proof.
  induction bs as [|b bs IH]; intros r; simpl.
  - rewrite app_nil_r. destruct r; reflexivity.
  - destruct (Hio b t) as [_ ->]. rewrite IH. simpl.
    rewrite <- app_assoc. reflexivity.
Qed.

(** A block whose commit check sees the flag set is written and counted. *)
Lemma processBlock_done e nXSize nBands totalBlocks y h x c r (Hio : ioOk e) :
  flagAt e (loads r) = true ->
  processBlock e nXSize nBands totalBlocks y h x c r =
  (Next (Int32.add c 1),
   mkRun (emitted r ++ [progressUpdated (progressOf (Int32.add c 1) totalBlocks)])
         (calls r ++ blockCalls nBands
                       (mkTile x y (Z.min blockSizeX (Int32.sub nXSize x)) h))
         (S (loads r))).
Proof.
  intros Hf. unfold processBlock, blockCalls, readCalls, writeCalls.
  rewrite readBands_ok by assumption. unfold load. simpl. rewrite Hf. simpl.
  rewrite writeBands_ok by assumption. unfold emit. simpl.
  rewrite <- app_assoc. reflexivity.
Qed.

(** A block whose commit check sees the flag cleared has been read, is not
    written, and ends the job as cancelled. *)
Lemma processBlock_cancelled e nXSize nBands totalBlocks y h x c r (Hio : ioOk e) :
  flagAt e (loads r) = false ->
  processBlock e nXSize nBands totalBlocks y h x c r =
  (Return false,
   mkRun (emitted r ++ [finished false cancelledMsg])
         (calls r ++ readCalls nBands
                       (mkTile x y (Z.min blockSizeX (Int32.sub nXSize x)) h))
         (S (loads r))).
Proof.
  intros Hf. unfold processBlock, readCalls.
  rewrite readBands_ok by assumption. unfold load. simpl. rewrite Hf. simpl.
  reflexivity.
Qed.

Lemma countUp_S n c : countUp (S n) c = countUp n (Int32.add c 1).
Proof. exact (Nat.iter_succ_r n Z (fun c => Int32.add c 1) c). Qed.

Lemma countUp_add n m c : countUp (n + m) c = countUp m (countUp n c).
Proof.
  unfold countUp. rewrite Nat.add_comm.
  exact (Nat.iter_add m n Z (fun c => Int32.add c 1) c).
Qed.

Lemma progressSignals_S totalBlocks c n :
  progressSignals totalBlocks c (S n) =
  progressUpdated (progressOf (Int32.add c 1) totalBlocks)
    :: progressSignals totalBlocks (Int32.add c 1) n.
Proof.
  unfold progressSignals. simpl. f_equal.
  rewrite <- seq_shift, map_map. apply map_ext. intros k.
  rewrite countUp_S. reflexivity.
Qed.

Lemma progressSignals_add totalBlocks c n m :
  progressSignals totalBlocks c (n + m) =
  progressSignals totalBlocks c n ++ progressSignals totalBlocks (countUp n c) m.
Proof.
  revert c. induction n as [|n IH]; intros c; [reflexivity|].
  simpl Nat.add. rewrite !progressSignals_S, IH, countUp_S. reflexivity.
Qed.

(** [n] turns of the inner loop, from column [i]. *)
Lemma columnLoop_steps e nXSize nBands totalBlocks y h
    (Hio : ioOk e) (HW : nXSize <= maxRasterSize) :
  forall n fuel i c r,
    256 * Z.of_nat (i + n) < nXSize + 256 ->
    (forall k, (k < loads r + 2 * n)%nat -> flagAt e k = true) ->
    columnLoop (n + fuel) e nXSize nBands totalBlocks y h (256 * Z.of_nat i) c r =
    columnLoop fuel e nXSize nBands totalBlocks y h
      (256 * Z.of_nat (i + n)) (countUp n c)
      (mkRun (emitted r ++ progressSignals totalBlocks c n)
             (calls r ++ flat_map (blockCalls nBands)
                           (map (rowTile nXSize y h) (seq i n)))
             (loads r + 2 * n)).
Proof.
  induction n as [|n IH]; intros fuel i c r Hx Hfl.
  - simpl. rewrite !app_nil_r, !Nat.add_0_r. destruct r; reflexivity.
  - simpl Nat.add. rewrite columnLoop_S.
    destruct (Z.ltb_spec (256 * Z.of_nat i) nXSize); [|lia].
    unfold load. rewrite (Hfl (loads r)) by lia.
    rewrite processBlock_done by (auto; simpl; apply Hfl; lia).
    unfold blockSizeX.
    rewrite (add_block _ nXSize), (sub_block _ nXSize)
      by (unfold Int32.INT_MIN; lia).
    replace (256 * Z.of_nat i + 256) with (256 * Z.of_nat (S i)) by lia.
    rewrite IH.
    + simpl emitted. simpl calls. simpl loads.
      rewrite progressSignals_S, countUp_S.
      replace (S i + n)%nat with (i + S n)%nat by lia.
      f_equal. f_equal.
      * rewrite <- app_assoc. reflexivity.
      * rewrite <- app_assoc. reflexivity.
      * lia.
    + lia.
    + simpl loads. intros k Hk. apply Hfl. lia.
Qed.

(** The number of blocks along a side of [size] pixels. *)
Definition blockCount (size : Z) : nat := Z.to_nat ((size + 255) / 256).

Definition rowHeight (nYSize : Z) (j : nat) : Z :=
  Z.min 256 (nYSize - 256 * Z.of_nat j).

(** The blocks of row [j], left to right. *)
Definition rowTiles (nXSize nYSize : Z) (j : nat) : list Tile :=
  map (rowTile nXSize (256 * Z.of_nat j) (rowHeight nYSize j))
      (seq 0 (blockCount nXSize)).

Lemma blockCount_covers size :
  0 <= size ->
  size <= 256 * Z.of_nat (blockCount size) < size + 256.
Proof.
  intros H. unfold blockCount.
  rewrite Z2Nat.id by (apply Z.div_pos; lia).
  pose proof (Z.div_mod (size + 255) 256 ltac:(lia)).
  pose proof (Z.mod_pos_bound (size + 255) 256 ltac:(lia)). lia.
Qed.

(** The inner loop, left alone, goes through a whole row. *)
Lemma columnLoop_row e nXSize nBands totalBlocks y h
    (Hio : ioOk e) (HW : sizeOk nXSize) fuel c r :
  (forall k, (k < loads r + 2 * blockCount nXSize)%nat -> flagAt e k = true) ->
  columnLoop (blockCount nXSize + S fuel) e nXSize nBands totalBlocks y h 0 c r =
  Some (Next (countUp (blockCount nXSize) c),
        mkRun (emitted r ++ progressSignals totalBlocks c (blockCount nXSize))
              (calls r ++ flat_map (blockCalls nBands)
                            (map (rowTile nXSize y h) (seq 0 (blockCount nXSize))))
              (loads r + 2 * blockCount nXSize)).
Proof.
  intros Hfl. destruct HW as [HW0 HW].
  pose proof (blockCount_covers nXSize HW0) as Hc.
  change 0 with (256 * Z.of_nat 0) at 1.
  rewrite columnLoop_steps by (auto; simpl Nat.add; lia).
  rewrite columnLoop_S. simpl Nat.add.
  destruct (Z.ltb_spec (256 * Z.of_nat (blockCount nXSize)) nXSize); [lia|].
  reflexivity.
Qed.

(** [n] turns of the outer loop, from row [j]. *)
Lemma rowLoop_steps e nXSize nYSize nBands totalBlocks fuelX
    (Hio : ioOk e) (HW : sizeOk nXSize) (HH : nYSize <= maxRasterSize) :
  let nX := blockCount nXSize in
  forall n fuel j c r,
    256 * Z.of_nat (j + n) < nYSize + 256 ->
    (forall k, (k < loads r + n * (2 * nX + 1))%nat -> flagAt e k = true) ->
    rowLoop (n + fuel) (nX + S fuelX) e nXSize nYSize nBands totalBlocks
      (256 * Z.of_nat j) c r =
    rowLoop fuel (nX + S fuelX) e nXSize nYSize nBands totalBlocks
      (256 * Z.of_nat (j + n)) (countUp (n * nX) c)
      (mkRun (emitted r ++ progressSignals totalBlocks c (n * nX))
             (calls r ++ flat_map (blockCalls nBands)
                           (flat_map (rowTiles nXSize nYSize) (seq j n)))
             (loads r + n * (2 * nX + 1))).
Proof.
  intros nX. subst nX. set (nX := blockCount nXSize).
  induction n as [|n IH]; intros fuel j c r Hy Hfl.
  - simpl. rewrite !app_nil_r, !Nat.add_0_r. destruct r; reflexivity.
  - simpl Nat.add. rewrite rowLoop_S.
    destruct (Z.ltb_spec (256 * Z.of_nat j) nYSize); [|lia].
    unfold load. rewrite (Hfl (loads r)) by lia.
    unfold nX at 1. rewrite columnLoop_row; auto.
    2:{ simpl loads. fold nX. intros k Hk. apply Hfl. lia. }
    fold nX. unfold blockSizeY.
    rewrite (add_block _ nYSize), (sub_block _ nYSize)
      by (unfold Int32.INT_MIN; lia).
    replace (256 * Z.of_nat j + 256) with (256 * Z.of_nat (S j)) by lia.
    rewrite IH.
    + simpl emitted. simpl calls. simpl loads.
      replace (S n * nX)%nat with (nX + n * nX)%nat by lia.
      rewrite progressSignals_add, countUp_add.
      replace (S j + n)%nat with (j + S n)%nat by lia.
      f_equal. f_equal.
      * rewrite <- app_assoc. reflexivity.
      * rewrite <- app_assoc. f_equal. simpl. rewrite flat_map_app. reflexivity.
      * lia.
    + lia.
    + simpl loads. intros k Hk. apply Hfl. lia.
Qed.

(** All blocks of the raster, row by row. *)
Definition allTiles (nXSize nYSize : Z) : list Tile :=
  flat_map (rowTiles nXSize nYSize) (seq 0 (blockCount nYSize)).

(** The number of loads of [isConverting] made by the two loop tests and
    the commit check while [rows] whole rows go through. *)
Definition loadsOfRows (nXSize : Z) (rows : nat) : nat :=
  rows * (2 * blockCount nXSize + 1).

Lemma blockCount_le size : 0 <= size -> (blockCount size <= Z.to_nat size)%nat.
Proof.
  intros H. unfold blockCount. apply Z2Nat.inj_le; try lia.
  - apply Z.div_pos; lia.
  - destruct (Z.eq_dec size 0) as [->|]; [reflexivity|].
    apply Z.div_le_upper_bound; lia.
Qed.

Lemma enoughFuel_rows nXSize nYSize fuel :
  0 <= nXSize -> 0 <= nYSize ->
  (enoughFuel nXSize nYSize <= fuel)%nat ->
  (blockCount nXSize < fuel)%nat /\ (blockCount nYSize < fuel)%nat.
Proof.
  unfold enoughFuel. intros HW HH Hf.
  pose proof (blockCount_le nXSize HW). pose proof (blockCount_le nYSize HH).
  lia.
Qed.

(** The outer loop, left alone, goes through the whole raster. *)
Lemma rowLoop_all e nXSize nYSize nBands totalBlocks fuel fuelX
    (Hio : ioOk e) (HW : sizeOk nXSize) (HH : sizeOk nYSize) c r :
  (blockCount nYSize < fuel)%nat -> (blockCount nXSize < fuelX)%nat ->
  (forall k, (k < loads r + loadsOfRows nXSize (blockCount nYSize))%nat ->
             flagAt e k = true) ->
  rowLoop fuel fuelX e nXSize nYSize nBands totalBlocks 0 c r =
  Some (Next (countUp (blockCount nYSize * blockCount nXSize) c),
        mkRun (emitted r ++ progressSignals totalBlocks c
                              (blockCount nYSize * blockCount nXSize))
              (calls r ++ flat_map (blockCalls nBands) (allTiles nXSize nYSize))
              (loads r + loadsOfRows nXSize (blockCount nYSize))).
Proof.
  intros Hf HfX Hfl. destruct HH as [HH0 HH].
  pose proof (blockCount_covers nYSize HH0) as Hc.
  replace fuel with (blockCount nYSize + S (fuel - blockCount nYSize - 1))%nat by lia.
  replace fuelX with (blockCount nXSize + S (fuelX - blockCount nXSize - 1))%nat by lia.
  change 0 with (256 * Z.of_nat 0) at 1.
  rewrite rowLoop_steps by (auto; simpl Nat.add; lia).
  rewrite rowLoop_S. simpl Nat.add.
  destruct (Z.ltb_spec (256 * Z.of_nat (blockCount nYSize)) nYSize); [lia|].
  reflexivity.
Qed.


Definition startLog (e : Env) : Signal :=
  logMessage ("Starting block processing using " ++ number (numCores e)
              ++ " core(s)...")%string.

(** [processData] on a raster that is read and written without failure,
    when the flag stays set as long as the loops run: all blocks are
    copied, and the check after the loops decides the answer. *)
Lemma processData_all fuel e ds r (Hio : ioOk e) :
  let nXSize := RasterXSize ds in
  let nYSize := RasterYSize ds in
  let totalBlocks := Int32.mul (blocksAlong nXSize blockSizeX)
                               (blocksAlong nYSize blockSizeY) in
  let n := (blockCount nYSize * blockCount nXSize)%nat in
  let afterLoops :=
    mkRun (emitted r ++ startLog e :: progressSignals totalBlocks 0 n)
          (calls r ++ flat_map (blockCalls (RasterCount ds)) (allTiles nXSize nYSize))
          (S (loads r + loadsOfRows nXSize (blockCount nYSize))) in
  sizeOk nXSize -> sizeOk nYSize ->
  (enoughFuel nXSize nYSize <= fuel)%nat ->
  (forall k, (k < loads r + loadsOfRows nXSize (blockCount nYSize))%nat ->
             flagAt e k = true) ->
  processData fuel e ds r =
  Some (if flagAt e (loads r + loadsOfRows nXSize (blockCount nYSize))
        then (true, emit (progressUpdated (Finite 1)) afterLoops)
        else (false, emit (finished false cancelledMsg) afterLoops)).
Proof.
  intros nXSize nYSize totalBlocks n afterLoops HW HH Hf Hfl.
  destruct (enoughFuel_rows nXSize nYSize fuel) as [HfX HfY];
    [apply HW | apply HH | assumption |].
  unfold processData. fold nXSize nYSize totalBlocks.
  rewrite rowLoop_all by auto.
  unfold load. simpl emitted. simpl calls. simpl loads.
  fold n. unfold afterLoops, startLog.
  destruct (flagAt e _); simpl; unfold emit; simpl;
    rewrite <- !app_assoc; reflexivity.
Qed.

(** ** The blocks partition the raster *)






Lemma filter_seq_none (f : nat -> bool) n : forall a,
  (forall i, (a <= i < a + n)%nat -> f i = false) -> filter f (seq a n) = [].
Proof.
  induction n as [|n IH]; intros a Hf; [reflexivity|].
  simpl. rewrite (Hf a) by lia. apply IH. intros i Hi. apply Hf. lia.
Qed.

(** A test that holds at exactly one index below [n] selects that index. *)
Lemma filter_seq_unique (f : nat -> bool) n i0 :
  (i0 < n)%nat -> f i0 = true ->
  (forall i, (i < n)%nat -> i <> i0 -> f i = false) ->
  filter f (seq 0 n) = [i0].
Proof.
  intros Hi Ht Hf.
  replace n with (i0 + S (n - i0 - 1))%nat by lia.
  rewrite seq_app, filter_app. simpl.
  rewrite Ht, !filter_seq_none; [reflexivity| |];
    intros i Hr; apply Hf; lia.
Qed.


Lemma filter_map_comm {A B} (f : B -> bool) (g : A -> B) l :
  filter f (map g l) = map g (filter (fun x => f (g x)) l).
Proof.
  induction l as [|a l IH]; [reflexivity|].
  simpl. destruct (f (g a)); simpl; rewrite IH; reflexivity.
Qed.




Section Partition.

Variables nXSize nYSize : Z.
Hypothesis HW : 0 <= nXSize.
Hypothesis HH : 0 <= nYSize.

Let nX := blockCount nXSize.













End Partition.

(** ** Blocks read and written, from the calls *)

Lemma tilesRead_app l1 l2 : tilesRead (l1 ++ l2) = tilesRead l1 ++ tilesRead l2.
Proof.
  induction l1 as [|c l1 IH]; [reflexivity|].
  destruct c; simpl; try exact IH. destruct (band =? 1); simpl; rewrite IH; reflexivity.
Qed.

Lemma tilesWritten_app nBands l1 l2 :
  tilesWritten nBands (l1 ++ l2) = tilesWritten nBands l1 ++ tilesWritten nBands l2.
Proof.
  induction l1 as [|c l1 IH]; [reflexivity|].
  destruct c; simpl; try exact IH.
  destruct (band =? nBands); simpl; rewrite IH; reflexivity.
Qed.

Lemma tilesRead_reads t bs :
  tilesRead (map (fun b => RasterRead b t) bs)
  = map (fun _ => t) (filter (fun b => b =? 1) bs).
Proof.
  induction bs as [|b bs IH]; [reflexivity|].
  simpl. destruct (b =? 1); simpl; rewrite IH; reflexivity.
Qed.

Lemma tilesRead_writes t bs : tilesRead (map (fun b => RasterWrite b t) bs) = [].
Proof. induction bs as [|b bs IH]; [reflexivity|exact IH]. Qed.

Lemma tilesWritten_reads nBands t bs :
  tilesWritten nBands (map (fun b => RasterRead b t) bs) = [].
Proof. induction bs as [|b bs IH]; [reflexivity|exact IH]. Qed.

Lemma tilesWritten_writes nBands t bs :
  tilesWritten nBands (map (fun b => RasterWrite b t) bs)
  = map (fun _ => t) (filter (fun b => b =? nBands) bs).
Proof.
  induction bs as [|b bs IH]; [reflexivity|].
  simpl. destruct (b =? nBands); simpl; rewrite IH; reflexivity.
Qed.

(** Among the band indices 1 .. nBands, [band] occurs once. *)
Lemma bandIndices_once nBands band :
  1 <= band <= nBands ->
  filter (fun b => b =? band) (bandIndices nBands) = [band].
Proof.
  intros Hb. unfold bandIndices.
  rewrite <- seq_shift, map_map, filter_map_comm.
  rewrite (filter_seq_unique _ _ (Z.to_nat (band - 1))).
  - simpl. f_equal. lia.
  - lia.
  - apply Z.eqb_eq. lia.
  - intros i Hi Hne. apply Z.eqb_neq. lia.
Qed.

Lemma tilesRead_block nBands t : 0 < nBands -> tilesRead (blockCalls nBands t) = [t].
Proof.
  intros H. unfold blockCalls, readCalls, writeCalls.
  rewrite tilesRead_app, tilesRead_reads, tilesRead_writes, bandIndices_once by lia.
  reflexivity.
Qed.

Lemma tilesWritten_block nBands t :
  0 < nBands -> tilesWritten nBands (blockCalls nBands t) = [t].
Proof.
  intros H. unfold blockCalls, readCalls, writeCalls.
  rewrite tilesWritten_app, tilesWritten_reads, tilesWritten_writes,
    bandIndices_once by lia.
  reflexivity.
Qed.

Lemma tilesRead_blocks nBands ts :
  0 < nBands -> tilesRead (flat_map (blockCalls nBands) ts) = ts.
Proof.
  intros H. induction ts as [|t ts IH]; [reflexivity|].
  simpl. rewrite tilesRead_app, tilesRead_block, IH by assumption. reflexivity.
Qed.

Lemma tilesWritten_blocks nBands ts :
  0 < nBands -> tilesWritten nBands (flat_map (blockCalls nBands) ts) = ts.
Proof.
  intros H. induction ts as [|t ts IH]; [reflexivity|].
  simpl. rewrite tilesWritten_app, tilesWritten_block, IH by assumption. reflexivity.
Qed.


Lemma flagAt_before e c n :
  interruptedAt e = Some c -> (n < c)%nat -> flagAt e n = true.
Proof. unfold flagAt. intros -> H. apply Nat.ltb_lt. exact H. Qed.

Lemma flagAt_after e c n :
  interruptedAt e = Some c -> (c <= n)%nat -> flagAt e n = false.
Proof. unfold flagAt. intros -> H. apply Nat.ltb_ge. exact H. Qed.

(** ** C1: the blocks the loop goes through *)









(** ** Cancellation during the loops *)

(** The first [j * nX + i] blocks are the first [j] rows and the first
    [i] blocks of row [j]. *)
Lemma firstn_allTiles nXSize nYSize j i :
  (j < blockCount nYSize)%nat -> (i <= blockCount nXSize)%nat ->
  firstn (j * blockCount nXSize + i) (allTiles nXSize nYSize) =
  flat_map (rowTiles nXSize nYSize) (seq 0 j)
  ++ map (rowTile nXSize (256 * Z.of_nat j) (rowHeight nYSize j)) (seq 0 i).
Proof.
  intros Hj Hi. unfold allTiles.
  replace (blockCount nYSize) with (j + S (blockCount nYSize - j - 1))%nat by lia.
  rewrite seq_app, flat_map_app. simpl seq. cbn [flat_map].
  assert (HL : List.length (flat_map (rowTiles nXSize nYSize) (seq 0 j))
               = (j * blockCount nXSize)%nat).
  { rewrite flat_map_constant_length with (c := blockCount nXSize).
    - rewrite length_seq. reflexivity.
    - intros x _. unfold rowTiles. rewrite length_map, length_seq. reflexivity. }
  rewrite <- HL, firstn_app_2. f_equal.
  rewrite firstn_app. unfold rowTiles at 2. rewrite length_map, length_seq.
  replace (i - blockCount nXSize)%nat with 0%nat by lia.
  rewrite firstn_O, app_nil_r. unfold rowTiles.
  rewrite firstn_map. f_equal.
  replace (blockCount nXSize) with (i + (blockCount nXSize - i))%nat by lia.
  rewrite seq_app, firstn_app, length_seq, Nat.sub_diag, firstn_O, app_nil_r.
  apply firstn_all2. rewrite length_seq. lia.
Qed.

(** The outer loop when the flag is cleared while block number
    [j * nX + i] (row [j], column [i]) is next: the loads up to the commit
    check of the block before it see the flag set, and the flag is cleared
    at the latest when the commit check of this block loads it.  The blocks
    before it have been written, and nothing else; the loop either leaves
    the function as cancelled (the flag was seen cleared at the commit
    check) or stops with the flag already cleared. *)
Lemma rowLoop_cancelled e nXSize nYSize nBands totalBlocks fuel fuelX c0 j i c r
    (Hio : ioOk e) (HW : sizeOk nXSize) (HH : sizeOk nYSize) :
  let nX := blockCount nXSize in
  let k := (j * nX + i)%nat in
  interruptedAt e = Some c0 ->
  (blockCount nYSize < fuel)%nat -> (nX < fuelX)%nat ->
  (j < blockCount nYSize)%nat -> (i < nX)%nat ->
  (loads r + 2 * k + j + (if Nat.eqb i 0 then 0 else 1) <= c0)%nat ->
  (c0 <= loads r + 2 * k + j + 2)%nat ->
  exists fl r1 extra,
    rowLoop fuel fuelX e nXSize nYSize nBands totalBlocks 0 c r = Some (fl, r1) /\
    calls r1 = calls r ++ flat_map (blockCalls nBands)
                            (firstn k (allTiles nXSize nYSize)) ++ extra /\
    tilesWritten nBands extra = [] /\
    ((fl = Return false /\
      emitted r1 = emitted r ++ progressSignals totalBlocks c k
                   ++ [finished false cancelledMsg] /\
      c0 = (loads r + 2 * k + j + 2)%nat /\
      extra = readCalls nBands
                (rowTile nXSize (256 * Z.of_nat j) (rowHeight nYSize j) i))
     \/
     ((exists c', fl = Next c') /\
      emitted r1 = emitted r ++ progressSignals totalBlocks c k /\
      (c0 <= loads r1)%nat /\
      (c0 < loads r + 2 * k + j + 2)%nat /\ extra = [])).
Proof.
  intros nX0 k Hc0 Hf HfX Hj Hi Hlo Hhi. subst nX0.
  pose proof (blockCount_covers nXSize (proj1 HW)) as HcX.
  pose proof (blockCount_covers nYSize (proj1 HH)) as HcY.
  assert (Hk : k = (j * (blockCount nXSize) + i)%nat) by reflexivity. clearbody k.
  assert (Hlo' : (loads r + j * (2 * (blockCount nXSize) + 1) <= c0)%nat)
    by (destruct (Nat.eqb i 0); lia).
  (* the first j rows *)
  replace fuel with (j + S (S (fuel - j - 2)))%nat by lia.
  replace fuelX with ((blockCount nXSize) + S (fuelX - (blockCount nXSize) - 1))%nat by lia.
  pose proof (rowLoop_steps e nXSize nYSize nBands totalBlocks (fuelX - (blockCount nXSize) - 1)
                Hio HW (proj2 HH) j (S (S (fuel - j - 2))) 0%nat c r) as E.
  cbv zeta in E. change (256 * Z.of_nat 0) with 0 in E.
  rewrite E; clear E;
    [| simpl Nat.add; lia
     | intros n Hn; apply (flagAt_before e c0); [assumption|lia]].
  simpl Nat.add.
  set (rA := mkRun _ _ _).
  (* row j *)
  rewrite rowLoop_S.
  destruct (Z.ltb_spec (256 * Z.of_nat j) nYSize); [|lia].
  unfold load.
  destruct (le_lt_dec c0 (loads rA)) as [Hrow|Hrow].
  { (* seen cleared by the test of the outer loop: i = 0 *)
    rewrite (flagAt_after e c0) by assumption.
    assert (i = 0)%nat by (subst rA; cbn [loads] in Hrow; destruct (Nat.eqb_spec i 0); lia).
    subst i. eexists. eexists. exists []. split; [reflexivity|].
    cbn [calls emitted loads].
    rewrite Hk. rewrite firstn_allTiles by lia.
    split; [|split; [reflexivity|right; split; [eauto|split; [|split; [|split]]]]].
    - subst rA. cbn [calls seq map]. rewrite !app_nil_r. reflexivity.
    - subst rA. cbn [emitted]. f_equal. f_equal. lia.
    - lia.
    - subst rA. cbn [loads] in Hrow. lia.
    - reflexivity. }
  rewrite (flagAt_before e c0) by assumption.
  (* the first i blocks of row j *)
  replace ((blockCount nXSize) + S (fuelX - (blockCount nXSize) - 1))%nat with (i + S (S (fuelX - i - 2)))%nat by lia.
  unfold blockSizeY. rewrite (sub_block _ nYSize) by (destruct HH; lia).
  fold (rowHeight nYSize j).
  set (rB := mkRun (emitted rA) (calls rA) (S (loads rA))).
  pose proof (columnLoop_steps e nXSize nBands totalBlocks (256 * Z.of_nat j)
                (rowHeight nYSize j) Hio (proj2 HW) i (S (S (fuelX - i - 2))) 0%nat
                (countUp (j * (blockCount nXSize)) c) rB) as E.
  change (256 * Z.of_nat 0) with 0 in E.
  rewrite E; clear E;
    [| simpl Nat.add; lia
     | intros n Hn; apply (flagAt_before e c0); [assumption|];
       subst rB rA; cbn [loads] in Hn, Hrow |- *; destruct (Nat.eqb_spec i 0); lia].
  simpl Nat.add.
  set (rC := mkRun _ _ _).
  assert (HrC : loads rC = (loads r + 2 * k + j + 1)%nat)
    by (subst rC rB rA; cbn [loads]; lia).
  assert (HcallsC : calls rC = calls r ++ flat_map (blockCalls nBands)
                                 (firstn k (allTiles nXSize nYSize))).
  { rewrite Hk. rewrite firstn_allTiles by lia.
    subst rC rB rA. cbn [calls].
    rewrite flat_map_app, app_assoc. reflexivity. }
  assert (HemC : emitted rC = emitted r ++ progressSignals totalBlocks c k).
  { rewrite Hk, progressSignals_add. subst rC rB rA. cbn [emitted].
    rewrite app_assoc. reflexivity. }
  clearbody rC. clear rA rB Hrow.
  rewrite columnLoop_S.
  destruct (Z.ltb_spec (256 * Z.of_nat i) nXSize); [|lia].
  unfold load.
  destruct (le_lt_dec c0 (loads rC)) as [Hcol|Hcol].
  { (* seen cleared by the test of the inner loop *)
    rewrite (flagAt_after e c0) by assumption.
    rewrite rowLoop_S. unfold load. cbn [loads emitted calls].
    destruct (Int32.add (256 * Z.of_nat j) 256 <? nYSize).
    - rewrite (flagAt_after e c0) by (assumption || lia).
      eexists. eexists. exists []. split; [reflexivity|].
      cbn [calls emitted loads]. rewrite HcallsC, HemC, app_nil_r.
      split; [reflexivity|]. split; [reflexivity|].
      right. split; [eauto|]. split; [reflexivity|]. repeat split; lia.
    - eexists. eexists. exists []. split; [reflexivity|].
      cbn [calls emitted loads]. rewrite HcallsC, HemC, app_nil_r.
      split; [reflexivity|]. split; [reflexivity|].
      right. split; [eauto|]. split; [reflexivity|]. repeat split; lia. }
  (* seen cleared by the commit check *)
  rewrite (flagAt_before e c0) by assumption.
  rewrite processBlock_cancelled
    by (first [exact Hio | cbn [loads]; apply (flagAt_after e c0); [exact Hc0 | lia]]).
  unfold blockSizeX. rewrite (sub_block _ nXSize) by (destruct HW; lia).
  fold (rowTile nXSize (256 * Z.of_nat j) (rowHeight nYSize j) i).
  do 3 eexists. split; [reflexivity|]. cbn [calls emitted].
  rewrite HcallsC, HemC, <- !app_assoc.
  split; [reflexivity|]. split; [apply tilesWritten_reads|].
  left. repeat split. lia.
Qed.

(** ** Jobs on the Create path *)

(** The job takes the Create path and reaches the block loops: CPU mode,
    the source opens as [ds] with at least one band, the driver is found
    and advertises [DCAP_CREATE], and the output dataset is created. *)
Definition createJob (e : Env) (ds : Dataset) : Prop :=
  processingMode e = CPU /\ openResult e = Some ds /\
  (exists d, driverResult e = Some d /\ DCAP_CREATE d = true) /\
  createResult e = true /\ 0 < RasterCount ds.

(** The run of such a job when [processData] is entered. *)
Definition created (e : Env) (ds : Dataset) : Run :=
  let r0 := emit (logMessage "Using Create method.")
              (emit (logMessage "Processing mode: CPU") (prepared e)) in
  let r1 := call (Create (outputFile e) (RasterXSize ds) (RasterYSize ds)
                    (RasterCount ds)) r0 in
  let r2 := if hasProjection ds then call SetProjection r1 else r1 in
  if hasGeoTransform ds then call SetGeoTransform r2 else r2.

(** What is left to do when [processData] has answered: close the output,
    then [conclude]. *)
Definition closeAndConclude (e : Env) (res : bool * Run) : Run :=
  conclude e (fst res, call (GDALClose OutputDataset) (snd res)).

Lemma process_createJob fuel e ds :
  createJob e ds ->
  process fuel e = option_map (closeAndConclude e) (processData fuel e ds (created e ds)).
Proof.
  intros [Hm [Ho [[d [Hd Hc]] [Hcr Hb]]]].
  unfold process, processWithCreateMethod, created, closeAndConclude.
  rewrite Ho, Hd, Hm, Hc, Hcr. fold (prepared e).
  destruct (Z.eqb_spec (RasterCount ds) 0); [lia|]. cbn [negb].
  destruct (processData _ _ _ _) as [[ok r4]|]; reflexivity.
Qed.

Lemma setOptions_loads opts : forall r, loads (setOptions opts r) = loads r.
Proof. induction opts as [|[k v] opts IH]; intros r; simpl; [|rewrite IH]; reflexivity. Qed.

Lemma setOptions_calls opts : forall r, calls (setOptions opts r) = calls r.
Proof. induction opts as [|[k v] opts IH]; intros r; simpl; [|rewrite IH]; reflexivity. Qed.

Lemma created_loads e ds : loads (created e ds) = 0%nat.
Proof.
  unfold created, prepared.
  destruct (hasProjection ds), (hasGeoTransform ds); simpl;
    rewrite setOptions_loads; reflexivity.
Qed.

Lemma created_calls e ds :
  exists cs, calls (created e ds) = cs /\
             tilesWritten (RasterCount ds) cs = [] /\ tilesRead cs = [].
Proof.
  eexists. split; [reflexivity|]. unfold created, prepared.
  destruct (hasProjection ds), (hasGeoTransform ds); simpl;
    rewrite setOptions_calls; simpl; auto.
Qed.

Lemma lastSignal_emit s r : lastSignal (emit s r) = Some s.
Proof.
  unfold lastSignal, emit. simpl. rewrite map_app. simpl. apply last_last.
Qed.

Lemma lastSignal_call c r : lastSignal (call c r) = lastSignal r.
Proof. reflexivity. Qed.

Lemma finishedCount_app l1 l2 :
  finishedCount (l1 ++ l2) = (finishedCount l1 + finishedCount l2)%nat.
Proof. unfold finishedCount. rewrite filter_app, length_app. reflexivity. Qed.

(** A run that ends finished has one [finished] signal, its last signal. *)
Lemma endsFinished_start r :
  endsFinished start r ->
  finishedCount (emitted r) = 1%nat /\
  exists l b m, emitted r = l ++ [finished b m] /\ finishedCount l = 0%nat.
Proof.
  intros [b [l [m [E Q]]]]. simpl in E. rewrite E. split.
  - rewrite finishedCount_app. unfold finishedCount at 1. rewrite Q. reflexivity.
  - exists l, b, m. split; [reflexivity|]. unfold finishedCount. rewrite Q. reflexivity.
Qed.

Lemma endsWith_last b r r' :
  endsWith b r r' -> exists m, lastSignal r' = Some (finished b m).
Proof.
  intros [l [m [E Q]]]. exists m. unfold lastSignal.
  rewrite E, !app_assoc, map_app. apply last_last.
Qed.

(** [processData] when the flag is cleared while block [j * nX + i] is
    next (see [rowLoop_cancelled]): it answers false, its last signal is
    the cancellation, and the blocks before that one have been written. *)
Lemma processData_cancelled fuel e ds r c0 j i (Hio : ioOk e) :
  let W := RasterXSize ds in
  let H := RasterYSize ds in
  let k := (j * blockCount W + i)%nat in
  sizeOk W -> sizeOk H -> (enoughFuel W H <= fuel)%nat ->
  interruptedAt e = Some c0 ->
  (j < blockCount H)%nat -> (i < blockCount W)%nat ->
  (loads r + 2 * k + j + (if Nat.eqb i 0 then 0 else 1) <= c0)%nat ->
  (c0 <= loads r + 2 * k + j + 2)%nat ->
  exists r' extra,
    processData fuel e ds r = Some (false, r') /\
    lastSignal r' = Some (finished false cancelledMsg) /\
    calls r' = calls r ++ flat_map (blockCalls (RasterCount ds))
                            (firstn k (allTiles W H)) ++ extra /\
    tilesWritten (RasterCount ds) extra = [] /\
    extra = (if Nat.eqb c0 (loads r + 2 * k + j + 2)
             then readCalls (RasterCount ds)
                    (rowTile W (256 * Z.of_nat j) (rowHeight H j) i)
             else []).
Proof.
  intros W H k HW HH Hf Hc0 Hj Hi Hlo Hhi.
  destruct (enoughFuel_rows W H fuel (proj1 HW) (proj1 HH) Hf) as [HfX HfY].
  unfold processData. fold W H.
  set (tb := Int32.mul _ _).
  destruct (rowLoop_cancelled e W H (RasterCount ds) tb fuel fuel c0 j i 0
              (emit (startLog e) r) Hio HW HH Hc0 HfY HfX Hj Hi Hlo Hhi)
    as [fl [r1 [extra [HR [Hcalls [Hex Hcase]]]]]].
  unfold startLog in HR. rewrite HR. cbn [calls emit] in Hcalls.
  destruct Hcase as [[-> [Hem [Hc Hx]]]|[[c' ->] [Hem [Hl [Hc Hx]]]]].
  - exists r1, extra. split; [reflexivity|]. split; [|split; [|split]]; auto.
    + unfold lastSignal. rewrite Hem, !app_assoc, map_app. apply last_last.
    + cbn [loads emit] in Hc. subst c0. rewrite Nat.eqb_refl. exact Hx.
  - unfold load. rewrite (flagAt_after e c0) by assumption. cbn [negb].
    eexists. exists extra. split; [reflexivity|]. split; [apply lastSignal_emit|].
    split; [|split]; auto.
    cbn [loads emit] in Hc.
    destruct (Nat.eqb_spec c0 (loads r + 2 * k + j + 2)); [lia|exact Hx].
Qed.

Lemma firstn_S_allTiles nXSize nYSize j i :
  (j < blockCount nYSize)%nat -> (i < blockCount nXSize)%nat ->
  firstn (S (j * blockCount nXSize + i)) (allTiles nXSize nYSize) =
  firstn (j * blockCount nXSize + i) (allTiles nXSize nYSize)
  ++ [rowTile nXSize (256 * Z.of_nat j) (rowHeight nYSize j) i].
Proof.
  intros Hj Hi.
  replace (S (j * blockCount nXSize + i)) with (j * blockCount nXSize + S i)%nat by lia.
  rewrite !firstn_allTiles by lia.
  rewrite seq_S, map_app, app_assoc. reflexivity.
Qed.

Lemma tilesRead_readCalls nBands t : 0 < nBands -> tilesRead (readCalls nBands t) = [t].
Proof.
  intros H. unfold readCalls. rewrite tilesRead_reads, bandIndices_once by lia.
  reflexivity.
Qed.

(** ** C2: cancellation on the Create path *)

(** The load of [isConverting] that decides whether block number [k]
    (counting from 0, row-major, [nX] blocks in a row) is written: before
    it come two loads for each earlier block, one load of the outer loop
    test for each row begun, and the load of the inner loop test for
    block [k] itself. *)
Definition commitLoad (nX k : nat) : nat := 2 * k + k / nX + 2.

(** C2.  A job on the Create path whose raster has n = nX * nY blocks and
    whose reads and writes succeed.  Let the flag be cleared after exactly
    k < n blocks have been written: the commit check of block k - 1 (when
    there is one) still saw it set, and it is cleared at the latest when
    the commit check of block k loads it; k = 0 is the cancellation before
    any block is processed.  Then the job ends with its only [finished]
    signal, [finished(false, "Conversion cancelled by user.")], and the
    blocks written to the output are exactly the first k.  When the flag is
    seen cleared at the commit check itself, block k has been read and is
    not written. *)
Theorem cancelled_after_k_blocks (e : Env) (ds : Dataset) (fuel c0 k : nat) :
  let W := RasterXSize ds in
  let H := RasterYSize ds in
  let nX := blockCount W in
  let n := (blockCount H * nX)%nat in
  createJob e ds -> ioOk e ->
  0 < W <= maxRasterSize -> 0 < H <= maxRasterSize ->
  (enoughFuel W H <= fuel)%nat ->
  interruptedAt e = Some c0 ->
  (k < n)%nat ->
  (k = 0%nat \/ (commitLoad nX (k - 1) < c0)%nat) ->
  (c0 <= commitLoad nX k)%nat ->
  exists r,
    process fuel e = Some r /\
    lastSignal r = Some (finished false cancelledMsg) /\
    finishedCount (emitted r) = 1%nat /\
    tilesWritten (RasterCount ds) (calls r) = firstn k (allTiles W H) /\
    tilesRead (calls r) =
      firstn (if Nat.eqb c0 (commitLoad nX k) then S k else k) (allTiles W H).
Proof.
  intros W H nX n Hjob Hio HW HH Hf Hc0 Hk Hlo Hhi.
  assert (HW' : sizeOk W) by (unfold sizeOk; lia).
  assert (HH' : sizeOk H) by (unfold sizeOk; lia).
  pose proof (blockCount_covers W (proj1 HW')) as HcX.
  assert (EnX : blockCount W = nX) by reflexivity.
  assert (En : n = (blockCount H * nX)%nat) by reflexivity.
  clearbody nX n. rewrite EnX in HcX.
  assert (HnX : (0 < nX)%nat) by (clear - HcX HW; lia).
  pose proof (Nat.div_mod_eq k nX) as Hdm.
  pose proof (Nat.mod_upper_bound k nX ltac:(clear - HnX; lia)) as Hi.
  assert (Hcommit : commitLoad nX k = (2 * k + k / nX + 2)%nat) by reflexivity.
  remember (k / nX)%nat as j eqn:Ej. remember (k mod nX)%nat as i eqn:Ei.
  assert (Hj : (j < blockCount H)%nat) by nia.
  assert (Ek : (j * nX + i)%nat = k) by lia.
  assert (Hlo' : (2 * k + j + (if Nat.eqb i 0 then 0 else 1) <= c0)%nat).
  { destruct Hlo as [->|Hlo].
    - assert (j = 0%nat) by lia. assert (i = 0%nat) by lia.
      destruct (Nat.eqb_spec i 0); lia.
    - unfold commitLoad in Hlo.
      destruct (Nat.eqb_spec i 0) as [Hi0|Hi0].
      + assert (0 < j)%nat by (destruct j; lia).
        assert (((k - 1) / nX)%nat = (j - 1)%nat).
        { symmetry. apply (Nat.div_unique (k - 1) nX (j - 1) (nX - 1)); nia. }
        lia.
      + assert (((k - 1) / nX)%nat = j).
        { symmetry. apply (Nat.div_unique (k - 1) nX j (i - 1)); nia. }
        lia. }
  assert (Hhi' : (c0 <= 2 * k + j + 2)%nat) by lia.
  clear Hlo Hhi Hdm Ej Ei.
  destruct (processData_cancelled fuel e ds (created e ds) c0 j i Hio
              HW' HH' Hf Hc0 Hj)
    as [r' [extra [HP [Hlast [Hcalls [Hw Hextra]]]]]].
  { fold W. rewrite EnX. exact Hi. }
  { fold W. rewrite EnX, Ek, created_loads. exact Hlo'. }
  { fold W. rewrite EnX, Ek, created_loads. exact Hhi'. }
  fold W H in Hcalls, Hextra. rewrite EnX, Ek, created_loads in *.
  exists (closeAndConclude e (false, r')).
  assert (Hproc : process fuel e = Some (closeAndConclude e (false, r')))
    by (rewrite (process_createJob fuel e ds Hjob), HP; reflexivity).
  destruct Hjob as [_ [_ [_ [_ Hb]]]].
  destruct (created_calls e ds) as [cs [Hcs [Hcw Hcr]]].
  split; [exact Hproc|]. split; [|split; [|split]].
  - exact Hlast.
  - apply (endsFinished_start _ (process_endsFinished fuel e _ Hproc)).
  - unfold closeAndConclude, conclude. cbn [fst snd calls call].
    rewrite Hcalls, Hcs, !tilesWritten_app, Hcw, Hw, tilesWritten_blocks by assumption.
    cbn [tilesWritten app]. rewrite !app_nil_r. reflexivity.
  - unfold closeAndConclude, conclude. cbn [fst snd calls call].
    rewrite Hcalls, Hcs, !tilesRead_app, Hcr, tilesRead_blocks by assumption.
    cbn [tilesRead app]. rewrite app_nil_r, Hcommit.
    replace (0 + 2 * k + j + 2)%nat with (2 * k + j + 2)%nat in Hextra by lia.
    destruct (Nat.eqb c0 (2 * k + j + 2)); subst extra.
    + rewrite tilesRead_readCalls by assumption.
      rewrite <- Ek, <- EnX.
      rewrite firstn_S_allTiles; [rewrite app_nil_r; reflexivity|assumption|].
      rewrite EnX. exact Hi.
    + cbn [tilesRead]. rewrite !app_nil_r. reflexivity.
Qed.

Lemma interruptedJob_createJob c : createJob (interruptedJob c) sampleDataset.
Proof.
  unfold createJob. simpl. repeat split; try reflexivity.
  exists (mkDriver true true). split; reflexivity.
Qed.

Lemma interruptedJob_ioOk c : ioOk (interruptedJob c).
Proof. intros band t. split; reflexivity. Qed.

Lemma cancelled_after_k_blocks_witness :
  exists r,
    process 601 (interruptedJob 11) = Some r /\
    lastSignal r = Some (finished false cancelledMsg) /\
    finishedCount (emitted r) = 1%nat /\
    tilesWritten 3 (calls r) = firstn 4 (allTiles 600 400) /\
    tilesRead (calls r) = firstn 5 (allTiles 600 400).
Proof.
  apply (cancelled_after_k_blocks (interruptedJob 11) sampleDataset 601 11 4).
  - apply interruptedJob_createJob.
  - apply interruptedJob_ioOk.
  - simpl; unfold maxRasterSize; lia.
  - simpl; unfold maxRasterSize; lia.
  - vm_compute; lia.
  - reflexivity.
  - vm_compute; lia.
  - right. vm_compute; lia.
  - vm_compute; lia.
Defined.

(** ** C10: the check after the loops *)

Lemma processData_true fuel e ds r r' :
  processData fuel e ds r = Some (true, r') ->
  (0 < loads r')%nat /\ flagAt e (pred (loads r')) = true.
Proof.
  unfold processData. intros H.
  destruct (rowLoop _ _ _ _ _ _ _ _ _ _) as [[fl r1]|] eqn:HR; [|discriminate].
  destruct fl as [c|b].
  - unfold load in H. destruct (flagAt e (loads r1)) eqn:Hf; simpl in H;
      inversion H; subst; clear H; simpl. split; [lia|exact Hf].
  - apply rowLoop_flowed in HR. destruct HR as [Hb _]. simpl in Hb.
    inversion H; subst. discriminate.
Qed.

(** C10.  A job on the Create path whose raster has n = nX * nY blocks and
    whose reads and writes succeed makes 2 n + nY loads of the flag in its
    loops; the load after them, number [nY * (2 nX + 1)], is the check
    after the loops.  (a) When the flag is cleared exactly there, after all
    n blocks have been written, the job still ends with
    [finished(false, "Conversion cancelled by user.")] as its only
    [finished] signal.  (b) When the flag is still set there, the job ends
    with [finished(true, "Conversion completed successfully: " + output)].
    (c) Whatever the reads and writes do, a job on this path that reports
    success has seen the flag set at its last load, the check after the
    loops. *)
Theorem cancelled_after_last_block (e : Env) (ds : Dataset) (fuel : nat) :
  let W := RasterXSize ds in
  let H := RasterYSize ds in
  let finalLoad := (blockCount H * (2 * blockCount W + 1))%nat in
  createJob e ds ->
  0 < W <= maxRasterSize -> 0 < H <= maxRasterSize ->
  (enoughFuel W H <= fuel)%nat ->
  (ioOk e -> interruptedAt e = Some finalLoad ->
   exists r,
     process fuel e = Some r /\
     lastSignal r = Some (finished false cancelledMsg) /\
     finishedCount (emitted r) = 1%nat /\
     tilesWritten (RasterCount ds) (calls r) = allTiles W H) /\
  (ioOk e -> flagAt e finalLoad = true ->
   exists r,
     process fuel e = Some r /\
     lastSignal r = Some (finished true
                            ("Conversion completed successfully: " ++ outputFile e)%string) /\
     finishedCount (emitted r) = 1%nat /\
     tilesWritten (RasterCount ds) (calls r) = allTiles W H) /\
  (forall r m,
     process fuel e = Some r -> lastSignal r = Some (finished true m) ->
     (0 < loads r)%nat /\ flagAt e (pred (loads r)) = true).
Proof.
  intros W H finalLoad Hjob HW HH Hf.
  assert (HW' : sizeOk W) by (unfold sizeOk; lia).
  assert (HH' : sizeOk H) by (unfold sizeOk; lia).
  pose proof (process_createJob fuel e ds Hjob) as Hproc.
  destruct (created_calls e ds) as [cs [Hcs [Hcw Hcr]]].
  assert (Hb : 0 < RasterCount ds) by (destruct Hjob as [_ [_ [_ [_ Hb]]]]; exact Hb).
  assert (Hall : ioOk e ->
            (forall k, (k < finalLoad)%nat -> flagAt e k = true) ->
            exists r ok,
              process fuel e = Some r /\
              ok = flagAt e finalLoad /\
              lastSignal r = Some (if ok
                 then finished true ("Conversion completed successfully: "
                                     ++ outputFile e)%string
                 else finished false cancelledMsg) /\
              tilesWritten (RasterCount ds) (calls r) = allTiles W H).
  { intros Hio Hfl.
    rewrite processData_all in Hproc; auto;
      [|rewrite created_loads; exact Hfl].
    rewrite created_loads in Hproc. fold W H in Hproc.
    change (0 + loadsOfRows W (blockCount H))%nat with finalLoad in Hproc.
    eexists. exists (flagAt e finalLoad). split; [exact Hproc|]. split; [reflexivity|].
    destruct (flagAt e finalLoad); unfold closeAndConclude, conclude;
      cbn [fst snd option_map].
    - split; [apply lastSignal_emit|]. cbn [calls call emit].
      rewrite Hcs, !tilesWritten_app, Hcw, tilesWritten_blocks by assumption.
      cbn [tilesWritten app]. rewrite ?app_nil_r. reflexivity.
    - split; [rewrite !lastSignal_call; apply lastSignal_emit|]. cbn [calls call emit].
      rewrite Hcs, !tilesWritten_app, Hcw, tilesWritten_blocks by assumption.
      cbn [tilesWritten app]. rewrite ?app_nil_r. reflexivity. }
  split; [|split].
  - intros Hio Hc.
    destruct (Hall Hio) as [r [ok [Hr [Hok [Hlast Hw]]]]].
    { intros k Hk. apply (flagAt_before e finalLoad); assumption. }
    rewrite (flagAt_after e finalLoad) in Hok by (auto; lia). subst ok.
    exists r. repeat split; auto.
    apply (endsFinished_start _ (process_endsFinished fuel e _ Hr)).
  - intros Hio Hc.
    destruct (Hall Hio) as [r [ok [Hr [Hok [Hlast Hw]]]]].
    { intros k Hk. unfold flagAt in *. destruct (interruptedAt e) as [c|]; [|reflexivity].
      apply Nat.ltb_lt. apply Nat.ltb_lt in Hc. lia. }
    rewrite Hc in Hok. subst ok.
    exists r. repeat split; auto.
    apply (endsFinished_start _ (process_endsFinished fuel e _ Hr)).
  - intros r m Hr Hlast. rewrite Hproc in Hr.
    destruct (processData fuel e ds (created e ds)) as [[ok r']|] eqn:HP;
      [|discriminate].
    simpl in Hr. inversion Hr; subst; clear Hr.
    destruct ok.
    + apply processData_true in HP. exact HP.
    + apply processData_answered in HP. unfold answered in HP; simpl in HP.
      apply endsWith_last in HP. destruct HP as [m' HP].
      unfold closeAndConclude, conclude in Hlast. cbn [fst snd] in Hlast.
      rewrite !lastSignal_call, HP in Hlast. discriminate.
Qed.

Lemma cancelled_after_last_block_witness :
  exists r,
    process 601 (interruptedJob 14) = Some r /\
    lastSignal r = Some (finished false cancelledMsg) /\
    finishedCount (emitted r) = 1%nat /\
    tilesWritten 3 (calls r) = allTiles 600 400.
Proof.
  apply (cancelled_after_last_block (interruptedJob 14) sampleDataset 601).
  - apply interruptedJob_createJob.
  - simpl; unfold maxRasterSize; lia.
  - simpl; unfold maxRasterSize; lia.
  - vm_compute; lia.
  - apply interruptedJob_ioOk.
  - reflexivity.
Defined.

(** ** Progress values of a run *)


Definition progressOfRun (r : Run) : list Float := progressValues (emitted r).





Lemma progressOfRun_load e r : progressOfRun (snd (load e r)) = progressOfRun r.
Proof. reflexivity. Qed.




























(** ** C7: the progress values of a job *)




(** ** C4: the progress values of the 600 by 400 raster *)





(** ** C6: one terminal signal *)



(** ** GDAL calls of a run *)

Section CallsAdded.

(** A property of calls that every [RasterIO] call has. *)
Variable P : Call -> bool.
Hypothesis P_read : forall band t, P (RasterRead band t) = true.
Hypothesis P_write : forall band t, P (RasterWrite band t) = true.

(** [r'] continues [r] with calls that all satisfy [P]. *)
Definition addsOnly (r r' : Run) : Prop :=
  exists cs, calls r' = calls r ++ cs /\ forallb P cs = true.

Lemma addsOnly_refl r : addsOnly r r.
Proof. exists []. rewrite app_nil_r. auto. Qed.

Lemma addsOnly_trans r1 r2 r3 : addsOnly r1 r2 -> addsOnly r2 r3 -> addsOnly r1 r3.
Proof.
  intros [c1 [E1 F1]] [c2 [E2 F2]]. exists (c1 ++ c2).
  rewrite E2, E1, app_assoc, forallb_app, F1, F2. auto.
Qed.

Lemma addsOnly_emit s r : addsOnly r (emit s r).
Proof. exact (addsOnly_refl r). Qed.

Lemma addsOnly_load e r : addsOnly r (snd (load e r)).
Proof. exact (addsOnly_refl r). Qed.

Lemma addsOnly_call c r : P c = true -> addsOnly r (call c r).
Proof. intros H. exists [c]. simpl. rewrite H. auto. Qed.

Lemma readBands_addsOnly e t bs : forall r, addsOnly r (snd (readBands e t bs r)).
Proof.
  induction bs as [|b bs IH]; intros r; simpl; [apply addsOnly_refl|].
  destruct (readOk e b t).
  - eapply addsOnly_trans; [apply addsOnly_call, P_read|apply IH].
  - simpl. eapply addsOnly_trans; [apply addsOnly_call, P_read|apply addsOnly_emit].
Qed.

Lemma writeBands_addsOnly e t bs : forall r, addsOnly r (snd (writeBands e t bs r)).
Proof.
  induction bs as [|b bs IH]; intros r; simpl; [apply addsOnly_refl|].
  destruct (writeOk e b t).
  - eapply addsOnly_trans; [apply addsOnly_call, P_write|apply IH].
  - simpl. eapply addsOnly_trans; [apply addsOnly_call, P_write|apply addsOnly_emit].
Qed.

Lemma processBlock_addsOnly e nXSize nBands totalBlocks y h x c r :
  addsOnly r (snd (processBlock e nXSize nBands totalBlocks y h x c r)).
Proof.
  unfold processBlock. set (t := mkTile _ _ _ _).
  pose proof (readBands_addsOnly e t (bandIndices nBands) r) as HR.
  destruct (readBands e t (bandIndices nBands) r) as [[|] r1]; simpl in HR; [|exact HR].
  unfold load. set (r2 := mkRun _ _ _).
  assert (H2 : addsOnly r r2) by exact HR.
  destruct (flagAt e (loads r1)); cbn [negb]; [|exact H2].
  pose proof (writeBands_addsOnly e t (bandIndices nBands) r2) as HW.
  destruct (writeBands e t (bandIndices nBands) r2) as [[|] r3]; simpl in HW |- *;
    eapply addsOnly_trans; eauto.
Qed.

Lemma columnLoop_addsOnly e nXSize nBands totalBlocks y h :
  forall fuel x c r res,
    columnLoop fuel e nXSize nBands totalBlocks y h x c r = Some res ->
    addsOnly r (snd res).
Proof.
  induction fuel as [|fuel IH]; intros x c r res H; [discriminate|].
  rewrite columnLoop_S in H.
  destruct (x <? nXSize); [|inversion H; subst; exact (addsOnly_refl r)].
  unfold load in H. destruct (flagAt e (loads r)); [|inversion H; subst; exact (addsOnly_refl r)].
  set (r1 := mkRun _ _ _) in H.
  pose proof (processBlock_addsOnly e nXSize nBands totalBlocks y h x c r1) as HB.
  destruct (processBlock _ _ _ _ _ _ _ _ _) as [[c'|b] r2]; simpl in HB.
  - apply IH in H. eapply addsOnly_trans; [exact HB|exact H].
  - inversion H; subst. exact HB.
Qed.

Lemma rowLoop_addsOnly e nXSize nYSize nBands totalBlocks fuelX :
  forall fuel y c r res,
    rowLoop fuel fuelX e nXSize nYSize nBands totalBlocks y c r = Some res ->
    addsOnly r (snd res).
Proof.
  induction fuel as [|fuel IH]; intros y c r res H; [discriminate|].
  rewrite rowLoop_S in H.
  destruct (y <? nYSize); [|inversion H; subst; exact (addsOnly_refl r)].
  unfold load in H. destruct (flagAt e (loads r)); [|inversion H; subst; exact (addsOnly_refl r)].
  destruct (columnLoop _ _ _ _ _ _ _ _ _ _) as [[fl r2]|] eqn:HC; [|discriminate].
  apply columnLoop_addsOnly in HC. simpl in HC.
  destruct fl as [c'|b].
  - apply IH in H. eapply addsOnly_trans; [exact HC|exact H].
  - inversion H; subst. exact HC.
Qed.

Lemma processData_addsOnly fuel e ds r res :
  processData fuel e ds r = Some res -> addsOnly r (snd res).
Proof.
  unfold processData. intros H.
  destruct (rowLoop _ _ _ _ _ _ _ _ _ _) as [[fl r1]|] eqn:HR; [|discriminate].
  apply rowLoop_addsOnly in HR. simpl in HR.
  destruct fl as [c|b].
  - unfold load in H. destruct (flagAt e (loads r1)); simpl in H;
      inversion H; subst; exact HR.
  - inversion H; subst. exact HR.
Qed.

End CallsAdded.

Definition isCreate (c : Call) : bool :=
  match c with Create _ _ _ _ => true | _ => false end.

Definition isCreateCopy (c : Call) : bool :=
  match c with CreateCopy _ => true | _ => false end.

Lemma prepared_calls e :
  calls (prepared e) = [GDALOpenEx (inputFile e); GetDriverByName (outputDriverName e)].
Proof. unfold prepared. rewrite setOptions_calls. reflexivity. Qed.

Lemma existsb_forallb_negb {A} (f : A -> bool) l :
  forallb (fun x => negb (f x)) l = true -> existsb f l = false.
Proof.
  induction l as [|a l IH]; [reflexivity|].
  simpl. intros H. apply andb_prop in H. destruct H as [Ha Hl].
  rewrite (IH Hl). destruct (f a); [discriminate|reflexivity].
Qed.

(** The Create method logs its name first and never calls [CreateCopy]. *)
Lemma processWithCreateMethod_trace fuel e ds r res :
  processWithCreateMethod fuel e ds r = Some res ->
  (exists l, emitted (snd res) = emitted r ++ logMessage "Using Create method." :: l) /\
  addsOnly (fun c => negb (isCreateCopy c)) r (snd res).
Proof.
  set (P := fun c => negb (isCreateCopy c)).
  unfold processWithCreateMethod. intros H.
  destruct (RasterCount ds =? 0).
  { injection H as <-. split; [eexists; simpl; rewrite <- app_assoc; reflexivity|].
    exact (addsOnly_refl P r). }
  destruct (createResult e); cbn [negb] in H.
  2:{ injection H as <-. split; [eexists; simpl; rewrite <- app_assoc; reflexivity|].
      exact (addsOnly_call P (Create (outputFile e) (RasterXSize ds) (RasterYSize ds)
                                (RasterCount ds)) r eq_refl). }
  match type of H with context [processData fuel e ds ?x] => set (r3 := x) in H end.
  assert (H3 : addsOnly P r r3 /\
               emitted r3 = emitted r ++ [logMessage "Using Create method."]).
  { subst r3. unfold addsOnly.
    destruct (hasProjection ds), (hasGeoTransform ds); split; try reflexivity;
      (eexists; split; [simpl; rewrite <- ?app_assoc; reflexivity|reflexivity]). }
  destruct H3 as [Hc3 He3]. clearbody r3.
  destruct (processData fuel e ds r3) as [[ok r4]|] eqn:HP; [|discriminate].
  injection H as <-. simpl snd.
  pose proof (processData_addsOnly P (fun _ _ => eq_refl) (fun _ _ => eq_refl)
                fuel e ds r3 _ HP) as Hc4.
  apply processData_answered in HP. unfold answered in HP. simpl in HP, Hc4.
  split.
  - destruct ok.
    + destruct HP as [l [E _]]. exists l. simpl. rewrite E, He3, <- app_assoc. reflexivity.
    + destruct HP as [l [m [E _]]]. eexists. simpl.
      rewrite E, He3, <- app_assoc. reflexivity.
  - eapply addsOnly_trans; [exact Hc3|].
    eapply addsOnly_trans; [exact Hc4|].
    exact (addsOnly_call P (GDALClose OutputDataset) r4 eq_refl).
Qed.

Lemma driverCopy_calls e reports :
  forall r, calls (snd (driverCopy e reports r)) = calls r.
Proof.
  induction reports as [|q reports IH]; intros r; [reflexivity|].
  simpl. unfold progressCallback, load. destruct (flagAt e (loads r)); [|reflexivity].
  rewrite IH. reflexivity.
Qed.

(** The CreateCopy method logs its name first, calls [CreateCopy] on the
    output path, and apart from closing what it got calls nothing else. *)
Lemma processWithCreateCopyMethod_trace e r :
  let res := processWithCreateCopyMethod e r in
  (exists l, emitted (snd res) = emitted r ++ logMessage "Using CreateCopy method." :: l) /\
  (calls (snd res) = calls r ++ [CreateCopy (outputFile e)] \/
   calls (snd res) = calls r ++ [CreateCopy (outputFile e); GDALClose OutputDataset]).
Proof.
  unfold processWithCreateCopyMethod.
  set (r1 := call _ (emit _ r)).
  pose proof (driverCopy_calls e (copyProgress e) r1) as Hc.
  pose proof (driverCopy_quiet e (copyProgress e) r1) as [l [Hq _]].
  destruct (driverCopy e (copyProgress e) r1) as [[|] r2]; simpl in Hc, Hq |- *.
  - split; [exists l; rewrite Hq; simpl; rewrite <- app_assoc; reflexivity|].
    right. rewrite Hc. simpl. rewrite <- app_assoc. reflexivity.
  - split; [eexists; rewrite Hq; simpl; rewrite <- !app_assoc; reflexivity|].
    left. rewrite Hc. reflexivity.
Qed.

(** ** C3: the choice of the method *)

(** C3.  In a CPU job whose source opens and whose output driver is found,
    the capabilities of the driver decide what [process] does, in this
    order.  With [DCAP_CREATE], whatever [DCAP_CREATECOPY] is, it runs
    [processWithCreateMethod] (and every run it returns has logged
    "Using Create method." and has not called [CreateCopy]).  Otherwise,
    with [DCAP_CREATECOPY], it runs [processWithCreateCopyMethod] (the run
    has logged "Using CreateCopy method.", has called [CreateCopy] on the
    output path and has not called [Create]).  Otherwise it ends at once
    with [finished(false, "Output driver does not support Create or
    CreateCopy methods.")], having touched nothing of the output. *)
Theorem strategy_selection (e : Env) (ds : Dataset) (d : Driver) (fuel : nat) :
  processingMode e = CPU -> openResult e = Some ds -> driverResult e = Some d ->
  let r6 := emit (logMessage "Processing mode: CPU") (prepared e) in
  if DCAP_CREATE d then
    process fuel e = option_map (conclude e) (processWithCreateMethod fuel e ds r6) /\
    (forall r, process fuel e = Some r ->
       In (logMessage "Using Create method.") (emitted r) /\
       existsb isCreateCopy (calls r) = false)
  else if DCAP_CREATECOPY d then
    process fuel e = Some (conclude e (processWithCreateCopyMethod e r6)) /\
    (exists r, process fuel e = Some r /\
       In (logMessage "Using CreateCopy method.") (emitted r) /\
       In (CreateCopy (outputFile e)) (calls r) /\
       existsb isCreate (calls r) = false)
  else
    exists r,
      process fuel e = Some r /\
      emitted r = emitted r6 ++
        [finished false "Output driver does not support Create or CreateCopy methods."] /\
      finishedCount (emitted r) = 1%nat /\
      existsb touchesOutput (calls r) = false.
Proof.
  intros Hm Ho Hd r6.
  assert (Hproc : process fuel e =
            if DCAP_CREATE d then
              option_map (conclude e) (processWithCreateMethod fuel e ds r6)
            else if DCAP_CREATECOPY d then
              Some (conclude e (processWithCreateCopyMethod e r6))
            else Some (emit (finished false
                         "Output driver does not support Create or CreateCopy methods.")
                         (call (GDALClose SourceDataset) r6))).
  { unfold process. rewrite Ho, Hd, Hm. reflexivity. }
  assert (Hcalls6 : calls r6 = [GDALOpenEx (inputFile e);
                                GetDriverByName (outputDriverName e)])
    by (subst r6; simpl; apply prepared_calls).
  clearbody r6.
  destruct (DCAP_CREATE d); [|destruct (DCAP_CREATECOPY d)].
  - split; [exact Hproc|]. intros r Hr. rewrite Hproc in Hr.
    destruct (processWithCreateMethod fuel e ds r6) as [[ok r7]|] eqn:HC; [|discriminate].
    destruct (processWithCreateMethod_trace _ _ _ _ _ HC) as [[l Hl] [cs [Hcs Hf]]].
    simpl in Hl, Hcs. cbn [option_map] in Hr.
    assert (E : r = conclude e (ok, r7)) by congruence. subst r. clear Hr.
    split.
    + assert (In (logMessage "Using Create method.") (emitted r7))
        by (rewrite Hl; apply in_or_app; right; left; reflexivity).
      unfold conclude. destruct ok; simpl; auto.
      apply in_or_app; left. apply in_or_app; left. assumption.
    + assert (existsb isCreateCopy (calls r7) = false).
      { rewrite Hcs, Hcalls6, existsb_app. simpl.
        apply existsb_forallb_negb. exact Hf. }
      unfold conclude. destruct ok; simpl; rewrite existsb_app, H; reflexivity.
  - split; [exact Hproc|]. eexists. split; [exact Hproc|].
    destruct (processWithCreateCopyMethod_trace e r6) as [[l Hl] Hc].
    destruct (processWithCreateCopyMethod e r6) as [ok r7]. simpl in Hl, Hc.
    assert (In (logMessage "Using CreateCopy method.") (emitted r7))
      by (rewrite Hl; apply in_or_app; right; left; reflexivity).
    assert (In (CreateCopy (outputFile e)) (calls r7) /\
            existsb isCreate (calls r7) = false).
    { rewrite Hcalls6 in Hc. destruct Hc as [-> | ->]; simpl; auto. }
    unfold conclude. destruct ok; simpl.
    + split; [apply in_or_app; left; apply in_or_app; left; assumption|].
      split; [apply in_or_app; left; tauto|].
      rewrite existsb_app. destruct H0 as [_ ->]. reflexivity.
    + split; [assumption|]. split; [apply in_or_app; left; tauto|].
      rewrite existsb_app. destruct H0 as [_ ->]. reflexivity.
  - eexists. split; [exact Hproc|]. split; [reflexivity|]. split.
    + assert (He : process fuel e = Some (emit (finished false
                     "Output driver does not support Create or CreateCopy methods.")
                     (call (GDALClose SourceDataset) r6))) by exact Hproc.
      apply (endsFinished_start _ (process_endsFinished fuel e _ He)).
    + simpl. rewrite Hcalls6. reflexivity.
Qed.

Lemma strategy_selection_witness :
  process 601 sampleEnv =
    option_map (conclude sampleEnv)
      (processWithCreateMethod 601 sampleEnv sampleDataset
         (emit (logMessage "Processing mode: CPU") (prepared sampleEnv))) /\
  (forall r, process 601 sampleEnv = Some r ->
     In (logMessage "Using Create method.") (emitted r) /\
     existsb isCreateCopy (calls r) = false).
Proof.
  exact (strategy_selection sampleEnv sampleDataset (mkDriver true true) 601
           eq_refl eq_refl eq_refl).
Defined.

(** ** C8: the source does not open *)

(** C8.  When [GDALOpenEx] gives no dataset, [process] ends at once: its
    signals are the starting log line and
    [finished(false, "Failed to open input file: " + input + "\nGDAL Error: "
    + CPLGetLastErrorMsg())], the message GDAL holds after the failed
    open; the only GDAL call of the run is that [GDALOpenEx]: the output
    driver is not looked up and nothing of the output is touched. *)
Theorem open_failure (e : Env) (fuel : nat) :
  openResult e = None ->
  exists r,
    process fuel e = Some r /\
    emitted r =
      [logMessage "Starting GDAL conversion...";
       finished false ("Failed to open input file: " ++ inputFile e ++ newline
                       ++ "GDAL Error: "
                       ++ lastErrorMsg e [GDALOpenEx (inputFile e)])%string] /\
    calls r = [GDALOpenEx (inputFile e)] /\
    existsb isDriverLookup (calls r) = false /\
    existsb touchesOutput (calls r) = false /\
    loads r = 0%nat.
Proof.
  intros Ho. unfold process. rewrite Ho.
  eexists. split; [reflexivity|]. repeat split.
Qed.

Lemma open_failure_witness :
  exists r,
    process 0 unreadableJob = Some r /\
    emitted r =
      [logMessage "Starting GDAL conversion...";
       finished false ("Failed to open input file: missing.tif" ++ newline
                       ++ "GDAL Error: missing.tif: No such file or directory")%string] /\
    calls r = [GDALOpenEx "missing.tif"] /\
    existsb isDriverLookup (calls r) = false /\
    existsb touchesOutput (calls r) = false /\
    loads r = 0%nat.
Proof.
  exact (open_failure unreadableJob 0 eq_refl).
Defined.

(** ** C9: a source without raster bands *)

(** C9.  On the Create path (CPU mode, source opened, driver found with
    [DCAP_CREATE]), a source with zero raster bands ends the job with
    [finished(false, "Input dataset has no raster bands.")], its only
    [finished] signal, before [Create] is called: the GDAL calls of the
    run are the open of the source, the driver lookup and the close of the
    source, and none of them touches the output. *)
Theorem no_raster_bands (e : Env) (ds : Dataset) (d : Driver) (fuel : nat) :
  processingMode e = CPU -> openResult e = Some ds ->
  driverResult e = Some d -> DCAP_CREATE d = true ->
  RasterCount ds = 0 ->
  exists r,
    process fuel e = Some r /\
    lastSignal r = Some (finished false "Input dataset has no raster bands.") /\
    finishedCount (emitted r) = 1%nat /\
    calls r = [GDALOpenEx (inputFile e); GetDriverByName (outputDriverName e);
               GDALClose SourceDataset] /\
    existsb touchesOutput (calls r) = false.
Proof.
  intros Hm Ho Hd Hc Hb.
  assert (Hproc : process fuel e =
            Some (call (GDALClose SourceDataset)
                    (emit (finished false "Input dataset has no raster bands.")
                       (emit (logMessage "Using Create method.")
                          (emit (logMessage "Processing mode: CPU") (prepared e)))))).
  { unfold process, processWithCreateMethod. rewrite Ho, Hd, Hm, Hc, Hb. reflexivity. }
  eexists. split; [exact Hproc|]. split; [|split; [|split]].
  - rewrite lastSignal_call. apply lastSignal_emit.
  - apply (endsFinished_start _ (process_endsFinished fuel e _ Hproc)).
  - simpl. rewrite prepared_calls. reflexivity.
  - simpl. rewrite prepared_calls. reflexivity.
Qed.

Lemma no_raster_bands_witness :
  exists r,
    process 0 bandlessJob = Some r /\
    lastSignal r = Some (finished false "Input dataset has no raster bands.") /\
    finishedCount (emitted r) = 1%nat /\
    calls r = [GDALOpenEx "empty.tif"; GetDriverByName "GTiff";
               GDALClose SourceDataset] /\
    existsb touchesOutput (calls r) = false.
Proof.
  exact (no_raster_bands bandlessJob (mkDataset 600 400 0 false false)
           (mkDriver true true) 0 eq_refl eq_refl eq_refl eq_refl eq_refl).
Defined.

(** ** Rounding to [float] *)

Module Binary32Facts.

Import Binary32.

Lemma roundHalfEven_cases num den :
  0 < den ->
  let q := num / den in
  let r := num mod den in
  (roundHalfEven num den = q /\ 2 * r <= den) \/
  (roundHalfEven num den = q + 1 /\ den <= 2 * r).
Proof.
  intros Hd q r. unfold roundHalfEven. fold q r.
  destruct (Z.ltb_spec (2 * r) den); [left; split; [reflexivity|lia]|].
  destruct (Z.ltb_spec den (2 * r)); [right; split; [reflexivity|lia]|].
  destruct (Z.even q); [left|right]; split; try reflexivity; lia.
Qed.

(** The rounded quotient is at least every integer below the quotient. *)
Lemma roundHalfEven_ge num den n :
  0 < den -> n * den <= num -> n <= roundHalfEven num den.
Proof.
  intros Hd Hn.
  assert (n <= num / den) by (apply Z.div_le_lower_bound; lia).
  destruct (roundHalfEven_cases num den Hd) as [[-> _]|[-> _]]; lia.
Qed.

(** It is within half a unit of the quotient. *)
Lemma roundHalfEven_error num den :
  0 < den ->
  2 * num - den <= 2 * (roundHalfEven num den * den) <= 2 * num + den.
Proof.
  intros Hd.
  pose proof (Z.div_mod num den ltac:(lia)) as E.
  pose proof (Z.mod_pos_bound num den Hd) as Hr.
  destruct (roundHalfEven_cases num den Hd) as [[-> H]|[-> H]]; nia.
Qed.

Lemma roundHalfEven_exact n den : 0 < den -> roundHalfEven (n * den) den = n.
Proof.
  intros Hd. unfold roundHalfEven.
  rewrite Z.div_mul, Z.mod_mul by lia.
  destruct (Z.ltb_spec (2 * 0) den); [reflexivity|lia].
Qed.

(** [floorLog2 a b] is the exponent L with 2^L <= a / b < 2^(L+1). *)
Lemma floorLog2_spec a b :
  0 < a -> 0 < b ->
  let L := floorLog2 a b in
  (0 <= L -> b * 2 ^ L <= a < b * 2 ^ (L + 1)) /\
  (L < 0 -> b <= a * 2 ^ (- L) /\ a * 2 ^ (- L - 1) < b).
Proof.
  intros Ha Hb L. subst L. unfold floorLog2.
  pose proof (Z.log2_spec a Ha) as [Ha1 Ha2].
  pose proof (Z.log2_spec b Hb) as [Hb1 Hb2].
  pose proof (Z.log2_nonneg a) as Hla. pose proof (Z.log2_nonneg b) as Hlb.
  set (la := Z.log2 a) in *. set (lb := Z.log2 b) in *.
  unfold Z.succ in *.
  assert (P1 : 2 ^ (la + 1) = 2 * 2 ^ la) by (rewrite Z.pow_add_r by lia; lia).
  assert (P2 : 2 ^ (lb + 1) = 2 * 2 ^ lb) by (rewrite Z.pow_add_r by lia; lia).
  assert (Pa : 0 < 2 ^ la) by (apply Z.pow_pos_nonneg; lia).
  assert (Pb : 0 < 2 ^ lb) by (apply Z.pow_pos_nonneg; lia).
  destruct (Z.leb_spec 0 (la - lb)) as [Hk|Hk].
  - (* k >= 0 *)
    assert (Pk : 2 ^ la = 2 ^ lb * 2 ^ (la - lb))
      by (rewrite <- Z.pow_add_r by lia; f_equal; lia).
    assert (Pk0 : 0 < 2 ^ (la - lb)) by (apply Z.pow_pos_nonneg; lia).
    destruct (Z.leb_spec (b * 2 ^ (la - lb)) a) as [Ht|Ht].
    + split; [|lia]. intros _.
      rewrite Z.pow_add_r by lia. change (2 ^ 1) with 2. split; [exact Ht|]. nia.
    + destruct (Z.eq_dec (la - lb) 0) as [E0|E0].
      * rewrite E0 in *. change (2 ^ 0) with 1 in *. split; [lia|]. intros _.
        change (- (0 - 1)) with 1. change (- (0 - 1) - 1) with 0.
        change (2 ^ 1) with 2. change (2 ^ 0) with 1. split; nia.
      * split; [|lia]. intros _.
        replace (la - lb - 1 + 1) with (la - lb) by lia. split; [|exact Ht].
        assert (Pk1 : 2 ^ (la - lb) = 2 * 2 ^ (la - lb - 1)).
        { replace (la - lb) with (la - lb - 1 + 1) at 1 by lia.
          rewrite Z.pow_add_r by lia. change (2 ^ 1) with 2. lia. }
        assert (0 < 2 ^ (la - lb - 1)) by (apply Z.pow_pos_nonneg; lia).
        nia.
  - (* k < 0 *)
    assert (Pk : 2 ^ lb = 2 ^ la * 2 ^ (- (la - lb)))
      by (rewrite <- Z.pow_add_r by lia; f_equal; lia).
    assert (Pk0 : 0 < 2 ^ (- (la - lb))) by (apply Z.pow_pos_nonneg; lia).
    destruct (Z.leb_spec b (a * 2 ^ (- (la - lb)))) as [Ht|Ht].
    + split; [lia|]. intros _. split; [exact Ht|].
      assert (Pk1 : 2 ^ (- (la - lb)) = 2 * 2 ^ (- (la - lb) - 1)).
      { replace (- (la - lb)) with (- (la - lb) - 1 + 1) at 1 by lia.
        rewrite Z.pow_add_r by lia. change (2 ^ 1) with 2. lia. }
      assert (0 < 2 ^ (- (la - lb) - 1)) by (apply Z.pow_pos_nonneg; lia).
      nia.
    + split; [lia|]. intros _.
      replace (- (la - lb - 1) - 1) with (- (la - lb)) by lia.
      split; [|exact Ht].
      replace (- (la - lb - 1)) with (- (la - lb) + 1) by lia.
      rewrite Z.pow_add_r by lia. change (2 ^ 1) with 2. nia.
Qed.

End Binary32Facts.

(** What rounding does to a rational a / b >= 1 that is at most 2^62: the
    result is finite, within a relative error of 2^-24, and at least every
    integer up to 2^24 that the rational is at least. *)
Lemma roundPositive_spec a b :
  0 < a -> 0 < b -> b <= a -> a <= 2 ^ 62 * b ->
  exists v,
    Binary32.roundPositive a b = Some v /\
    let n := Qnum v in
    let d := Zpos (Qden v) in
    (2 ^ 24 - 1) * (a * d) <= 2 ^ 24 * (n * b) <= (2 ^ 24 + 1) * (a * d) /\
    (forall r, 0 <= r <= 2 ^ 24 -> r * b <= a -> r * d <= n).
Proof.
  intros Ha Hb Hab Hmax. unfold Binary32.roundPositive.
  pose proof (Binary32Facts.floorLog2_spec a b Ha Hb) as [Hpos Hneg].
  set (L := Binary32.floorLog2 a b) in *.
  assert (HL : 0 <= L).
  { destruct (Z.le_gt_cases 0 L) as [|Hn]; [assumption|].
    destruct (Hneg Hn) as [_ Hu].
    assert (0 < 2 ^ (- L - 1)) by (apply Z.pow_pos_nonneg; lia). nia. }
  destruct (Hpos HL) as [Hlo Hhi]. clear Hpos Hneg.
  rewrite Z.max_l by lia.
  destruct (Z.leb_spec 0 (L - 23)) as [He|He].
  - (* the spacing of the floats is 2^e >= 1 *)
    set (e := L - 23) in *.
    assert (Pe : 0 < 2 ^ e) by (apply Z.pow_pos_nonneg; lia).
    assert (PL : 2 ^ L = 2 ^ e * 2 ^ 23)
      by (rewrite <- Z.pow_add_r by lia; f_equal; unfold e; lia).
    set (D := b * 2 ^ e) in *.
    assert (HD : 0 < D) by (unfold D; nia).
    assert (HDa : D * 2 ^ 23 <= a) by (unfold D; nia).
    pose proof (Binary32Facts.roundHalfEven_error a D HD) as Herr.
    pose proof (Binary32Facts.roundHalfEven_ge a D (2 ^ 23) HD ltac:(lia)) as Hm.
    set (m := Binary32.roundHalfEven a D) in *.
    assert (Hfin : m * 2 ^ e < 2 ^ 128).
    { assert (m * D <= 2 * a) by nia.
      assert (m * 2 ^ e * b <= 2 ^ 63 * b) by (unfold D in *; nia).
      assert (m * 2 ^ e <= 2 ^ 63) by nia.
      assert (2 ^ 63 < 2 ^ 128) by (apply Z.pow_lt_mono_r; lia). lia. }
    destruct (Z.leb_spec (2 ^ 128) (m * 2 ^ e)); [lia|].
    eexists. split; [reflexivity|]. cbn [Qnum Qden inject_Z].
    split.
    + unfold D in *. nia.
    + intros r Hr Hrb.
      destruct (Z.eq_dec e 0) as [E0|E0].
      * assert (E1 : 2 ^ e = 1) by (rewrite E0; reflexivity).
        pose proof (Binary32Facts.roundHalfEven_ge a D r HD) as Hge. fold m in Hge.
        assert (r * D <= a) by (unfold D; nia).
        nia.
      * assert (2 <= 2 ^ e).
        { change 2 with (2 ^ 1) at 1. apply Z.pow_le_mono_r; lia. }
        nia.
  - (* the spacing of the floats is 2^e < 1 *)
    set (s := 2 ^ (- (L - 23))).
    assert (Ps : 0 < s) by (apply Z.pow_pos_nonneg; lia).
    assert (PL : 2 ^ L * s = 2 ^ 23)
      by (unfold s; rewrite <- Z.pow_add_r by lia; f_equal; lia).
    pose proof (Binary32Facts.roundHalfEven_error (a * s) b Hb) as Herr.
    set (m := Binary32.roundHalfEven (a * s) b) in *.
    eexists. split; [reflexivity|]. cbn [Qnum Qden].
    rewrite Z2Pos.id by exact Ps.
    split.
    + nia.
    + intros r Hr Hrb. apply Binary32Facts.roundHalfEven_ge; [assumption|]. nia.
Qed.

(** Integers below 2^24 are [float]s: the conversion is exact. *)
Lemma ofInt_exact n :
  0 < n < 2 ^ 24 ->
  exists v, Binary32.ofInt n = Finite v /\ 0 < Qnum v /\
            Qnum v = n * Zpos (Qden v).
Proof.
  intros Hn. unfold Binary32.ofInt, Binary32.round. cbn [Qnum Qden inject_Z].
  destruct n as [|p|p]; try lia.
  unfold Binary32.roundPositive.
  pose proof (Binary32Facts.floorLog2_spec (Zpos p) 1 ltac:(lia) ltac:(lia))
    as [Hpos Hneg].
  set (L := Binary32.floorLog2 (Zpos p) 1) in *.
  assert (HL : 0 <= L).
  { destruct (Z.le_gt_cases 0 L) as [|Hl]; [assumption|].
    destruct (Hneg Hl) as [_ Hu].
    assert (0 < 2 ^ (- L - 1)) by (apply Z.pow_pos_nonneg; lia). nia. }
  destruct (Hpos HL) as [Hlo _]. clear Hpos Hneg.
  assert (HL24 : L < 24).
  { destruct (Z.lt_ge_cases L 24) as [|Hge]; [assumption|].
    assert (2 ^ 24 <= 2 ^ L) by (apply Z.pow_le_mono_r; lia). lia. }
  rewrite Z.max_l by lia.
  destruct (Z.leb_spec 0 (L - 23)) as [He|He].
  - replace (L - 23) with 0 by lia. change (2 ^ 0) with 1.
    change (1 * 1) with 1.
    pose proof (Binary32Facts.roundHalfEven_exact (Zpos p) 1 ltac:(lia)) as Er.
    rewrite Z.mul_1_r in Er. rewrite Er.
    destruct (Z.leb_spec (2 ^ 128) (Zpos p * 1)) as [Hov|_].
    { assert (2 ^ 24 < 2 ^ 128) by (apply Z.pow_lt_mono_r; lia). lia. }
    eexists. split; [reflexivity|]. cbn [Qnum Qden inject_Z]. lia.
  - set (s := 2 ^ (- (L - 23))).
    assert (Ps : 0 < s) by (apply Z.pow_pos_nonneg; lia).
    pose proof (Binary32Facts.roundHalfEven_exact (Zpos p * s) 1 ltac:(lia)) as Er.
    rewrite Z.mul_1_r in Er. rewrite Er.
    eexists. split; [reflexivity|]. cbn [Qnum Qden].
    rewrite Z2Pos.id by exact Ps. split; [nia|reflexivity].
Qed.

Lemma round_positive x :
  0 < Qnum x ->
  Binary32.round x =
  match Binary32.roundPositive (Qnum x) (Zpos (Qden x)) with
  | Some v => Finite v
  | None => Infinite false
  end.
Proof.
  unfold Binary32.round. destruct (Qnum x); intros H; try lia. reflexivity.
Qed.

(** The [float] quotient of an elapsed time below 2^24 ms by a progress
    value in (0,1] that is not too small: it is finite, at least the
    elapsed time, and within a relative error of 2^-24 of the exact
    quotient. *)
Lemma quotient_spec (q : Q) (elapsed : Z) :
  (0 < q)%Q -> (q <= 1)%Q -> 0 < elapsed < 2 ^ 24 ->
  (inject_Z elapsed <= inject_Z (2 ^ 62) * q)%Q ->
  exists v2,
    Binary32.div (Binary32.ofInt elapsed) (Finite q) = Finite v2 /\
    (inject_Z elapsed <= v2)%Q /\
    (v2 * inject_Z (2 ^ 24) <= (inject_Z elapsed / q) * inject_Z (2 ^ 24 + 1))%Q /\
    ((inject_Z elapsed / q) * inject_Z (2 ^ 24 - 1) <= v2 * inject_Z (2 ^ 24))%Q.
Proof.
  intros Hq0 Hq1 He Hmax.
  destruct (ofInt_exact elapsed He) as [v [Hv [Hvn Hvd]]].
  rewrite Hv. unfold Binary32.div.
  assert (Hqne : Qeq_bool q 0 = false).
  { destruct (Qeq_bool q 0) eqn:E; [|reflexivity].
    apply Qeq_bool_eq in E. rewrite E in Hq0. discriminate. }
  rewrite Hqne. clear Hqne Hv.
  destruct q as [qn qd]. destruct v as [vn vd]. cbn [Qnum Qden] in *.
  unfold Qlt, Qle, Qmult in Hq0, Hq1, Hmax.
  cbn [Qnum Qden inject_Z] in Hq0, Hq1, Hmax.
  destruct qn as [|p|p]; try lia.
  rewrite Pos.mul_1_l in Hmax.
  assert (Ea : Qnum ((vn # vd) / (Zpos p # qd)) = vn * Zpos qd) by reflexivity.
  assert (Eb : Zpos (Qden ((vn # vd) / (Zpos p # qd))) = Zpos vd * Zpos p) by reflexivity.
  rewrite round_positive by (rewrite Ea; apply Z.mul_pos_pos; lia).
  rewrite Ea, Eb. clear Ea Eb.
  (* name the positive quantities *)
  remember (Zpos p) as P eqn:EP. remember (Zpos qd) as Qd eqn:EQd.
  remember (Zpos vd) as Vd eqn:EVd.
  assert (HP : 0 < P) by lia. assert (HQd : 0 < Qd) by lia.
  assert (HVd : 0 < Vd) by lia.
  assert (HPQ : P <= Qd) by lia.
  assert (Hmax' : elapsed * Qd <= 2 ^ 62 * P) by lia.
  clear EVd Hq0 Hq1 Hmax.
  subst vn.
  assert (G1 : 0 < elapsed * Vd * Qd) by (apply Z.mul_pos_pos; nia).
  assert (G2 : 0 < Vd * P) by (apply Z.mul_pos_pos; assumption).
  assert (G3 : Vd * P <= elapsed * Vd * Qd).
  { assert (Vd * P <= Vd * Qd) by (apply Z.mul_le_mono_nonneg_l; lia).
    assert (1 * (Vd * Qd) <= elapsed * (Vd * Qd))
      by (apply Z.mul_le_mono_nonneg_r; nia).
    lia. }
  assert (G4 : elapsed * Vd * Qd <= 2 ^ 62 * (Vd * P)).
  { replace (elapsed * Vd * Qd) with (Vd * (elapsed * Qd)) by ring.
    replace (2 ^ 62 * (Vd * P)) with (Vd * (2 ^ 62 * P)) by ring.
    apply Z.mul_le_mono_nonneg_l; lia. }
  destruct (roundPositive_spec (elapsed * Vd * Qd) (Vd * P) G1 G2 G3 G4)
    as [v2 [Hr [[Hb1 Hb2] Hge]]].
  rewrite Hr. exists v2. split; [reflexivity|].
  destruct v2 as [n2 d2]. cbn [Qnum Qden] in *.
  assert (Hge' : elapsed * Zpos d2 <= n2).
  { apply Hge; [lia|].
    replace (elapsed * (Vd * P)) with (elapsed * Vd * P) by ring.
    apply Z.mul_le_mono_nonneg_l; nia. }
  clear Hr Hge.
  remember (Zpos d2) as D2 eqn:ED2. assert (HD2 : 0 < D2) by lia.
  rewrite EP. unfold Qle, Qdiv, Qmult, Qinv. cbn [Qnum Qden inject_Z].
  rewrite ?Pos.mul_1_r, ?Z.mul_1_r, ?Pos.mul_1_l, <- ?ED2, <- ?EP, <- ?EQd.
  split; [exact Hge'|].
  split.
  - (* cancel Vd *)
    apply (Z.mul_le_mono_pos_l _ _ Vd HVd).
    replace (Vd * (n2 * 2 ^ 24 * P)) with (2 ^ 24 * (n2 * (Vd * P))) by ring.
    replace (Vd * (elapsed * Qd * (2 ^ 24 + 1) * D2))
      with ((2 ^ 24 + 1) * (elapsed * Vd * Qd * D2)) by ring.
    exact Hb2.
  - apply (Z.mul_le_mono_pos_l _ _ Vd HVd).
    replace (Vd * (n2 * 2 ^ 24 * P)) with (2 ^ 24 * (n2 * (Vd * P))) by ring.
    replace (Vd * (elapsed * Qd * (2 ^ 24 - 1) * D2))
      with ((2 ^ 24 - 1) * (elapsed * Vd * Qd * D2)) by ring.
    exact Hb1.
Qed.

Lemma wrap64_small z : - 2 ^ 63 <= z < 2 ^ 63 -> wrap64 z = z.
Proof.
  intros H. unfold wrap64.
  change (2 ^ 64) with 18446744073709551616 in *.
  change (2 ^ 63) with 9223372036854775808 in *.
  rewrite Z.mod_small; lia.
Qed.

Lemma inUnitRange_spec q :
  Binary32.inUnitRange (Finite q) = true <-> (0 < q /\ q <= 1)%Q.
Proof.
  unfold Binary32.inUnitRange. rewrite andb_true_iff, negb_true_iff.
  rewrite Qle_bool_iff. split.
  - intros [H0 H1]. split; [|exact H1].
    apply Qnot_le_lt. intros Hle. apply Qle_bool_iff in Hle. congruence.
  - intros [H0 H1]. split; [|exact H1].
    destruct (Qle_bool q 0) eqn:E; [|reflexivity].
    apply Qle_bool_iff in E. exfalso. apply (Qlt_not_le _ _ H0 E).
Qed.

(** ** C5: the estimated time remaining *)

(** C5, amended.  (a) For a progress value in (0,1] and an elapsed time of
    less than 2^24 ms (which the conversion to [float] keeps exact), with
    elapsed / progress at most 2^62, the estimate is the [float] quotient
    elapsed / progress truncated to whole milliseconds, minus the elapsed
    time: a whole number of milliseconds that is non-negative and lies
    within 1 ms plus a relative rounding error of 2^-24 of
    elapsed * (1 / progress - 1); the label shows it as hours, minutes and
    seconds.  (b) For a progress value <= 0 or > 1, an infinity or a NaN,
    the label shows "ETA: Calculating...".  (c) The label set by an update
    is computed from the timer reading and the progress value of that
    update alone: whatever label the window had before is not used. *)
Theorem eta_estimate (q : Q) (elapsed : Z) :
  ((0 < q)%Q -> (q <= 1)%Q -> 0 <= elapsed < 2 ^ 24 ->
   (inject_Z elapsed <= inject_Z (2 ^ 62) * q)%Q ->
   exists ms,
     estimatedRemaining (Finite q) elapsed = Some ms /\
     etaText (Finite q) elapsed = Some (formatEta ms) /\
     0 <= ms /\
     let claimed := (inject_Z elapsed * (1 / q - 1))%Q in
     let rounding := (inject_Z elapsed / q * (1 # 16777216))%Q in
     (claimed - 1 - rounding < inject_Z ms)%Q /\
     (inject_Z ms <= claimed + rounding)%Q) /\
  ((q <= 0)%Q \/ (1 < q)%Q -> etaText (Finite q) elapsed = Some calculating) /\
  (forall s, etaText (Infinite s) elapsed = Some calculating) /\
  etaText NaN elapsed = Some calculating /\
  (forall w w' now progress,
     timerStart w = timerStart w' ->
     option_map etaLabel (updateProgress w now progress)
       = etaText progress (now - timerStart w) /\
     option_map etaLabel (updateProgress w' now progress)
       = option_map etaLabel (updateProgress w now progress)).
Proof.
  split; [|split; [|split; [|split]]].
  - intros Hq0 Hq1 He Hmax.
    assert (Hin : Binary32.inUnitRange (Finite q) = true)
      by (apply inUnitRange_spec; split; assumption).
    assert (Hclaimed : (inject_Z elapsed * (1 / q - 1)
                        == inject_Z elapsed / q - inject_Z elapsed)%Q)
      by (unfold Qdiv; ring).
    assert (Hx : (inject_Z elapsed / q <= inject_Z (2 ^ 62))%Q)
      by (apply Qle_shift_div_r; assumption).
    destruct (Z.eq_dec elapsed 0) as [E0|E0].
    + (* no time has passed *)
      subst elapsed. exists 0.
      assert (Hqne : Qeq_bool q 0 = false).
      { destruct (Qeq_bool q 0) eqn:E; [|reflexivity].
        apply Qeq_bool_eq in E. rewrite E in Hq0. discriminate. }
      assert (Hr : estimatedRemaining (Finite q) 0 = Some 0).
      { unfold estimatedRemaining, Binary32.div, Binary32.ofInt.
        change (Binary32.round (inject_Z 0)) with (Finite 0).
        rewrite Hqne. unfold Binary32.round.
        assert (En : Qnum (0 / q) = 0) by reflexivity. rewrite En. reflexivity. }
      split; [exact Hr|]. split; [unfold etaText; rewrite Hin, Hr; reflexivity|].
      split; [lia|]. cbv zeta. rewrite Hclaimed.
      assert (Hz : (inject_Z 0 / q == 0)%Q) by (unfold Qdiv; ring).
      rewrite Hz. change (inject_Z 0) with 0%Q. split; lra.
    + destruct (quotient_spec q elapsed Hq0 Hq1 ltac:(lia) Hmax)
        as [v2 [Hdiv [Hge [Hup Hlow]]]].
      change (inject_Z (2 ^ 24)) with 16777216%Q in *.
      change (inject_Z (2 ^ 24 + 1)) with 16777217%Q in *.
      change (inject_Z (2 ^ 24 - 1)) with 16777215%Q in *.
      change (inject_Z (2 ^ 62)) with 4611686018427387904%Q in *.
      pose proof (Qfloor_le v2) as Hf1. pose proof (Qlt_floor v2) as Hf2.
      rewrite inject_Z_plus in Hf2. change (inject_Z 1) with 1%Q in Hf2.
      assert (Ht1 : elapsed <= Qfloor v2).
      { rewrite <- (Qfloor_Z elapsed). apply Qfloor_resp_le. exact Hge. }
      assert (Ht2 : Qfloor v2 < 2 ^ 63).
      { apply Z.lt_le_trans with (4611686018427387904 + 4611686018427387904);
          [|change (2 ^ 63) with 9223372036854775808; lia].
        rewrite Zlt_Qlt, inject_Z_plus.
        change (inject_Z 4611686018427387904) with 4611686018427387904%Q.
        assert (0 <= inject_Z elapsed)%Q
          by (change 0%Q with (inject_Z 0); rewrite <- Zle_Qle; lia).
        lra. }
      assert (H0v : Qle_bool 0 v2 = true).
      { apply Qle_bool_iff.
        assert (0 <= inject_Z elapsed)%Q
          by (change 0%Q with (inject_Z 0); rewrite <- Zle_Qle; lia).
        lra. }
      assert (Hr : estimatedRemaining (Finite q) elapsed
                   = Some (Qfloor v2 - elapsed)).
      { unfold estimatedRemaining. rewrite Hdiv. unfold Binary32.toInt64.
        rewrite H0v.
        destruct (Z.leb_spec (- 2 ^ 63) (Qfloor v2)) as [_|Hn];
          [|change (2 ^ 63) with 9223372036854775808 in *; lia].
        destruct (Z.ltb_spec (Qfloor v2) (2 ^ 63)) as [_|Hn]; [|lia].
        cbn [andb]. rewrite wrap64_small; [reflexivity|].
        change (2 ^ 63) with 9223372036854775808 in *. lia. }
      exists (Qfloor v2 - elapsed).
      split; [exact Hr|]. split; [unfold etaText; rewrite Hin, Hr; reflexivity|].
      split; [lia|]. cbv zeta. rewrite Hclaimed.
      unfold Z.sub. rewrite inject_Z_plus, inject_Z_opp.
      split; lra.
  - intros Hq. unfold etaText.
    destruct (Binary32.inUnitRange (Finite q)) eqn:E; [|reflexivity].
    apply inUnitRange_spec in E. destruct E as [E0 E1].
    destruct Hq as [Hq|Hq]; exfalso.
    + apply (Qlt_not_le _ _ E0 Hq).
    + apply (Qlt_not_le _ _ Hq E1).
  - reflexivity.
  - reflexivity.
  - intros w w' now progress Hw. unfold updateProgress. rewrite <- Hw.
    destruct (etaText progress (now - timerStart w)); split; reflexivity.
Qed.

Lemma eta_estimate_witness :
  exists ms,
    estimatedRemaining (Finite (1 # 4)) 20000 = Some ms /\
    etaText (Finite (1 # 4)) 20000 = Some (formatEta ms) /\
    0 <= ms /\
    let claimed := (inject_Z 20000 * (1 / (1 # 4) - 1))%Q in
    let rounding := (inject_Z 20000 / (1 # 4) * (1 # 16777216))%Q in
    (claimed - 1 - rounding < inject_Z ms)%Q /\
    (inject_Z ms <= claimed + rounding)%Q.
Proof.
  apply (proj1 (eta_estimate (1 # 4) 20000)).
  - reflexivity.
  - unfold Qle. simpl. lia.
  - split; [lia|reflexivity].
  - unfold Qle. simpl. lia.
Defined.

(** C5, counterexample.  After 1 ms at a progress of 0.75 the estimate is
    0 ms: the quotient 1 / 0.75 is truncated to 1 ms before the elapsed
    time is subtracted.  elapsed * (1 / progress - 1) is 1/3 ms. *)
Lemma eta_estimate_is_truncated :
  estimatedRemaining (Finite (3 # 4)) 1 = Some 0 /\
  ~ (inject_Z 0 == inject_Z 1 * (1 / (3 # 4) - 1))%Q.
Proof.
  split; [vm_compute; reflexivity|]. intros H. vm_compute in H. discriminate.
Qed.

(** Beyond 2^24 ms the conversion of the elapsed time to [float] is no
    longer exact: at 16777217 ms (4 h 39 min) and a progress of 1 it
    rounds to 16777216, and the estimate is -1 ms. *)
Lemma eta_estimate_after_long_run :
  estimatedRemaining (Finite 1) 16777217 = Some (-1) /\
  etaText (Finite 1) 16777217 = Some "ETA: 00:00:00"%string.
Proof. split; vm_compute; reflexivity. Qed.

(** * The worker in an arbitrary environment *)

(** ** The shape of a run of [processData], whatever fails *)















Lemma flagAt_false e n : flagAt e n = false -> exists c, interruptedAt e = Some c.
Proof.
  unfold flagAt. destruct (interruptedAt e) as [c|]; [exists c; reflexivity|discriminate].
Qed.














(** ** The run of a job on the Create path *)





(** ** Jobs that end before any conversion *)

(** X3.  When the source opens but no conversion can start, because the
    output driver is not found or because the mode is not CPU, the job
    ends with one [finished(false, ...)]: "Output driver not available:
    <name>" when the driver is missing, whatever the mode is, and
    otherwise "GPU processing is not yet implemented." in GPU mode and
    "Unknown processing mode selected." in any other mode.  The source is
    closed again, these are the only GDAL calls besides the open and the
    driver lookup, and the flag is never loaded. *)
Theorem job_refused_before_conversion (e : Env) (ds : Dataset) (fuel : nat) :
  openResult e = Some ds ->
  driverResult e = None \/ processingMode e <> CPU ->
  exists r,
    process fuel e = Some r /\
    lastSignal r =
      Some (finished false
              match driverResult e, processingMode e with
              | None, _ => ("Output driver not available: " ++ outputDriverName e)%string
              | Some _, GPU => "GPU processing is not yet implemented."
              | Some _, _ => "Unknown processing mode selected."
              end) /\
    finishedCount (emitted r) = 1%nat /\
    calls r = [GDALOpenEx (inputFile e); GetDriverByName (outputDriverName e);
               GDALClose SourceDataset] /\
    loads r = 0%nat.
Proof.
  intros Ho Hwhy.
  assert (Hex : exists r, process fuel e = Some r /\
            lastSignal r =
              Some (finished false
                      match driverResult e, processingMode e with
                      | None, _ => ("Output driver not available: "
                                    ++ outputDriverName e)%string
                      | Some _, GPU => "GPU processing is not yet implemented."
                      | Some _, _ => "Unknown processing mode selected."
                      end) /\
            calls r = [GDALOpenEx (inputFile e); GetDriverByName (outputDriverName e);
                       GDALClose SourceDataset] /\
            loads r = 0%nat).
  { unfold process. rewrite Ho.
    destruct (driverResult e) as [d|].
    - destruct (processingMode e) eqn:Hm.
      + destruct Hwhy as [Hd|Hc]; [discriminate|congruence].
      + eexists. split; [reflexivity|]. split; [apply lastSignal_emit|].
        cbn [emit call calls loads]. rewrite setOptions_calls, setOptions_loads.
        split; reflexivity.
      + eexists. split; [reflexivity|]. split; [apply lastSignal_emit|].
        cbn [emit call calls loads]. rewrite setOptions_calls, setOptions_loads.
        split; reflexivity.
    - eexists. split; [reflexivity|]. split; [apply lastSignal_emit|].
      split; reflexivity. }
  destruct Hex as [r [Hp [Hl [Hc Hld]]]]. exists r.
  split; [exact Hp|]. split; [exact Hl|]. split; [|split; assumption].
  apply (endsFinished_start _ (process_endsFinished fuel e r Hp)).
Qed.

Lemma job_refused_before_conversion_witness :
  exists r,
    process 0 gpuJob = Some r /\
    lastSignal r = Some (finished false "GPU processing is not yet implemented.") /\
    finishedCount (emitted r) = 1%nat /\
    calls r = [GDALOpenEx "in.tif"; GetDriverByName "GTiff"; GDALClose SourceDataset] /\
    loads r = 0%nat.
Proof.
  apply (job_refused_before_conversion gpuJob sampleDataset 0).
  - reflexivity.
  - right. discriminate.
Defined.

(** ** The run of a job on the CreateCopy path *)

(** The number of reports of the driver that the callback forwards, when
    [l] loads of the flag have been made before the copy starts. *)
Definition forwarded (e : Env) (l : nat) (reports : list Q) : nat :=
  match interruptedAt e with
  | None => List.length reports
  | Some c => Nat.min (c - l) (List.length reports)
  end.

Lemma driverCopy_run e :
  forall reports r,
    let k := forwarded e (loads r) reports in
    let complete := (k =? List.length reports)%nat in
    driverCopy e reports r =
    (if complete then copyResult e else false,
     mkRun (emitted r ++ map (fun q => progressUpdated (Finite q)) (firstn k reports))
           (calls r)
           (loads r + (if complete then k else S k))).
Proof.
  induction reports as [|q rest IH]; intros r.
  - unfold forwarded. simpl. destruct (interruptedAt e); simpl;
      rewrite ?Nat.min_0_r; simpl; rewrite app_nil_r, Nat.add_0_r;
      destruct r; reflexivity.
  - cbv zeta. cbn [driverCopy]. unfold progressCallback, load.
    unfold forwarded. unfold flagAt. destruct (interruptedAt e) as [c|] eqn:Hi.
    + destruct (Nat.ltb_spec (loads r) c) as [Hlt|Hge].
      * rewrite IH. cbn [emit loads emitted calls]. unfold forwarded. rewrite Hi.
        cbn [List.length].
        replace (Nat.min (c - loads r) (S (List.length rest)))
          with (S (Nat.min (c - S (loads r)) (List.length rest))) by lia.
        cbn [Nat.eqb firstn map].
        destruct (Nat.min (c - S (loads r)) (List.length rest) =? List.length rest)%nat;
          rewrite <- app_assoc; simpl; do 2 f_equal; lia.
      * cbn [List.length].
        replace (Nat.min (c - loads r) (S (List.length rest))) with 0%nat by lia.
        simpl. rewrite app_nil_r. do 2 f_equal. lia.
    + rewrite IH. cbn [emit loads emitted calls]. unfold forwarded. rewrite Hi.
      cbn [List.length Nat.eqb firstn map]. rewrite !Nat.eqb_refl.
      rewrite <- app_assoc. simpl. do 2 f_equal. lia.
Qed.









(** ** The order of the GDAL calls *)



(** ** The messages of the terminal signal *)

Section SignalsAdded.

Variable e : Env.
Variable P : Signal -> Prop.
Hypothesis P_log : forall m, P (logMessage m).
Hypothesis P_progress : forall p, P (progressUpdated p).
Hypothesis P_cancelled :
  forall n, flagAt e n = false -> P (finished false cancelledMsg).
Hypothesis P_read :
  forall band t err, readOk e band t = false ->
    P (finished false ("Failed to read data from input dataset."
                       ++ newline ++ "GDAL Error: " ++ err)%string).
Hypothesis P_write :
  forall band t err, writeOk e band t = false ->
    P (finished false ("Failed to write data to output dataset."
                       ++ newline ++ "GDAL Error: " ++ err)%string).

(** [r'] continues [r] with signals that all satisfy [P]. *)
Definition emitsOnly (r r' : Run) : Prop :=
  exists l, emitted r' = emitted r ++ l /\ Forall P l.

Lemma emitsOnly_same r r' : emitted r' = emitted r -> emitsOnly r r'.
Proof. intros E. exists []. rewrite app_nil_r. auto. Qed.

Lemma emitsOnly_refl r : emitsOnly r r.
Proof. apply emitsOnly_same. reflexivity. Qed.

Lemma emitsOnly_trans r1 r2 r3 : emitsOnly r1 r2 -> emitsOnly r2 r3 -> emitsOnly r1 r3.
Proof.
  intros [l1 [E1 F1]] [l2 [E2 F2]]. exists (l1 ++ l2).
  rewrite E2, E1, app_assoc. split; [reflexivity|]. apply Forall_app. auto.
Qed.

Lemma emitsOnly_emit s r : P s -> emitsOnly r (emit s r).
Proof. intros H. exists [s]. split; [reflexivity|]. constructor; auto. Qed.

Lemma emitsOnly_call c r : emitsOnly r (call c r).
Proof. exact (emitsOnly_refl r). Qed.

Lemma readBands_emitsOnly t bs : forall r, emitsOnly r (snd (readBands e t bs r)).
Proof.
  induction bs as [|b bs IH]; intros r; [apply emitsOnly_refl|].
  simpl. destruct (readOk e b t) eqn:Hr.
  - eapply emitsOnly_trans; [apply emitsOnly_call|apply IH].
  - simpl. eapply emitsOnly_trans; [apply emitsOnly_call|].
    apply emitsOnly_emit. apply (P_read b t _ Hr).
Qed.

Lemma writeBands_emitsOnly t bs : forall r, emitsOnly r (snd (writeBands e t bs r)).
Proof.
  induction bs as [|b bs IH]; intros r; [apply emitsOnly_refl|].
  simpl. destruct (writeOk e b t) eqn:Hw.
  - eapply emitsOnly_trans; [apply emitsOnly_call|apply IH].
  - simpl. eapply emitsOnly_trans; [apply emitsOnly_call|].
    apply emitsOnly_emit. apply (P_write b t _ Hw).
Qed.

Lemma processBlock_emitsOnly nXSize nBands totalBlocks y h x c r :
  emitsOnly r (snd (processBlock e nXSize nBands totalBlocks y h x c r)).
Proof.
  unfold processBlock.
  match goal with |- context [readBands e ?t ?bs r] =>
    pose proof (readBands_emitsOnly t bs r) as HR;
    destruct (readBands e t bs r) as [[|] r1] end; simpl in HR; [|exact HR].
  unfold load. destruct (flagAt e (loads r1)) eqn:Hf; cbn [negb].
  - match goal with |- context [writeBands e ?t ?bs ?r2] =>
      pose proof (writeBands_emitsOnly t bs r2) as HW;
      destruct (writeBands e t bs r2) as [[|] r3] end; simpl in HW; simpl.
    + eapply emitsOnly_trans; [exact HR|].
      eapply emitsOnly_trans; [exact HW|]. apply emitsOnly_emit. apply P_progress.
    + eapply emitsOnly_trans; [exact HR|exact HW].
  - simpl. eapply emitsOnly_trans; [exact HR|].
    exists [finished false cancelledMsg]. split; [reflexivity|].
    constructor; [exact (P_cancelled _ Hf)|constructor].
Qed.

Lemma columnLoop_emitsOnly nXSize nBands totalBlocks y h :
  forall fuel x c r res,
    columnLoop fuel e nXSize nBands totalBlocks y h x c r = Some res ->
    emitsOnly r (snd res).
Proof.
  induction fuel as [|fuel IH]; intros x c r res H; [discriminate|].
  rewrite columnLoop_S in H. destruct (x <? nXSize).
  - unfold load in H. destruct (flagAt e (loads r)).
    + match type of H with context [processBlock e _ _ _ _ _ _ _ ?r1] =>
        pose proof (processBlock_emitsOnly nXSize nBands totalBlocks y h x c r1) as HB
      end.
      destruct (processBlock e nXSize nBands totalBlocks y h x c _) as [[c1|b] r2];
        simpl in HB.
      * apply IH in H. eapply emitsOnly_trans; [exact HB|exact H].
      * injection H as <-. exact HB.
    + injection H as <-. apply emitsOnly_same. reflexivity.
  - injection H as <-. apply emitsOnly_same. reflexivity.
Qed.

Lemma rowLoop_emitsOnly nXSize nYSize nBands totalBlocks fuelX :
  forall fuel y c r res,
    rowLoop fuel fuelX e nXSize nYSize nBands totalBlocks y c r = Some res ->
    emitsOnly r (snd res).
Proof.
  induction fuel as [|fuel IH]; intros y c r res H; [discriminate|].
  rewrite rowLoop_S in H. destruct (y <? nYSize).
  - unfold load in H. destruct (flagAt e (loads r)).
    + destruct (columnLoop fuelX e nXSize nBands totalBlocks y _ 0 c _)
        as [[[c1|b] r2]|] eqn:HC; [| |discriminate];
        apply columnLoop_emitsOnly in HC; simpl in HC.
      * apply IH in H. eapply emitsOnly_trans; [exact HC|exact H].
      * injection H as <-. exact HC.
    + injection H as <-. apply emitsOnly_same. reflexivity.
  - injection H as <-. apply emitsOnly_same. reflexivity.
Qed.

Lemma processData_emitsOnly fuel ds r res :
  processData fuel e ds r = Some res -> emitsOnly r (snd res).
Proof.
  unfold processData. intros H.
  destruct (rowLoop _ _ _ _ _ _ _ _ _ _) as [[fl r1]|] eqn:HR; [|discriminate].
  apply rowLoop_emitsOnly in HR. simpl in HR.
  assert (H0 : emitsOnly r r1).
  { eapply emitsOnly_trans; [|exact HR]. apply emitsOnly_emit. apply P_log. }
  destruct fl as [c|b].
  - unfold load in H. destruct (flagAt e (loads r1)) eqn:Hf; simpl in H;
      injection H as <-; simpl.
    + eapply emitsOnly_trans; [exact H0|].
      exists [progressUpdated (Finite 1)]. split; [reflexivity|]. constructor; auto.
    + eapply emitsOnly_trans; [exact H0|].
      exists [finished false cancelledMsg]. split; [reflexivity|].
      constructor; [exact (P_cancelled _ Hf)|constructor].
  - injection H as <-. exact H0.
Qed.

End SignalsAdded.

(** The messages with which a job can fail, each with what must have
    happened for it to be used. *)
Definition failureMessage (e : Env) (m : string) : Prop :=
  (openResult e = None /\
   exists err, m = "Failed to open input file: " ++ inputFile e ++ newline
                   ++ "GDAL Error: " ++ err)%string \/
  (driverResult e = None /\
   m = "Output driver not available: " ++ outputDriverName e)%string \/
  (processingMode e = CPU /\
   (exists d, driverResult e = Some d /\
              DCAP_CREATE d = false /\ DCAP_CREATECOPY d = false) /\
   m = "Output driver does not support Create or CreateCopy methods.") \/
  (processingMode e = GPU /\ m = "GPU processing is not yet implemented.") \/
  (processingMode e = OtherMode /\ m = "Unknown processing mode selected.") \/
  ((exists ds, openResult e = Some ds /\ RasterCount ds = 0) /\
   m = "Input dataset has no raster bands.") \/
  (createResult e = false /\
   exists err, m = "Failed to create output dataset: " ++ outputFile e ++ newline
                   ++ "GDAL Error: " ++ err)%string \/
  ((exists d, driverResult e = Some d /\ DCAP_CREATE d = false) /\
   (copyResult e = false \/ exists c, interruptedAt e = Some c) /\
   exists err, m = "Failed to create output dataset using CreateCopy: "
                   ++ outputFile e ++ newline ++ "GDAL Error: " ++ err)%string \/
  ((exists band t, readOk e band t = false) /\
   exists err, m = "Failed to read data from input dataset." ++ newline
                   ++ "GDAL Error: " ++ err)%string \/
  ((exists band t, writeOk e band t = false) /\
   exists err, m = "Failed to write data to output dataset." ++ newline
                   ++ "GDAL Error: " ++ err)%string \/
  ((exists c, interruptedAt e = Some c) /\ m = cancelledMsg).

(** What a signal of a job may be. *)
Definition expected (e : Env) (s : Signal) : Prop :=
  match s with
  | finished true m =>
      processingMode e = CPU /\
      m = ("Conversion completed successfully: " ++ outputFile e)%string
  | finished false m => failureMessage e m
  | _ => True
  end.

Lemma setOptions_emitsOnly P (P_log : forall m, P (logMessage m)) opts :
  forall r, emitsOnly P r (setOptions opts r).
Proof.
  induction opts as [|[key value] opts IH]; intros r; [apply emitsOnly_refl|].
  simpl. eapply emitsOnly_trans; [|apply IH]. apply emitsOnly_emit. apply P_log.
Qed.

Lemma driverCopy_emitsOnly P (P_progress : forall p, P (progressUpdated p)) e reports r :
  emitsOnly P r (snd (driverCopy e reports r)).
Proof.
  rewrite driverCopy_run. simpl. eexists. split; [reflexivity|].
  apply Forall_forall. intros s Hs. apply in_map_iff in Hs.
  destruct Hs as [q [<- _]]. apply P_progress.
Qed.

(** A copy that gives no dataset was refused by the driver or aborted by
    the callback. *)
Lemma driverCopy_false e reports r :
  fst (driverCopy e reports r) = false ->
  copyResult e = false \/ exists c, interruptedAt e = Some c.
Proof.
  rewrite driverCopy_run. simpl. unfold forwarded.
  destruct (interruptedAt e) as [c|]; [right; exists c; reflexivity|].
  rewrite Nat.eqb_refl. intros H. left. exact H.
Qed.

Ltac emitting :=
  repeat first
    [ apply emitsOnly_refl
    | eassumption
    | (eapply emitsOnly_trans; [|apply emitsOnly_call])
    | (eapply emitsOnly_trans; [|apply emitsOnly_emit; exact I])
    | (eapply emitsOnly_trans; [|apply setOptions_emitsOnly; intros; exact I]) ].

Lemma process_expected fuel e r :
  process fuel e = Some r -> emitsOnly (expected e) start r.
Proof.
  set (P := expected e).
  assert (P_log : forall m, P (logMessage m)) by (intros; exact I).
  assert (P_progress : forall p, P (progressUpdated p)) by (intros; exact I).
  assert (P_fail : forall m, failureMessage e m -> P (finished false m))
    by (intros m Hm; exact Hm).
  intros H. unfold process in H.
  destruct (openResult e) as [ds|] eqn:Ho.
  2:{ injection H as <-.
      eapply emitsOnly_trans; [|apply emitsOnly_emit; apply P_fail; left;
                                split; [assumption|eexists; reflexivity]].
      emitting. }
  destruct (driverResult e) as [d|] eqn:Hd.
  2:{ injection H as <-.
      eapply emitsOnly_trans; [|apply emitsOnly_emit; apply P_fail; right; left;
                                split; [assumption|reflexivity]].
      emitting. }
  match type of H with context [setOptions (gdalOptions e) ?x] =>
    assert (H5 : emitsOnly P start (setOptions (gdalOptions e) x)) by emitting;
    set (r5 := setOptions (gdalOptions e) x) in *; clearbody r5 end.
  destruct (processingMode e) eqn:Hm.
  - destruct (DCAP_CREATE d) eqn:Hcap.
    + unfold processWithCreateMethod in H.
      destruct (RasterCount ds =? 0) eqn:Hb.
      { injection H as <-. unfold conclude. emitting.
        eapply emitsOnly_trans; [|apply emitsOnly_emit; apply P_fail;
                                  do 5 right; left; split; [|reflexivity]].
        - emitting.
        - exists ds. split; [assumption|]. apply Z.eqb_eq. exact Hb. }
      destruct (createResult e) eqn:Hcr; cbn [negb] in H.
      2:{ injection H as <-. unfold conclude. emitting.
          eapply emitsOnly_trans; [|apply emitsOnly_emit; apply P_fail;
                                    do 6 right; left;
                                    split; [assumption|eexists; reflexivity]].
          emitting. }
      match type of H with context [processData fuel e ds ?x] =>
        assert (H3 : emitsOnly P start x)
          by (destruct (hasProjection ds), (hasGeoTransform ds); emitting);
        set (r3 := x) in *; clearbody r3 end.
      destruct (processData fuel e ds r3) as [[ok r4]|] eqn:HP; [|discriminate].
      apply (processData_emitsOnly e P) in HP; try assumption.
      * simpl snd in HP. injection H as <-. unfold conclude.
        assert (H4 : emitsOnly P start r4) by (eapply emitsOnly_trans; eassumption).
        destruct ok.
        -- eapply emitsOnly_trans; [|apply emitsOnly_emit; split; [assumption|reflexivity]].
           emitting.
        -- emitting.
      * intros n Hn. apply P_fail. do 10 right.
        split; [exact (flagAt_false e n Hn)|reflexivity].
      * intros band t err Hr. apply P_fail. do 8 right. left.
        split; [exists band, t; exact Hr|eexists; reflexivity].
      * intros band t err Hw. apply P_fail. do 9 right. left.
        split; [exists band, t; exact Hw|eexists; reflexivity].
    + destruct (DCAP_CREATECOPY d) eqn:Hcc.
      * injection H as <-. unfold processWithCreateCopyMethod.
        match goal with |- context [driverCopy e ?l ?x] =>
          pose proof (driverCopy_emitsOnly P P_progress e l x) as HD;
          pose proof (driverCopy_false e l x) as HF;
          destruct (driverCopy e l x) as [[|] r2] end; simpl snd in HD.
        -- unfold conclude.
           eapply emitsOnly_trans; [|apply emitsOnly_emit; split; [assumption|reflexivity]].
           eapply emitsOnly_trans; [|apply emitsOnly_emit; apply P_log].
           eapply emitsOnly_trans; [|apply emitsOnly_call].
           eapply emitsOnly_trans; [|apply emitsOnly_call].
           eapply emitsOnly_trans; [|exact HD]. emitting.
        -- unfold conclude.
           eapply emitsOnly_trans; [|apply emitsOnly_call].
           eapply emitsOnly_trans; [|apply emitsOnly_emit; apply P_fail;
                                     do 7 right; left;
                                     split; [exists d; auto|
                                     split; [exact (HF eq_refl)|eexists; reflexivity]]].
           eapply emitsOnly_trans; [|exact HD]. emitting.
      * injection H as <-.
        eapply emitsOnly_trans; [|apply emitsOnly_emit; apply P_fail;
                                  do 2 right; left].
        -- emitting.
        -- split; [assumption|]. split; [|reflexivity]. exists d. auto.
  - injection H as <-.
    eapply emitsOnly_trans; [|apply emitsOnly_emit; apply P_fail;
                              do 3 right; left; split; [assumption|reflexivity]].
    emitting.
  - injection H as <-.
    eapply emitsOnly_trans; [|apply emitsOnly_emit; apply P_fail;
                              do 4 right; left; split; [assumption|reflexivity]].
    emitting.
Qed.

(** The terminal signal of a run and what is expected of it. *)
Lemma terminal_signal_expected e fuel r :
  process fuel e = Some r ->
  exists b m,
    lastSignal r = Some (finished b m) /\
    if b then
      processingMode e = CPU /\
      m = ("Conversion completed successfully: " ++ outputFile e)%string
    else failureMessage e m.
Proof.
  intros H.
  destruct (process_endsFinished fuel e r H) as [b [l [m [E _]]]].
  destruct (process_expected fuel e r H) as [l' [E' HP]].
  simpl in E, E'. exists b, m. split.
  - unfold lastSignal. rewrite E, map_app. simpl. apply last_last.
  - rewrite Forall_forall in HP.
    assert (Hin : In (finished b m) l').
    { rewrite <- E', E. apply in_or_app. right. left. reflexivity. }
    apply HP in Hin. destruct b; exact Hin.
Qed.

(** X6.  The terminal signal of any run, and what it tells.  It is
    [finished(true, "Conversion completed successfully: <output>")], in CPU
    mode only, or [finished(false, m)] where m is one of eleven messages,
    and each message is used only for its own cause: the source did not
    open; the driver was not found; the driver found supports neither
    method; the mode is GPU; the mode is neither CPU nor GPU; the source
    has no bands; [Create] gave no dataset; [CreateCopy] gave no dataset
    on a driver that cannot create (refused by the driver, or aborted
    because the flag was cleared); a read failed; a write failed; the flag
    was cleared.  The five messages
    about GDAL end with the text of the last GDAL error. *)
Theorem finished_message_catalogue (e : Env) (fuel : nat) (r : Run) :
  process fuel e = Some r ->
  exists b m,
    lastSignal r = Some (finished b m) /\
    if b then
      processingMode e = CPU /\
      m = ("Conversion completed successfully: " ++ outputFile e)%string
    else failureMessage e m.
Proof.
  intros H.
  destruct (process_endsFinished fuel e r H) as [b [l [m [E _]]]].
  destruct (process_expected fuel e r H) as [l' [E' HP]].
  simpl in E, E'. exists b, m. split.
  - unfold lastSignal. rewrite E, map_app. simpl. apply last_last.
  - rewrite Forall_forall in HP.
    assert (Hin : In (finished b m) l').
    { rewrite <- E', E. apply in_or_app. right. left. reflexivity. }
    apply HP in Hin. destruct b; exact Hin.
Qed.

Lemma finished_message_catalogue_witness :
  exists b m,
    lastSignal (emit (finished false "GPU processing is not yet implemented.")
                  (emit (logMessage "GPU processing is not yet implemented.")
                     (call (GDALClose SourceDataset)
                        (emit (logMessage "Processing mode: GPU") (prepared gpuJob)))))
      = Some (finished b m) /\
    if b then
      processingMode gpuJob = CPU /\ m = "Conversion completed successfully: out.tif"
    else failureMessage gpuJob m.
Proof.
  apply (finished_message_catalogue gpuJob 0). reflexivity.
Defined.

(** ** The first failure of a read or a write *)





(** * The ETA label *)

Lemma string_length_append (a b : string) :
  String.length (a ++ b)%string = (String.length a + String.length b)%nat.
Proof. induction a as [|c a IH]; [reflexivity|]. simpl. rewrite IH. reflexivity. Qed.

Lemma twoDigits_length n :
  0 <= n < 100 -> String.length (twoDigits n) = 2%nat.
Proof.
  intros Hn.
  assert (Hall : forallb (fun k => (String.length (twoDigits (Z.of_nat k)) =? 2)%nat)
                   (seq 0 100) = true) by (vm_compute; reflexivity).
  rewrite forallb_forall in Hall.
  specialize (Hall (Z.to_nat n)). rewrite Z2Nat.id in Hall by lia.
  apply Nat.eqb_eq. apply Hall. apply in_seq. lia.
Qed.

(** X7.  For an estimate of less than a hundred hours, the label is "ETA: "
    followed by hours, minutes and seconds, each written with two digits
    and separated by colons, thirteen characters in all; the three fields
    are the estimate truncated to whole seconds, with minutes and seconds
    below 60. *)
Theorem eta_label_fields (ms : Z) :
  0 <= ms < 360000000 ->
  exists h m s,
    formatEta ms = ("ETA: " ++ twoDigits h ++ ":" ++ twoDigits m ++ ":" ++ twoDigits s)%string /\
    0 <= h < 100 /\ 0 <= m < 60 /\ 0 <= s < 60 /\
    ms / 1000 = (h * 60 + m) * 60 + s /\
    String.length (formatEta ms) = 13%nat.
Proof.
  intros Hms.
  pose proof (Z.quot_div_nonneg ms 3600000 ltac:(lia) ltac:(lia)) as Hh.
  pose proof (Z.rem_mod_nonneg ms 3600000 ltac:(lia) ltac:(lia)) as Hr1.
  pose proof (Z.rem_mod_nonneg ms 60000 ltac:(lia) ltac:(lia)) as Hr2.
  pose proof (Z.mod_pos_bound ms 3600000 ltac:(lia)) as Hb1.
  pose proof (Z.mod_pos_bound ms 60000 ltac:(lia)) as Hb2.
  pose proof (Z.quot_div_nonneg (ms mod 3600000) 60000 ltac:(lia) ltac:(lia)) as Hm.
  pose proof (Z.quot_div_nonneg (ms mod 60000) 1000 ltac:(lia) ltac:(lia)) as Hs.
  assert (Hh' : 0 <= ms / 3600000 < 100)
    by (split; [apply Z.div_pos; lia|apply Z.div_lt_upper_bound; lia]).
  assert (Hm' : 0 <= ms mod 3600000 / 60000 < 60)
    by (split; [apply Z.div_pos; lia|apply Z.div_lt_upper_bound; lia]).
  assert (Hs' : 0 <= ms mod 60000 / 1000 < 60)
    by (split; [apply Z.div_pos; lia|apply Z.div_lt_upper_bound; lia]).
  exists (ms / 3600000), (ms mod 3600000 / 60000), (ms mod 60000 / 1000).
  assert (E : formatEta ms =
              ("ETA: " ++ twoDigits (ms / 3600000) ++ ":"
               ++ twoDigits (ms mod 3600000 / 60000) ++ ":"
               ++ twoDigits (ms mod 60000 / 1000))%string).
  { unfold formatEta. rewrite Hr1, Hr2, Hh, Hm, Hs.
    rewrite !wrap_small by (unfold Int32.INT_MIN, Int32.INT_MAX; lia). reflexivity. }
  split; [exact E|]. split; [exact Hh'|]. split; [exact Hm'|]. split; [exact Hs'|].
  split.
  - pose proof (Z.div_mod ms 3600000 ltac:(lia)).
    pose proof (Z.div_mod (ms mod 3600000) 60000 ltac:(lia)).
    pose proof (Z.div_mod ms 60000 ltac:(lia)).
    pose proof (Z.div_mod (ms mod 60000) 1000 ltac:(lia)).
    pose proof (Z.div_mod ms 1000 ltac:(lia)).
    pose proof (Z.mod_pos_bound ms 1000 ltac:(lia)).
    pose proof (Z.mod_pos_bound (ms mod 60000) 1000 ltac:(lia)).
    pose proof (Z.mod_pos_bound (ms mod 3600000) 60000 ltac:(lia)).
    lia.
  - rewrite E. rewrite !string_length_append.
    rewrite (twoDigits_length (ms / 3600000)), (twoDigits_length (ms mod 3600000 / 60000)),
      (twoDigits_length (ms mod 60000 / 1000)) by lia.
    reflexivity.
Qed.

Lemma eta_label_fields_witness :
  exists h m s,
    formatEta 3723456 = ("ETA: " ++ twoDigits h ++ ":" ++ twoDigits m ++ ":" ++ twoDigits s)%string /\
    0 <= h < 100 /\ 0 <= m < 60 /\ 0 <= s < 60 /\
    3723456 / 1000 = (h * 60 + m) * 60 + s /\
    String.length (formatEta 3723456) = 13%nat.
Proof. apply (eta_label_fields 3723456). lia. Defined.

Lemma ofInt_100 : Binary32.ofInt 100 = Finite (13107200 # 131072).
Proof. vm_compute. reflexivity. Qed.

(** Rounding a rational a / b of at most 100: the result is a [float]
    m / s with s >= 2^17, at a distance of at most 1 / (2 s) from a / b,
    and between 0 and 100. *)
Lemma roundPositive_percent a b :
  0 < a -> 0 < b -> a <= 100 * b ->
  exists m s,
    Binary32.roundPositive a b = Some (m # Z.to_pos s) /\
    2 ^ 17 <= s /\ 0 <= m <= 100 * s /\
    2 * (a * s) - b <= 2 * (m * b) <= 2 * (a * s) + b.
Proof.
  intros Ha Hb Hab. unfold Binary32.roundPositive.
  pose proof (Binary32Facts.floorLog2_spec a b Ha Hb) as [Hpos Hneg].
  set (L := Binary32.floorLog2 a b) in *.
  assert (HL : L <= 6).
  { destruct (Z.le_gt_cases L 6) as [|Hn]; [assumption|].
    destruct (Hpos ltac:(lia)) as [Hlo _].
    assert (2 ^ 7 <= 2 ^ L) by (apply Z.pow_le_mono_r; lia).
    change (2 ^ 7) with 128 in *. nia. }
  set (e := Z.max (L - 23) (-149)).
  assert (He : -149 <= e <= -17) by (unfold e; lia).
  destruct (Z.leb_spec 0 e) as [Hn|_]; [lia|].
  set (s := 2 ^ (- e)).
  assert (Hs : 2 ^ 17 <= s) by (unfold s; apply Z.pow_le_mono_r; lia).
  assert (Ps : 0 < s) by (unfold s; apply Z.pow_pos_nonneg; lia).
  pose proof (Binary32Facts.roundHalfEven_error (a * s) b Hb) as Herr.
  set (m := Binary32.roundHalfEven (a * s) b) in *.
  exists m, s. split; [reflexivity|]. split; [exact Hs|]. split; [|exact Herr].
  split.
  - assert (0 <= a * s) by nia.
    assert (- b < 2 * (m * b)) by lia.
    destruct (Z.le_gt_cases 0 m) as [|Hm]; [assumption|].
    assert (m * b <= -1 * b) by (apply Z.mul_le_mono_nonneg_r; lia). lia.
  - destruct (Z.le_gt_cases m (100 * s)) as [|Hm]; [assumption|].
    assert ((100 * s + 1) * b <= m * b) by (apply Z.mul_le_mono_nonneg_r; lia).
    assert (a * s <= 100 * b * s) by (apply Z.mul_le_mono_nonneg_r; lia).
    lia.
Qed.

(** X14.  For a progress value between 0 and 1, the bar is set to a whole
    percentage between 0 and 100: the product progress * 100, computed in
    [float], truncated.  It is within 2^-18 of the percentage truncated:
    above 100 * progress - 1 - 2^-18 and at most 100 * progress + 2^-18.
    At the progress 1.0 of the end it is 100 and at 0 it is 0.  A progress
    value that is not a number, or infinite, gives a conversion to [int]
    without a defined result. *)
Theorem progress_bar_value (q : Q) (current : Z) :
  ((0 <= q)%Q -> (q <= 1)%Q ->
   exists v,
     progressBarAfter (Finite q) current = Some v /\
     0 <= v <= 100 /\
     (inject_Z v <= 100 * q + (1 # 262144))%Q /\
     (100 * q - 1 - (1 # 262144) < inject_Z v)%Q) /\
  progressBarAfter (Finite 1) current = Some 100 /\
  progressBarAfter (Finite 0) current = Some 0 /\
  progressBarAfter NaN current = None /\
  (forall s, progressBarAfter (Infinite s) current = None).
Proof.
  split; [|split; [vm_compute; reflexivity|split; [vm_compute; reflexivity|
           split; [reflexivity|intros s; reflexivity]]]].
  intros H0 H1. unfold progressBarAfter. rewrite ofInt_100. unfold floatMul.
  destruct q as [N D]. unfold Qle in H0, H1. simpl in H0, H1.
  destruct (Z.eq_dec N 0) as [EN|EN].
  - subst N. exists 0. split; [reflexivity|]. split; [lia|].
    split; unfold Qle, Qlt; simpl; lia.
  - assert (HN : 0 < N) by lia.
    rewrite round_positive by (simpl; lia).
    cbn [Qmult Qnum Qden].
    destruct (roundPositive_percent (N * 13107200) (Zpos (D * 131072)))
      as [m [s [E [Hs [Hm Herr]]]]]; [lia|lia|rewrite Pos2Z.inj_mul; lia|].
    rewrite E. clear E.
    assert (Ps : 0 < s) by (assert (0 < 2 ^ 17) by reflexivity; lia).
    unfold toInt.
    assert (Hle : Qle_bool 0 (m # Z.to_pos s) = true).
    { apply Qle_bool_iff. unfold Qle. simpl. lia. }
    rewrite Hle. unfold Qfloor. rewrite Z2Pos.id by exact Ps.
    set (v := m / s).
    assert (Hv : v * s <= m < (v + 1) * s).
    { unfold v. pose proof (Z.div_mod m s ltac:(lia)).
      pose proof (Z.mod_pos_bound m s Ps). nia. }
    assert (Hv100 : 0 <= v <= 100).
    { split; [apply Z.div_pos; lia|].
      destruct (Z.le_gt_cases v 100) as [|Hgt]; [assumption|].
      assert (101 * s <= v * s) by (apply Z.mul_le_mono_nonneg_r; lia). lia. }
    assert (Hrange : (Int32.INT_MIN <=? v) && (v <=? Int32.INT_MAX) = true).
    { unfold Int32.INT_MIN, Int32.INT_MAX. apply andb_true_iff.
      split; apply Z.leb_le; lia. }
    rewrite Hrange. exists v. split.
    { unfold setValue.
      replace ((0 <=? v) && (v <=? 100)) with true; [reflexivity|].
      symmetry. apply andb_true_iff. split; apply Z.leb_le; lia. }
    split; [exact Hv100|].
    rewrite Pos2Z.inj_mul in Herr. set (d := Zpos D) in *.
    assert (Hd : 0 < d) by (unfold d; lia).
    change 131072 with (2 ^ 17) in Herr. change (2 ^ 17) with 131072 in Hs.
    change (2 ^ 17) with 131072 in Herr.
    assert (Hup : 262144 * (v * d) <= 262144 * (100 * N) + d).
    { destruct (Z.le_gt_cases (v * d) (100 * N)) as [|Hgt]; [lia|].
      assert (Hx : 131072 * (v * d - 100 * N) <= s * (v * d - 100 * N))
        by (apply Z.mul_le_mono_nonneg_r; lia).
      assert (Hy : v * s * (d * 131072) <= m * (d * 131072))
        by (apply Z.mul_le_mono_nonneg_r; lia).
      nia. }
    assert (Hlow : 262144 * (100 * N) - d < 262144 * ((v + 1) * d)).
    { destruct (Z.le_gt_cases (100 * N) ((v + 1) * d)) as [|Hgt]; [lia|].
      assert (Hx : 131072 * (100 * N - (v + 1) * d) <= s * (100 * N - (v + 1) * d))
        by (apply Z.mul_le_mono_nonneg_r; lia).
      assert (Hy : m * (d * 131072) < (v + 1) * s * (d * 131072))
        by (apply Z.mul_lt_mono_pos_r; lia).
      nia. }
    split.
    + unfold Qle, Qplus, Qmult, inject_Z. cbn [Qnum Qden].
      rewrite !Pos2Z.inj_mul. fold d. change (Z.pos 262144) with 262144.
      change (Z.pos 1) with 1. nia.
    + unfold Qlt, Qminus, Qplus, Qopp, Qmult, inject_Z. cbn [Qnum Qden].
      rewrite !Pos2Z.inj_mul. fold d. change (Z.pos 262144) with 262144.
      change (Z.pos 1) with 1. nia.
Qed.

Lemma progress_bar_value_witness :
  exists v,
    progressBarAfter (Finite (29 # 100)) 0 = Some v /\
    0 <= v <= 100 /\
    (inject_Z v <= 100 * (29 # 100) + (1 # 262144))%Q /\
    (100 * (29 # 100) - 1 - (1 # 262144) < inject_Z v)%Q.
Proof.
  apply (proj1 (progress_bar_value (29 # 100) 0)).
  - unfold Qle. simpl. lia.
  - unfold Qle. simpl. lia.
Defined.

(** * The options that [startConversion] collects *)

Lemma ascii_compare_refl c : Ascii.compare c c = Eq.
Proof. unfold Ascii.compare. apply N.compare_refl. Qed.

Lemma string_compare_refl s : String.compare s s = Eq.
Proof.
  induction s as [|c s IH]; [reflexivity|].
  simpl. rewrite ascii_compare_refl. exact IH.
Qed.

Lemma ascii_compare_eq a b : Ascii.compare a b = Eq -> a = b.
Proof. apply Ascii.compare_eq_iff. Qed.

Lemma ascii_compare_trans a b c :
  Ascii.compare a b = Lt -> Ascii.compare b c = Lt -> Ascii.compare a c = Lt.
Proof.
  unfold Ascii.compare. rewrite !N.compare_lt_iff. apply N.lt_trans.
Qed.

Lemma string_compare_trans :
  forall s1 s2 s3,
    String.compare s1 s2 = Lt -> String.compare s2 s3 = Lt ->
    String.compare s1 s3 = Lt.
Proof.
  induction s1 as [|c1 s1 IH]; intros [|c2 s2] [|c3 s3] H12 H23;
    simpl in *; try discriminate; try reflexivity.
  destruct (Ascii.compare c1 c2) eqn:E12; try discriminate.
  - apply ascii_compare_eq in E12. subst c2.
    destruct (Ascii.compare c1 c3); try discriminate; [|reflexivity].
    exact (IH _ _ H12 H23).
  - destruct (Ascii.compare c2 c3) eqn:E23; try discriminate.
    + apply ascii_compare_eq in E23. subst c3. rewrite E12. reflexivity.
    + rewrite (ascii_compare_trans _ _ _ E12 E23). reflexivity.
Qed.

Lemma string_compare_gt_lt s1 s2 :
  String.compare s1 s2 = Gt -> String.compare s2 s1 = Lt.
Proof. intros H. rewrite String.compare_antisym, H. reflexivity. Qed.

(** The keys of a map go up strictly. *)
Definition keyBelow (a b : string * string) : Prop :=
  String.compare (fst a) (fst b) = Lt.

Lemma insert_In key value m x :
  In x (QMap.insert key value m) -> x = (key, value) \/ In x m.
Proof.
  induction m as [|[k v] rest IH]; simpl.
  - intros [<-|[]]. left. reflexivity.
  - destruct (String.compare key k); simpl.
    + intros [<-|H]; [left; reflexivity|right; right; exact H].
    + intros [<-|H]; [left; reflexivity|right; exact H].
    + intros [<-|H]; [right; left; reflexivity|].
      destruct (IH H) as [->|H']; [left; reflexivity|right; right; exact H'].
Qed.

Lemma insert_sorted key value m :
  StronglySorted keyBelow m -> StronglySorted keyBelow (QMap.insert key value m).
Proof.
  induction m as [|[k v] rest IH]; intros Hs; simpl.
  - constructor; constructor.
  - inversion Hs as [|a l Hrest Hall]; subst.
    destruct (String.compare key k) eqn:E.
    + apply String.compare_eq_iff in E. subst k. constructor; assumption.
    + constructor; [exact Hs|]. constructor; [exact E|].
      rewrite Forall_forall in *. intros x Hx. unfold keyBelow in *. simpl in *.
      exact (string_compare_trans _ _ _ E (Hall x Hx)).
    + constructor; [apply IH; exact Hrest|].
      rewrite Forall_forall in *. intros x Hx. apply insert_In in Hx.
      destruct Hx as [->|Hx]; [|exact (Hall x Hx)].
      unfold keyBelow. simpl. apply string_compare_gt_lt. exact E.
Qed.

Lemma find_insert key value m key' :
  QMap.find key' (QMap.insert key value m) =
  if String.eqb key' key then Some value else QMap.find key' m.
Proof.
  induction m as [|[k v] rest IH]; simpl.
  - reflexivity.
  - destruct (String.compare key k) eqn:E; simpl.
    + apply String.compare_eq_iff in E. subst k.
      destruct (String.eqb key' key); reflexivity.
    + reflexivity.
    + rewrite IH.
      destruct (String.eqb_spec key' key) as [E1|E1];
        destruct (String.eqb_spec key' k) as [E2|E2]; try reflexivity.
      subst key'. subst k. rewrite string_compare_refl in E. discriminate.
Qed.

Section Collected.

Variable numberOfDouble : Q -> string.

(** Whether a child gives an entry for [key]: it carries that key and its
    value is not empty. *)
Definition supplies (key : string) (child : Child) : bool :=
  String.eqb (optionKey child) key
  && negb (String.eqb (optionValue numberOfDouble (widget child)) "").

(** The value of the last child that gives an entry for [key]. *)
Definition lastValue (key : string) (children : list Child) : option string :=
  option_map (fun child => optionValue numberOfDouble (widget child))
             (List.find (supplies key) (rev children)).

Lemma collectOptions_snoc children child :
  collectOptions numberOfDouble (children ++ [child]) =
  let options := collectOptions numberOfDouble children in
  if String.eqb (optionKey child) "" then options
  else if String.eqb (optionValue numberOfDouble (widget child)) "" then options
       else QMap.insert (optionKey child) (optionValue numberOfDouble (widget child))
              options.
Proof. unfold collectOptions. rewrite fold_left_app. reflexivity. Qed.

Lemma collectOptions_sorted children :
  StronglySorted keyBelow (collectOptions numberOfDouble children).
Proof.
  induction children as [|child children IH] using rev_ind; [constructor|].
  rewrite collectOptions_snoc. cbv zeta.
  destruct (String.eqb (optionKey child) ""); [exact IH|].
  destruct (String.eqb (optionValue numberOfDouble (widget child)) ""); [exact IH|].
  apply insert_sorted. exact IH.
Qed.

Lemma collectOptions_find children key :
  QMap.find key (collectOptions numberOfDouble children) =
  if String.eqb key "" then None else lastValue key children.
Proof.
  induction children as [|child children IH] using rev_ind.
  - simpl. destruct (String.eqb key ""); reflexivity.
  - rewrite collectOptions_snoc. cbv zeta. unfold lastValue.
    rewrite rev_app_distr. simpl. unfold supplies at 1.
    destruct (String.eqb_spec (optionKey child) "") as [Hk|Hk].
    + rewrite IH. destruct (String.eqb_spec key "") as [Hke|Hne]; [reflexivity|].
      destruct (String.eqb_spec (optionKey child) key) as [Hek|_]; [congruence|].
      reflexivity.
    + destruct (String.eqb (optionValue numberOfDouble (widget child)) "") eqn:Hv.
      * rewrite IH, andb_false_r. reflexivity.
      * rewrite find_insert, IH. simpl negb. rewrite andb_true_r.
        destruct (String.eqb_spec key (optionKey child)) as [Hke|Hne].
        -- rewrite Hke, String.eqb_refl.
           destruct (String.eqb_spec (optionKey child) "") as [E|_]; [contradiction|].
           reflexivity.
        -- destruct (String.eqb_spec (optionKey child) key) as [E|_]; [congruence|].
           reflexivity.
Qed.

End Collected.

(** X8.  The options handed to the worker when "Use GDAL Options" is
    checked: the map has one entry for each key carried by a child of the
    options group whose value is not empty, with the value of the last
    such child; children without a key or with an empty value give
    nothing, and a check box always gives "YES" or "NO".  The entries are
    in strictly ascending order of their keys, which is the order in which
    the worker logs them and hands them to GDAL. *)
Theorem collected_options (numberOfDouble : Q -> string) (children : list Child) :
  let m := collectOptions numberOfDouble children in
  StronglySorted keyBelow m /\
  (forall key,
     QMap.find key m =
     if String.eqb key "" then None else lastValue numberOfDouble key children) /\
  (forall key value, In (key, value) m -> key <> "" /\ value <> "") /\
  (forall key b, key <> "" ->
     QMap.find key (collectOptions numberOfDouble
                      (children ++ [mkChild key (QCheckBox b)]))
     = Some (if b then "YES" else "NO")).
Proof.
  intros m. split; [apply collectOptions_sorted|].
  split; [apply collectOptions_find|]. split.
  - subst m. induction children as [|child children IH] using rev_ind.
    + intros key value [].
    + intros key value. rewrite collectOptions_snoc. cbv zeta.
      destruct (String.eqb_spec (optionKey child) "") as [Hk|Hk]; [apply IH|].
      destruct (String.eqb_spec (optionValue numberOfDouble (widget child)) "")
        as [Hv|Hv]; [apply IH|].
      intros Hin. apply insert_In in Hin. destruct Hin as [E|Hin]; [|exact (IH _ _ Hin)].
      injection E as -> ->. split; assumption.
  - intros key b Hkey. rewrite collectOptions_find.
    destruct (String.eqb_spec key "") as [E|_]; [contradiction|].
    unfold lastValue. rewrite rev_app_distr. simpl. unfold supplies at 1. simpl.
    rewrite String.eqb_refl. destruct b; reflexivity.
Qed.

Lemma collected_options_witness :
  QMap.find "TILED"
    (collectOptions (fun _ => "0") (sampleChildren ++ [mkChild "TILED" (QCheckBox true)]))
  = Some "YES".
Proof.
  apply (proj2 (proj2 (proj2 (collected_options (fun _ => "0") sampleChildren)))
           "TILED" true).
  discriminate.
Defined.

(** * Starting a conversion *)

Lemma unknown_mode_cause e :
  failureMessage e "Unknown processing mode selected." -> processingMode e = OtherMode.
Proof.
  unfold failureMessage, cancelledMsg.
  intros [[_ [err H]]|[[_ H]|[[_ [_ H]]|[[_ H]|[[Hm _]|[[_ H]|[[_ [err H]]|[[_ [_ [err H]]]|
          [[_ [err H]]|[[_ [err H]]|[_ H]]]]]]]]]]];
    try exact Hm; simpl in H; discriminate.
Qed.

(** X9.  [startConversion] starts a worker exactly when both paths are not
    empty and the input file exists; otherwise it shows a warning and
    leaves the worker, the controls and the log as they are.  The worker
    gets the two paths, the output driver chosen, the options collected
    when "Use GDAL Options" is checked and none otherwise, the mode CPU or
    GPU of the radio buttons and the number of cores; the log is cleared,
    the timer restarted, and only Cancel stays enabled.  Since the mode is
    CPU or GPU, a worker started from the window never ends with "Unknown
    processing mode selected.", whatever GDAL does. *)
Theorem start_conversion (numberOfDouble : Q -> string)
    (inputExists : bool) (now : Z) (w : MainWindow) :
  let w' := startConversion numberOfDouble inputExists now w in
  if negb (String.eqb (inputLineEdit w) "") && negb (String.eqb (outputLineEdit w) "")
     && inputExists
  then
    exists j,
      worker w' = Some j /\
      inputPath j = inputLineEdit w /\ outputPath j = outputLineEdit w /\
      jobDriverName j = outputDriverData w /\
      options j = (if useOptionsCheckBox w
                   then collectOptions numberOfDouble (optionChildren w) else []) /\
      mode j = (if cpuRadioButton w then CPU else GPU) /\
      cores j = cpuCoresSpinBox w /\
      interruptionRequested w' = false /\ timerRestart w' = Some now /\
      logWindow w' = [] /\ etaLabelText w' = "ETA: Calculating..." /\
      startButton (controls w') = false /\ cancelButton (controls w') = true /\
      (forall world fuel r,
         process fuel (workerEnv j world) = Some r ->
         lastSignal r <> Some (finished false "Unknown processing mode selected."))
  else
    worker w' = worker w /\ controls w' = controls w /\ logWindow w' = logWindow w /\
    exists title text, dialogs w' = dialogs w ++ [warning title text].
Proof.
  intros w'. subst w'. unfold startConversion.
  destruct (String.eqb (inputLineEdit w) ""); simpl.
  { repeat split; eexists; eexists; reflexivity. }
  destruct (String.eqb (outputLineEdit w) ""); simpl.
  { repeat split; eexists; eexists; reflexivity. }
  destruct inputExists; simpl.
  2:{ repeat split; eexists; eexists; reflexivity. }
  eexists. split; [reflexivity|]. simpl. repeat split.
  intros world fuel r Hp Hlast.
  destruct (terminal_signal_expected _ fuel r Hp) as [b [m [Hl Hexp]]].
  rewrite Hl in Hlast. injection Hlast as -> ->.
  apply unknown_mode_cause in Hexp. simpl in Hexp.
  destruct (cpuRadioButton w); discriminate.
Qed.

Lemma start_conversion_witness :
  exists j,
    worker (startConversion (fun _ => "0") true 0 sampleWindow) = Some j /\
    options j = [("BLOCKXSIZE", "256"); ("COMPRESS", "LZW")] /\
    mode j = CPU.
Proof.
  pose proof (start_conversion (fun _ => "0") true 0 sampleWindow) as H.
  cbv zeta in H. simpl in H.
  destruct H as [j [Hj [_ [_ [_ [Ho [Hm _]]]]]]].
  exists j. split; [exact Hj|]. split; [exact Ho|exact Hm].
Defined.

(** * The controls of the window *)

(** The controls when no conversion runs: everything is enabled but
    Cancel; the options group follows "Use GDAL Options" and the spin box
    of the cores follows the CPU radio button. *)
Definition idleControls (w : MainWindow) : Controls :=
  mkControls true false true true true true
    (setOthers true (controls w)) (useOptionsCheckBox w) true true true
    (cpuRadioButton w).

(** The controls while a conversion runs: everything is disabled but
    Cancel, which is enabled until it is clicked. *)
Definition busyControls (w : MainWindow) : Controls :=
  mkControls false (negb (interruptionRequested w)) false false false false
    (setOthers false (controls w)) false false false false false.

Definition consistent (w : MainWindow) : Prop :=
  match worker w with
  | None => controls w = idleControls w
  | Some _ => controls w = busyControls w
  end.

Lemma map_const_idem {A} (b : A) (l : list A) :
  map (fun _ => b) (map (fun _ : A => b) l) = map (fun _ => b) l.
Proof. rewrite map_map. reflexivity. Qed.

Lemma map_const_twice {A} (a b : A) (l : list A) :
  map (fun _ => b) (map (fun _ : A => a) l) = map (fun _ => b) l.
Proof. rewrite map_map. reflexivity. Qed.

Lemma step_consistent numberOfDouble ev w w' :
  consistent w -> step numberOfDouble ev w = Some w' -> consistent w'.
Proof.
  unfold consistent, step. intros Hc H.
  destruct (worker w) as [j|] eqn:Hw; rewrite Hc in H;
    destruct ev; simpl in H; try discriminate.
  - (* Cancel while a conversion runs *)
    destruct (interruptionRequested w) eqn:Hi; simpl in H; [discriminate|].
    injection H as <-. unfold cancelConversion. rewrite Hw. simpl.
    rewrite ?Hw, ?Hc. unfold busyControls, setOthers. simpl.
    rewrite ?map_const_idem. reflexivity.
  - (* the worker has finished *)
    injection H as <-. unfold conversionFinished, idleControls, setOthers. simpl.
    rewrite map_const_idem. reflexivity.
  - (* Start when no conversion runs *)
    injection H as <-. unfold startConversion.
    destruct (String.eqb (inputLineEdit w) "" || String.eqb (outputLineEdit w) "").
    { simpl. rewrite Hw. exact Hc. }
    destruct (negb inputExists).
    { simpl. rewrite Hw. exact Hc. }
    simpl. unfold busyControls, setOthers. simpl. rewrite map_const_idem. reflexivity.
  - injection H as <-. unfold setUseOptions. simpl. rewrite Hw, Hc. simpl.
    unfold idleControls, setOthers. simpl. rewrite map_const_idem. reflexivity.
  - injection H as <-. unfold setCpu. simpl. rewrite Hw, Hc. simpl.
    unfold idleControls, setOthers. simpl. rewrite map_const_idem. reflexivity.
  - injection H as <-. unfold setFields. simpl. rewrite Hw, Hc. simpl.
    unfold idleControls, setOthers. simpl. rewrite map_const_idem. reflexivity.
Qed.

Lemma happen_consistent numberOfDouble evs :
  forall w w', consistent w -> happen numberOfDouble evs w = Some w' -> consistent w'.
Proof.
  induction evs as [|ev evs IH]; intros w w' Hc H; simpl in H.
  - injection H as <-. exact Hc.
  - destruct (step numberOfDouble ev w) as [w1|] eqn:Hs; [|discriminate].
    exact (IH w1 w' (step_consistent _ _ _ _ Hc Hs) H).
Qed.

(** X10.  After any sequence of clicks on Start and Cancel, toggles, edits
    and [finished] signals, from the window that the constructor builds:
    while a worker exists, Start and every input control are disabled and
    Cancel is enabled exactly as long as the interruption has not been
    requested; when no worker exists, every control is enabled but Cancel,
    the options group follows "Use GDAL Options" and the spin box of the
    cores follows the CPU radio button.  So no second conversion can be
    started while one runs, the fields cannot be edited meanwhile, and the
    interruption of a worker is requested at most once. *)
Theorem window_controls (numberOfDouble : Q -> string) (evs : list Event)
    (inputDriver outputDriver : string) (maxCores : Z) (w : MainWindow) :
  happen numberOfDouble evs (initialWindow inputDriver outputDriver maxCores) = Some w ->
  consistent w /\
  (startButton (controls w) = true <-> worker w = None) /\
  (cancelButton (controls w) = true <->
   worker w <> None /\ interruptionRequested w = false) /\
  (forall ev w', worker w <> None ->
     step numberOfDouble ev w = Some w' ->
     ev = clickCancel \/ exists success message, ev = workerFinished success message).
Proof.
  intros H.
  assert (Hc : consistent w).
  { eapply happen_consistent; [|exact H]. reflexivity. }
  split; [exact Hc|]. unfold consistent in Hc.
  destruct (worker w) as [j|] eqn:Hw; rewrite Hc; simpl.
  - split; [split; [discriminate|discriminate]|]. split.
    + split.
      * intros Hn. split; [discriminate|]. destruct (interruptionRequested w);
          [discriminate|reflexivity].
      * intros [_ ->]. reflexivity.
    + intros ev w' _ Hs. unfold step in Hs. rewrite Hc, Hw in Hs. simpl in Hs.
      destruct ev; try discriminate.
      * left. reflexivity.
      * right. eauto.
  - split; [split; reflexivity|]. split.
    + split; [discriminate|]. intros [Hn _]. contradiction.
    + intros ev w' Hn. contradiction.
Qed.

Lemma window_controls_witness :
  exists w,
    happen (fun _ => "0")
      [editFields "in.tif" "out.tif" "GTiff" "GTiff" sampleChildren 4;
       toggleUseOptions true; clickStart true 0; clickCancel]
      (initialWindow "GTiff" "GTiff" 4) = Some w /\
    consistent w /\ cancelButton (controls w) = false /\ worker w <> None.
Proof.
  eexists. split; [reflexivity|].
  split; [|split; [reflexivity|discriminate]].
  eapply (window_controls (fun _ => "0")
            [editFields "in.tif" "out.tif" "GTiff" "GTiff" sampleChildren 4;
             toggleUseOptions true; clickStart true 0; clickCancel]
            "GTiff" "GTiff" 4).
  reflexivity.
Defined.

(** * The driver lists of the window *)

(** The drivers that the output lists keep: all but the raster drivers
    that can neither create nor copy. *)
Definition keptForOutput (driver : option DriverEntry) : bool :=
  match driver with
  | Some d => negb (DCAP_RASTER d) || canWrite d
  | None => true
  end.

Section DriverListFacts.

Variable arg : string -> string -> string.

Lemma comboItems_output m :
  snd (comboItems arg m) = fst (comboItems arg (filter keptForOutput m)).
Proof.
  induction m as [|driver m IH]; [reflexivity|].
  simpl. destruct (comboItems arg m) as [inputs outputs] eqn:E. simpl in IH.
  destruct driver as [d|]; simpl.
  - destruct (DCAP_RASTER d) eqn:Hr; simpl.
    + destruct (canWrite d) eqn:Hw; simpl.
      * destruct (comboItems arg (filter keptForOutput m)) as [i2 o2].
        rewrite Hr. simpl in *. rewrite IH. reflexivity.
      * exact IH.
    + destruct (comboItems arg (filter keptForOutput m)) as [i2 o2].
      rewrite Hr. exact IH.
  - destruct (comboItems arg (filter keptForOutput m)) as [i2 o2]. exact IH.
Qed.

Lemma comboItems_In m item :
  (In item (fst (comboItems arg m)) <->
   exists d, In (Some d) m /\ DCAP_RASTER d = true /\ item = driverItem arg d) /\
  (In item (snd (comboItems arg m)) <->
   exists d, In (Some d) m /\ DCAP_RASTER d = true /\ canWrite d = true /\
             item = driverItem arg d).
Proof.
  induction m as [|driver m [IHi IHo]].
  - simpl. split; split; try contradiction; intros [d [[] _]].
  - simpl. destruct (comboItems arg m) as [inputs outputs]. simpl in IHi, IHo.
    assert (Hi : (exists d, In (Some d) m /\ DCAP_RASTER d = true /\
                            item = driverItem arg d) ->
                 exists d, (driver = Some d \/ In (Some d) m) /\
                           DCAP_RASTER d = true /\ item = driverItem arg d).
    { intros [d [H1 H2]]. exists d. auto. }
    assert (Ho : (exists d, In (Some d) m /\ DCAP_RASTER d = true /\
                            canWrite d = true /\ item = driverItem arg d) ->
                 exists d, (driver = Some d \/ In (Some d) m) /\
                           DCAP_RASTER d = true /\ canWrite d = true /\
                           item = driverItem arg d).
    { intros [d [H1 H2]]. exists d. auto. }
    destruct driver as [d0|].
    + destruct (DCAP_RASTER d0) eqn:Hr; simpl.
      * split.
        -- split.
           ++ intros [<-|H]; [exists d0; auto|]. apply Hi, IHi, H.
           ++ intros [d [[E|H] [H1 H2]]].
              ** injection E as ->. left. symmetry. exact H2.
              ** right. apply IHi. exists d. auto.
        -- destruct (canWrite d0) eqn:Hw; simpl.
           ++ split.
              ** intros [<-|H]; [exists d0; auto|]. apply Ho, IHo, H.
              ** intros [d [[E|H] [H1 [H2 H3]]]].
                 --- injection E as ->. left. symmetry. exact H3.
                 --- right. apply IHo. exists d. auto.
           ++ split.
              ** intros H. apply Ho, IHo, H.
              ** intros [d [[E|H] [H1 [H2 H3]]]].
                 --- injection E as ->. congruence.
                 --- apply IHo. exists d. auto.
      * split.
        -- split.
           ++ intros H. apply Hi, IHi, H.
           ++ intros [d [[E|H] [H1 H2]]].
              ** injection E as ->. congruence.
              ** apply IHi. exists d. auto.
        -- split.
           ++ intros H. apply Ho, IHo, H.
           ++ intros [d [[E|H] [H1 [H2 H3]]]].
              ** injection E as ->. congruence.
              ** apply IHo. exists d. auto.
    + split.
      * split.
        -- intros H. apply Hi, IHi, H.
        -- intros [d [[E|H] [H1 H2]]]; [discriminate|]. apply IHi. exists d. auto.
      * split.
        -- intros H. apply Ho, IHo, H.
        -- intros [d [[E|H] [H1 [H2 H3]]]]; [discriminate|]. apply IHo. exists d. auto.
Qed.

Lemma driverFilters_output m :
  driverFilters arg false m = driverFilters arg true (filter keptForOutput m).
Proof.
  induction m as [|driver m IH]; [reflexivity|].
  simpl. destruct driver as [d|]; simpl.
  - destruct (DCAP_RASTER d) eqn:Hr; simpl.
    + destruct (canWrite d) eqn:Hw; simpl.
      * rewrite Hr. simpl. rewrite IH. reflexivity.
      * exact IH.
    + rewrite Hr. exact IH.
  - exact IH.
Qed.

End DriverListFacts.

(** X11.  The lists that the window offers for the output are the lists
    for the input restricted to the drivers that can write: the output
    combo box and the output file filter are what the input combo box and
    the input file filter would be if the raster drivers that support
    neither [Create] nor [CreateCopy] were not registered, with the same
    entries in the same order.  An entry is in the input combo box exactly
    when it is the entry of a registered raster driver, and in the output
    combo box exactly when that driver can also create or copy. *)
Theorem output_lists_keep_writable_drivers
    (arg : string -> string -> string) (m : DriverManager) :
  snd (comboItems arg m) = fst (comboItems arg (filter keptForOutput m)) /\
  buildFileFilter arg false m = buildFileFilter arg true (filter keptForOutput m) /\
  (forall item,
     In item (fst (comboItems arg m)) <->
     exists d, In (Some d) m /\ DCAP_RASTER d = true /\ item = driverItem arg d) /\
  (forall item,
     In item (snd (comboItems arg m)) <->
     exists d, In (Some d) m /\ DCAP_RASTER d = true /\ canWrite d = true /\
               item = driverItem arg d).
Proof.
  split; [apply comboItems_output|]. split.
  - unfold buildFileFilter. rewrite driverFilters_output. reflexivity.
  - split; intros item; apply comboItems_In.
Qed.

Lemma output_lists_keep_writable_drivers_witness :
  In ("%1 (%2)Portable Network GraphicsPNG", "PNG")
     (snd (comboItems (fun s a => (s ++ a)%string) sampleDrivers)).
Proof.
  apply (proj2 (proj2 (proj2 (proj2
           (output_lists_keep_writable_drivers (fun s a => (s ++ a)%string)
              sampleDrivers)))
           ("%1 (%2)Portable Network GraphicsPNG", "PNG"))).
  exists (mkDriverEntry "PNG" (Some "Portable Network Graphics") true
            (mkDriver false true) (Some "png")).
  split; [simpl; auto|]. repeat split.
Defined.

(** * A driver chosen from the output list *)

Lemma EQUAL_refl s : EQUAL s s = true.
Proof. unfold EQUAL. apply String.eqb_refl. Qed.

(** No two registered drivers have the same name, whatever the case of the
    letters. *)
Definition uniqueNames (m : DriverManager) : Prop :=
  forall d1 d2, In (Some d1) m -> In (Some d2) m ->
    EQUAL (Description d1) (Description d2) = true -> d1 = d2.

Lemma driverByName_registered m d :
  uniqueNames m -> In (Some d) m -> driverByName m (Description d) = Some d.
Proof.
  intros Hu. induction m as [|driver m IH]; intros Hin; [contradiction|].
  assert (Hu' : uniqueNames m).
  { intros d1 d2 H1 H2. apply Hu; right; assumption. }
  destruct driver as [d0|]; simpl.
  - destruct (EQUAL (Description d0) (Description d)) eqn:E.
    + f_equal. apply Hu; [left; reflexivity|exact Hin|exact E].
    + destruct Hin as [Hin|Hin]; [|exact (IH Hu' Hin)].
      injection Hin as ->. rewrite EQUAL_refl in E. discriminate.
  - destruct Hin as [Hin|Hin]; [discriminate|exact (IH Hu' Hin)].
Qed.

Lemma driver_missing_cause e :
  failureMessage e ("Output driver not available: " ++ outputDriverName e)%string ->
  driverResult e = None.
Proof.
  unfold failureMessage, cancelledMsg.
  intros [[_ [err H]]|[[Hd _]|[[_ [_ H]]|[[_ H]|[[_ H]|[[_ H]|[[_ [err H]]|[[_ [_ [err H]]]|
          [[_ [err H]]|[[_ [err H]]|[_ H]]]]]]]]]]];
    try exact Hd; simpl in H; discriminate.
Qed.

Lemma driver_unsupported_cause e :
  failureMessage e "Output driver does not support Create or CreateCopy methods." ->
  exists d, driverResult e = Some d /\ DCAP_CREATE d = false /\ DCAP_CREATECOPY d = false.
Proof.
  unfold failureMessage, cancelledMsg.
  intros [[_ [err H]]|[[_ H]|[[_ [Hd _]]|[[_ H]|[[_ H]|[[_ H]|[[_ [err H]]|[[_ [_ [err H]]]|
          [[_ [err H]]|[[_ [err H]]|[_ H]]]]]]]]]]];
    try exact Hd; simpl in H; discriminate.
Qed.

(** X12.  A worker whose output driver was chosen in the output combo box
    finds its driver and can use it: when [GetDriverByName] answers from
    the same registered drivers, in which no two have the same name, the
    job ends neither with "Output driver not available: <name>" nor with
    "Output driver does not support Create or CreateCopy methods.". *)
Theorem listed_output_driver_is_usable
    (arg : string -> string -> string) (m : DriverManager)
    (label data : string) (e : Env) (fuel : nat) (r : Run) :
  uniqueNames m ->
  In (label, data) (snd (comboItems arg m)) ->
  outputDriverName e = data ->
  driverResult e = option_map capabilities (driverByName m data) ->
  process fuel e = Some r ->
  exists b msg,
    lastSignal r = Some (finished b msg) /\
    (exists d, driverResult e = Some d /\
               (DCAP_CREATE d = true \/ DCAP_CREATECOPY d = true)) /\
    msg <> ("Output driver not available: " ++ data)%string /\
    msg <> "Output driver does not support Create or CreateCopy methods.".
Proof.
  intros Hu Hin Hname Hdrv Hp.
  apply comboItems_In in Hin. destruct Hin as [d [Hd [Hr [Hw E]]]].
  injection E as _ ->. rewrite (driverByName_registered m d Hu Hd) in Hdrv.
  simpl in Hdrv.
  assert (Hcap : DCAP_CREATE (capabilities d) = true \/
                 DCAP_CREATECOPY (capabilities d) = true).
  { unfold canWrite in Hw. apply orb_true_iff in Hw. exact Hw. }
  destruct (terminal_signal_expected e fuel r Hp) as [b [msg [Hl Hexp]]].
  exists b, msg. split; [exact Hl|]. split; [exists (capabilities d); auto|].
  destruct b.
  - destruct Hexp as [_ ->]. split; intros H; simpl in H; discriminate.
  - split; intros H; subst msg.
    + rewrite <- Hname in Hexp. apply driver_missing_cause in Hexp. congruence.
    + apply driver_unsupported_cause in Hexp. destruct Hexp as [d' [E1 [E2 E3]]].
      rewrite Hdrv in E1. injection E1 as <-. destruct Hcap; congruence.
Qed.

Lemma sampleDrivers_uniqueNames : uniqueNames sampleDrivers.
Proof.
  intros d1 d2 H1 H2 E. unfold sampleDrivers in H1, H2. simpl in H1, H2.
  repeat (destruct H1 as [H1|H1]; [try discriminate H1; try (injection H1 as <-)|]);
    try contradiction;
    repeat (destruct H2 as [H2|H2]; [try discriminate H2; try (injection H2 as <-)|]);
    try contradiction; try reflexivity; vm_compute in E; discriminate.
Qed.

Lemma listed_output_driver_is_usable_witness :
  exists b msg,
    lastSignal (emit (finished false "GPU processing is not yet implemented.")
                  (emit (logMessage "GPU processing is not yet implemented.")
                     (call (GDALClose SourceDataset)
                        (emit (logMessage "Processing mode: GPU") (prepared gpuJob)))))
      = Some (finished b msg) /\
    (exists d, driverResult gpuJob = Some d /\
               (DCAP_CREATE d = true \/ DCAP_CREATECOPY d = true)) /\
    msg <> "Output driver not available: GTiff" /\
    msg <> "Output driver does not support Create or CreateCopy methods.".
Proof.
  apply (listed_output_driver_is_usable (fun s a => (s ++ a)%string) sampleDrivers
           "%1 (%2)GeoTIFFGTiff" "GTiff" gpuJob 0).
  - exact sampleDrivers_uniqueNames.
  - simpl. left. reflexivity.
  - reflexivity.
  - reflexivity.
  - reflexivity.
Defined.

(** * The file filters *)



Lemma snoc_not_empty s c : String.eqb (s ++ String c "") "" = false.
Proof. destruct s; reflexivity. Qed.










